(** * webcast.py: event resolution and stream verification

    A shallow embedding of [src/webcast.py] and the properties of its
    name normalizer, temporal resolver, slug candidate generator, endpoint
    verifier, slug resolver and event assembler.

    Text.  A Python [str] is a sequence of Unicode code points, so text is
    [list N] here.  The character classes CPython reads from the Unicode
    database ([str.lower], [str.title], [\w], [\d], the case pairs of
    IGNORECASE) are tabulated for Basic Latin (code points below 128),
    where they are exact, together with the whitespace and line-boundary
    sets in full and the entries of U+01F0 and U+030C.  Other code points
    are treated as caseless symbols, which they are not all: statements
    that depend on digits, word characters or case therefore speak of
    text of Basic Latin ([is_ascii]), or are such that the tables do not
    matter.

    Effects.  Exceptions are an explicit [outcome]; network requests go
    through a small state-and-exception monad [Net] that logs every request
    and answers it from an endpoint oracle. *)

From Stdlib Require Import ZArith NArith Ascii String Lia.
From stdpp Require Import gmap strings list fin_maps sorting lexico pretty.

Set Default Proof Using "Type".
Local Open Scope N_scope.

(** ** Python strings *)

Module Py.

Definition of_string (s : string) : list N :=
  N_of_ascii <$> list_ascii_of_string s.

(** [str.isspace] of one character; also [\s] of [re] on [str] patterns. *)
Definition isspace (c : N) : bool :=
  ((9 <=? c) && (c <=? 13)) || ((28 <=? c) && (c <=? 32)) ||
  (c =? 133) || (c =? 160) || (c =? 5760) ||
  ((8192 <=? c) && (c <=? 8202)) || (c =? 8232) || (c =? 8233) ||
  (c =? 8239) || (c =? 8287) || (c =? 12288).

(** The line boundaries of [str.splitlines]. *)
Definition is_linebreak (c : N) : bool :=
  ((10 <=? c) && (c <=? 13)) || ((28 <=? c) && (c <=? 30)) ||
  (c =? 133) || (c =? 8232) || (c =? 8233).

Definition is_upper_az (c : N) : bool := (65 <=? c) && (c <=? 90).
Definition is_lower_az (c : N) : bool := (97 <=? c) && (c <=? 122).
Definition is_alpha_az (c : N) : bool := is_upper_az c || is_lower_az c.

(** [\d] and the digits [int] reads, on Basic Latin: the digits 0 to 9.
    Unicode has further decimal digits (fullwidth, Arabic-Indic, ...),
    which [re] and [int] accept and this table leaves out. *)
Definition is_digit (c : N) : bool := (48 <=? c) && (c <=? 57).

(** U+01F0 LATIN SMALL LETTER J WITH CARON: a lowercase letter whose
    title-case and upper-case mappings are the two code points U+004A,
    U+030C.  U+030C COMBINING CARON is a caseless mark. *)
Definition J_CARON : N := 496.
Definition COMBINING_CARON : N := 780.

(** [\w]: alphanumeric or underscore, on Basic Latin and for U+01F0.  The
    letters and digits of the other scripts are word characters for [re]
    and are left out of this table. *)
Definition is_word (c : N) : bool :=
  is_alpha_az c || is_digit c || (c =? 95) || (c =? J_CARON).

(** The Cased property, as [str.title] consults it. *)
Definition is_cased (c : N) : bool := is_alpha_az c || (c =? J_CARON).

(** Simple (one to one) case mappings. *)
Definition lower1 (c : N) : N := if is_upper_az c then c + 32 else c.
Definition upper1 (c : N) : N := if is_lower_az c then c - 32 else c.

(** Full case mappings, which may produce several code points. *)
Definition lower_full (c : N) : list N := [lower1 c].
Definition upper_full (c : N) : list N :=
  if c =? J_CARON then [74; COMBINING_CARON] else [upper1 c].
Definition title_full (c : N) : list N := upper_full c.

Definition lower (s : list N) : list N := s ≫= lower_full.
Definition upper (s : list N) : list N := s ≫= upper_full.

(** [str.title]: a character that follows a cased character is lowercased,
    any other character is titlecased. *)
Fixpoint title_from (previous_is_cased : bool) (s : list N) : list N :=
  match s with
  | [] => []
  | c :: s' =>
      (if previous_is_cased then lower_full c else title_full c)
        ++ title_from (is_cased c) s'
  end.
Definition title (s : list N) : list N := title_from false s.

Fixpoint lstrip_if (p : N → bool) (s : list N) : list N :=
  match s with
  | [] => []
  | c :: s' => if p c then lstrip_if p s' else s
  end.

Fixpoint rstrip_if (p : N → bool) (s : list N) : list N :=
  match s with
  | [] => []
  | c :: s' =>
      match rstrip_if p s' with
      | [] => if p c then [] else [c]
      | t => c :: t
      end
  end.

Definition strip_if (p : N → bool) (s : list N) : list N :=
  rstrip_if p (lstrip_if p s).

(** [s.strip()] and [s.strip(chars)]. *)
Definition strip (s : list N) : list N := strip_if isspace s.
Definition strip_chars (chars : list N) (s : list N) : list N :=
  strip_if (λ c, bool_decide (c ∈ chars)) s.

(** The fields between separator characters, empty fields included. *)
Fixpoint fields (sep : N → bool) (s : list N) : list (list N) :=
  match s with
  | [] => [[]]
  | c :: s' =>
      if sep c then [] :: fields sep s'
      else match fields sep s' with
           | w :: ws => (c :: w) :: ws
           | [] => [[c]]
           end
  end.

Definition nonempty {A} (l : list A) : bool :=
  match l with [] => false | _ :: _ => true end.

(** [s.split()]: the maximal runs of non-whitespace characters. *)
Definition split (s : list N) : list (list N) :=
  filter (λ w, nonempty w = true) (fields isspace s).

(** [s.split(c)] for a one-character separator. *)
Definition split_on (c : N) (s : list N) : list (list N) :=
  fields (N.eqb c) s.

(** [s.split(c, 1)] when [c] occurs in [s]: the text before and after the
    first occurrence. *)
Fixpoint split1 (c : N) (s : list N) : list N * list N :=
  match s with
  | [] => ([], [])
  | x :: s' =>
      if x =? c then ([], s')
      else let '(a, b) := split1 c s' in (x :: a, b)
  end.

(** [s.splitlines()]: a carriage return followed by a line feed is one
    boundary, and a boundary at the very end opens no further line. *)
Fixpoint splitlines_from (after_cr : bool) (s : list N) : list (list N) :=
  match s with
  | [] => []
  | c :: s' =>
      if after_cr && (c =? 10) then splitlines_from false s'
      else if is_linebreak c then [] :: splitlines_from (c =? 13) s'
      else match splitlines_from false s' with
           | w :: ws => (c :: w) :: ws
           | [] => [[c]]
           end
  end.
Definition splitlines (s : list N) : list (list N) := splitlines_from false s.

(** [sep.join(l)]. *)
Fixpoint join (sep : list N) (l : list (list N)) : list N :=
  match l with
  | [] => []
  | [w] => w
  | w :: l' => w ++ sep ++ join sep l'
  end.

Fixpoint startswith (p s : list N) : bool :=
  match p, s with
  | [], _ => true
  | a :: p', b :: s' => (a =? b) && startswith p' s'
  | _ :: _, [] => false
  end.

(** [sub in s] for strings. *)
Fixpoint contains (sub s : list N) : bool :=
  startswith sub s ||
  match s with
  | [] => false
  | _ :: s' => contains sub s'
  end.

(** [s[lo:hi]] for non-negative bounds. *)
Definition slice (lo hi : nat) (s : list N) : list N :=
  take (hi - lo) (drop lo s).

(** [l[-2:]]. *)
Definition last_two {A} (l : list A) : list A := drop (length l - 2) l.

(** The value of a string of decimal digits. *)
Definition int_of_digits (s : list N) : Z :=
  foldl (λ acc c, acc * 10 + Z.of_N (c - 48))%Z 0%Z s.

(** Decimal rendering of a non-negative integer. *)
Definition decimal (n : Z) : list N := of_string (pretty (Z.to_N n)).

End Py.

Notation "'py' s" := (Py.of_string s%string) (at level 10, s at level 9, only parsing).


(** ** Regular expressions

    The patterns of the source use literals, character classes, greedy
    repetition of a class, optional parts, alternation, capturing groups
    and the assertions [\b] and [$].  [run] enumerates the ways a pattern
    matches at a cursor in the order in which the backtracking matcher of
    [re] tries them, so the head of the list is the match [re] reports. *)

Module Re.

Record cursor := Cursor {
  before : option N;   (* the character just before the cursor *)
  pos : nat;           (* index of the cursor in the subject *)
  rest : list N        (* the subject from the cursor on *)
}.

Inductive regex :=
  | Eps
  | Cls (p : N → bool)                            (* one character of a class *)
  | Seq (r1 r2 : regex)
  | Alt (r1 r2 : regex)                           (* r1|r2 *)
  | Rep (p : N → bool) (lo : nat) (hi : option nat) (* p{lo,hi}, greedy *)
  | Opt (r : regex)                               (* r? *)
  | WordB                                         (* \b *)
  | Eos                                           (* $ *)
  | Group (n : nat) (r : regex).                  (* the n-th ( ) *)

Definition Star (p : N → bool) : regex := Rep p 0 None.
Definition Plus (p : N → bool) : regex := Rep p 1 None.
Definition Chr (c : N) : regex := Cls (N.eqb c).

Fixpoint Lit (s : list N) : regex :=
  match s with
  | [] => Eps
  | [c] => Chr c
  | c :: s' => Seq (Chr c) (Lit s')
  end.

Fixpoint Alts (rs : list regex) : regex :=
  match rs with
  | [] => Cls (λ _, false)
  | [r] => r
  | r :: rs' => Alt r (Alts rs')
  end.

Fixpoint Seqs (rs : list regex) : regex :=
  match rs with
  | [] => Eps
  | [r] => r
  | r :: rs' => Seq r (Seqs rs')
  end.

(** Membership in a class; under IGNORECASE a character also matches when
    one of its case variants is in the class.  The case variants are those
    of Basic Latin.  Beyond it [re] pairs four more characters with
    letters of Basic Latin (U+017F with s, U+212A with k, U+0130 and
    U+0131 with i), so on other text a class that holds one of these
    letters matches more than this definition says. *)
Definition cls (ignorecase : bool) (p : N → bool) (c : N) : bool :=
  p c || (ignorecase && (p (Py.lower1 c) || p (Py.upper1 c))).

Definition is_word_opt (o : option N) : bool :=
  match o with Some c => Py.is_word c | None => false end.

(** The cursors after [lo] to [hi] characters of a class, longest first. *)
Fixpoint rep (ok : N → bool) (lo : nat) (hi : option nat)
    (b : option N) (i : nat) (s : list N) : list cursor :=
  let stop := match lo with O => [Cursor b i s] | S _ => [] end in
  match s with
  | x :: s' =>
      if ok x && negb (bool_decide (hi = Some O))
      then rep ok (Nat.pred lo) (Nat.pred <$> hi) (Some x) (S i) s' ++ stop
      else stop
  | [] => stop
  end.

Fixpoint run (ic : bool) (r : regex) (c : cursor) (g : gmap nat (list N))
    : list (cursor * gmap nat (list N)) :=
  match r with
  | Eps => [(c, g)]
  | Cls p =>
      match rest c with
      | x :: s' =>
          if cls ic p x then [(Cursor (Some x) (S (pos c)) s', g)] else []
      | [] => []
      end
  | Seq r1 r2 => run ic r1 c g ≫= λ '(c1, g1), run ic r2 c1 g1
  | Alt r1 r2 => run ic r1 c g ++ run ic r2 c g
  | Rep p lo hi =>
      (λ c', (c', g)) <$> rep (cls ic p) lo hi (before c) (pos c) (rest c)
  | Opt r1 => run ic r1 c g ++ [(c, g)]
  | WordB =>
      if xorb (is_word_opt (before c)) (is_word_opt (head (rest c)))
      then [(c, g)] else []
  | Eos =>
      match rest c with
      | [] => [(c, g)]
      | [x] => if x =? 10 then [(c, g)] else []
      | _ => []
      end
  | Group n r1 =>
      run ic r1 c g ≫= λ '(c', g'),
        [(c', <[n := take (pos c' - pos c) (rest c)]> g')]
  end.

(** A match object: [m.start()], [m.end()] and the groups that took part. *)
Record found := Found {
  m_start : nat;
  m_end : nat;
  m_groups : gmap nat (list N)
}.

Definition group (m : found) (n : nat) : option (list N) := m_groups m !! n.

(** [re.search]: the first match at the leftmost position that has one. *)
Fixpoint search_from (ic : bool) (r : regex)
    (b : option N) (i : nat) (s : list N) : option found :=
  match run ic r (Cursor b i s) ∅ with
  | (c', g) :: _ => Some (Found i (pos c') g)
  | [] =>
      match s with
      | x :: s' => search_from ic r (Some x) (S i) s'
      | [] => None
      end
  end.

Definition search (ic : bool) (r : regex) (s : list N) : option found :=
  search_from ic r None 0 s.

(** [re.sub] with a constant replacement: matches are replaced from left
    to right without overlap; [skip] counts the characters of the current
    match that are still to be dropped. *)
Fixpoint sub_from (ic : bool) (r : regex) (repl : list N)
    (b : option N) (i : nat) (skip : nat) (s : list N) : list N :=
  match skip, s with
  | S k, x :: s' => sub_from ic r repl (Some x) (S i) k s'
  | S k, [] => []
  | O, _ =>
      match run ic r (Cursor b i s) ∅, s with
      | (c', _) :: _, x :: s' =>
          match (pos c' - i)%nat with
          | O => repl ++ x :: sub_from ic r repl (Some x) (S i) O s'
          | S k => repl ++ sub_from ic r repl (Some x) (S i) k s'
          end
      | (c', _) :: _, [] => repl
      | [], x :: s' => x :: sub_from ic r repl (Some x) (S i) O s'
      | [], [] => []
      end
  end.

Definition sub (ic : bool) (r : regex) (repl : list N) (s : list N) : list N :=
  sub_from ic r repl None 0 0 s.

(** Classes as written in the patterns. *)
Definition range (a b : N) (c : N) : bool := (a <=? c) && (c <=? b).
Definition one_of (s : list N) (c : N) : bool := bool_decide (c ∈ s).
Definition dot (c : N) : bool := negb (c =? 10).

End Re.

(** ** Exceptions *)

Inductive exn :=
  | ValueError | OverflowError | KeyError
  | ClientError | TimeoutError | CancelledError.

Inductive outcome (A : Type) :=
  | Returns (a : A)
  | Raises (e : exn).
Arguments Returns {A} a.
Arguments Raises {A} e.

Global Instance exn_eq_dec : EqDecision exn.
Proof. solve_decision. Defined.

Global Instance outcome_eq_dec {A} `{EqDecision A} : EqDecision (outcome A).
Proof. solve_decision. Defined.

Definition obind {A B} (m : outcome A) (k : A → outcome B) : outcome B :=
  match m with
  | Returns a => k a
  | Raises e => Raises e
  end.

(** [try: m  except: h]; a bare [except] catches every exception. *)
Definition otry {A} (m : outcome A) (h : A) : outcome A :=
  match m with
  | Returns a => Returns a
  | Raises _ => Returns h
  end.

Notation "x ←? m ; k" := (obind m (λ x, k))
  (at level 100, m at next level, right associativity, only parsing).

(** ** Calendar: [datetime.date] of the proleptic Gregorian calendar *)

Module Cal.
Local Open Scope Z_scope.

Definition is_leap (y : Z) : bool :=
  (y mod 4 =? 0) && (negb (y mod 100 =? 0) || (y mod 400 =? 0)).

Definition days_before_year (y : Z) : Z :=
  let y' := y - 1 in y' * 365 + y' / 4 - y' / 100 + y' / 400.

Definition days_in_month (y m : Z) : Z :=
  match m with
  | 1 | 3 | 5 | 7 | 8 | 10 | 12 => 31
  | 4 | 6 | 9 | 11 => 30
  | 2 => if is_leap y then 29 else 28
  | _ => 0
  end.

(** Days of the year before the first of month [m], for a common year. *)
Definition DAYS_BEFORE_MONTH (m : Z) : Z :=
  match m with
  | 1 => 0 | 2 => 31 | 3 => 59 | 4 => 90 | 5 => 120 | 6 => 151
  | 7 => 181 | 8 => 212 | 9 => 243 | 10 => 273 | 11 => 304 | 12 => 334
  | _ => 0
  end.

Definition days_before_month (y m : Z) : Z :=
  DAYS_BEFORE_MONTH m + (if (2 <? m) && is_leap y then 1 else 0).

Record date := Date { year : Z; month : Z; day : Z }.

Definition MINYEAR : Z := 1.
Definition MAXYEAR : Z := 9999.
Definition MAXORDINAL : Z := 3652059.

(** [date(y, m, d)]: [ValueError] outside the calendar. *)
Definition new (y m d : Z) : outcome date :=
  if (MINYEAR <=? y) && (y <=? MAXYEAR) && (1 <=? m) && (m <=? 12)
     && (1 <=? d) && (d <=? days_in_month y m)
  then Returns (Date y m d)
  else Raises ValueError.

(** [d.toordinal()]; 0001-01-01 is day 1. *)
Definition toordinal (d : date) : Z :=
  days_before_year (year d) + days_before_month (year d) (month d) + day d.

(** [(a - b).days]. *)
Definition days_between (a b : date) : Z := toordinal a - toordinal b.

(** [date.fromordinal], as [_ord2ymd] computes it. *)
Definition ord2ymd (n : Z) : date :=
  let n := n - 1 in
  let n400 := n / 146097 in
  let n := n mod 146097 in
  let n100 := n / 36524 in
  let n := n mod 36524 in
  let n4 := n / 1461 in
  let n := n mod 1461 in
  let n1 := n / 365 in
  let n := n mod 365 in
  let y := n400 * 400 + 1 + n100 * 100 + n4 * 4 + n1 in
  if (n1 =? 4) || (n100 =? 4) then Date (y - 1) 12 31
  else
    let leapyear := (n1 =? 3) && (negb (n4 =? 24) || (n100 =? 3)) in
    let m := Z.shiftr (n + 50) 5 in
    let preceding :=
      DAYS_BEFORE_MONTH m + (if (2 <? m) && leapyear then 1 else 0) in
    if n <? preceding then
      let m' := m - 1 in
      let preceding' :=
        DAYS_BEFORE_MONTH m' + (if (2 <? m') && leapyear then 1 else 0) in
      Date y m' (n - preceding' + 1)
    else Date y m (n - preceding + 1).

End Cal.

(** ** Time zones

    The zones of [TZ_ABBR_MAP].  The rules of the tz database are data
    outside the repository: a [tzdata] gives, for a zone, the offset from
    UTC (in seconds) and the abbreviation that [ZoneInfo.utcoffset] and
    [ZoneInfo.tzname] report for a wall-clock time, and the offset and
    abbreviation in force at a UTC instant.  Times are counted in seconds
    since 0001-01-01T00:00 less one day, that is
    [toordinal * 86400 + hour * 3600 + minute * 60] for the datetimes of
    the source, which have no seconds.

    [ZoneInfo(key)] hands out one object per key (the class caches its
    instances, and [LOCAL_TZ] and [SITE_DEFAULT_TZ] keep theirs alive), so
    two zones are the same object exactly when they are the same zone. *)

Inductive zone := New_York | Chicago | Denver | Los_Angeles.

Global Instance zone_eq_dec : EqDecision zone.
Proof. solve_decision. Defined.

Record tzdata := TzData {
  tz_utcoffset : zone → Z → Z;
  tz_tzname : zone → Z → list N;
  tz_fromutc : zone → Z → Z * list N
}.

(** [ZoneInfo(key)].  The tz database of the system is taken to hold the
    four zones of the source (the module does not load without Los Angeles
    and New York); any other key raises [ZoneInfoNotFoundError], which is a
    [KeyError]. *)
Definition ZoneInfo (key : list N) : outcome zone :=
  if bool_decide (key = py "America/New_York") then Returns New_York
  else if bool_decide (key = py "America/Chicago") then Returns Chicago
  else if bool_decide (key = py "America/Denver") then Returns Denver
  else if bool_decide (key = py "America/Los_Angeles") then Returns Los_Angeles
  else Raises KeyError.

(** An aware [datetime] as the formatter reads it: calendar date, hour,
    minute and [tzname()]; the formatter shows no seconds. *)
Record datetime := DateTime {
  dt_date : Cal.date;
  dt_hour : Z;
  dt_minute : Z;
  dt_tzname : list N
}.

Section Zones.
Local Open Scope Z_scope.
Variable tz : tzdata.

Definition wall_seconds (d : Cal.date) (hh mm : Z) : Z :=
  Cal.toordinal d * 86400 + hh * 3600 + mm * 60.

(** The instants from 0001-01-01T00:00:00 to 9999-12-31T23:59:59. *)
Definition in_range (t : Z) : bool :=
  (86400 <=? t) && (t <? (Cal.MAXORDINAL + 1) * 86400).

(** [datetime(y, m, d, hh, mm, tzinfo=src).astimezone(dst)] for a valid
    date [d].  The constructor rejects an hour or a minute out of range.
    Conversion to the zone object the datetime already carries returns the
    datetime itself: nothing is computed, so nothing can leave the range of
    the calendar, and [tzname()] is the abbreviation of the wall-clock
    time as it was read.  Conversion to another zone goes through UTC:
    the offset of the wall-clock time is subtracted, and [dst.fromutc] adds
    the offset in force at that instant; either step raises
    [OverflowError] when it leaves the range of the calendar. *)
Definition astimezone (d : Cal.date) (hh mm : Z) (src dst : zone)
    : outcome datetime :=
  if negb ((0 <=? hh) && (hh <=? 23) && (0 <=? mm) && (mm <=? 59))
  then Raises ValueError
  else
    let wall := wall_seconds d hh mm in
    if bool_decide (src = dst)
    then Returns (DateTime d hh mm (tz_tzname tz src wall))
    else
      let utc := wall - tz_utcoffset tz src wall in
      if negb (in_range utc) then Raises OverflowError
      else
        let '(off, abbr) := tz_fromutc tz dst utc in
        let loc := utc + off in
        if negb (in_range loc) then Raises OverflowError
        else Returns (DateTime (Cal.ord2ymd (loc / 86400))
                               (loc mod 86400 / 3600) (loc mod 3600 / 60) abbr).

End Zones.

(** ** Dictionaries and constants of the source *)

(** A [dict] display: later entries overwrite earlier ones. *)
Definition dict_of (l : list (string * string)) : gmap (list N) (list N) :=
  foldl (λ m kv, <[Py.of_string kv.1 := Py.of_string kv.2]> m) ∅ l.

Definition LOCAL_TZ : zone := Los_Angeles.

Definition NFL_BASE_URL : list N := py "https://nflwebcast.top/".
Definition NHL_BASE_URL : list N := py "https://nhlstreams.org/nhlstreams-2/".
Definition MLB_BASE_URL : list N := py "https://mlbstreams.live/".
Definition MLS_BASE_URL : list N := py "https://mlswebcast.com/".
Definition NBA_BASE_URL : list N := py "https://nbawebcast.top/".

Definition SITE_DEFAULT_TZ : gmap (list N) zone :=
  list_to_map [ (NFL_BASE_URL, New_York); (NHL_BASE_URL, New_York);
                (MLB_BASE_URL, New_York); (MLS_BASE_URL, New_York);
                (NBA_BASE_URL, New_York) ].

Definition TZ_ABBR_MAP : gmap (list N) (list N) := dict_of [
  ("ET", "America/New_York"); ("EST", "America/New_York");
  ("EDT", "America/New_York");
  ("CT", "America/Chicago"); ("CST", "America/Chicago");
  ("CDT", "America/Chicago");
  ("MT", "America/Denver"); ("MST", "America/Denver");
  ("MDT", "America/Denver");
  ("PT", "America/Los_Angeles"); ("PST", "America/Los_Angeles");
  ("PDT", "America/Los_Angeles") ]%string.

(** [d[k]]: [KeyError] when the key is missing. *)
Definition getitem {V} (d : gmap (list N) V) (k : list N) : outcome V :=
  match d !! k with
  | Some v => Returns v
  | None => Raises KeyError
  end.

(** ** Patterns of the source *)

Definition az : N → bool := Re.range 97 122.

(** [(?:Jan|Feb|Mar|Apr|May|Jun|Jul|Aug|Sep|Sept|Oct|Nov|Dec)[a-z]*\.?] *)
Definition MONTH_RE : Re.regex :=
  Re.Seqs [
    Re.Alts (Re.Lit <$> [py "Jan"; py "Feb"; py "Mar"; py "Apr"; py "May";
                         py "Jun"; py "Jul"; py "Aug"; py "Sep"; py "Sept";
                         py "Oct"; py "Nov"; py "Dec"]);
    Re.Star az;
    Re.Opt (Re.Chr 46) ].

(** [(\d{1,2}):(\d{2})\s*(AM|PM)] *)
Definition TIME_RE : Re.regex :=
  Re.Seqs [
    Re.Group 1 (Re.Rep Py.is_digit 1 (Some 2%nat));
    Re.Chr 58;
    Re.Group 2 (Re.Rep Py.is_digit 2 (Some 2%nat));
    Re.Star Py.isspace;
    Re.Group 3 (Re.Alt (Re.Lit (py "AM")) (Re.Lit (py "PM"))) ].

(** [\b([ECMP][SD]?T|ET|CT|MT|PT)\b] *)
Definition TZ_ABBR_NEAR : Re.regex :=
  Re.Seqs [
    Re.WordB;
    Re.Group 1 (Re.Alts [
      Re.Seqs [Re.Cls (Re.one_of (py "ECMP"));
               Re.Opt (Re.Cls (Re.one_of (py "SD")));
               Re.Chr 84];
      Re.Lit (py "ET"); Re.Lit (py "CT"); Re.Lit (py "MT"); Re.Lit (py "PT") ]);
    Re.WordB ].

(** [\.m3u8($|\?)], compiled with IGNORECASE. *)
Definition STREAM_PATTERN : Re.regex :=
  Re.Seqs [ Re.Lit (py ".m3u8"); Re.Group 1 (Re.Alt Re.Eos (Re.Chr 63)) ].

(** The pattern of [normalize_game_name] for date text that trails the
    home side: one group holding [\b], [MONTH_RE], [\b] and any run of
    characters other than a line feed, followed by [$]. *)
Definition TRAILING_DATE_RE : Re.regex :=
  Re.Seq
    (Re.Group 1 (Re.Seqs [Re.WordB; MONTH_RE; Re.WordB; Re.Star Re.dot]))
    Re.Eos.

(** [\b({MONTH_RE})\s+(\d{1,2})(?:,\s*(\d{4}))?] of [parse_date_title]. *)
Definition DATE_RE : Re.regex :=
  Re.Seqs [
    Re.WordB;
    Re.Group 1 MONTH_RE;
    Re.Plus Py.isspace;
    Re.Group 2 (Re.Rep Py.is_digit 1 (Some 2%nat));
    Re.Opt (Re.Seqs [Re.Chr 44; Re.Star Py.isspace;
                     Re.Group 3 (Re.Rep Py.is_digit 4 (Some 4%nat))]) ].

(** [m.group(n)] of a group that took part in the match. *)
Definition group_text (m : Re.found) (n : nat) : list N :=
  default [] (Re.group m n).

(** ** The name normalizer *)

Definition normalize_game_name (original_name : list N) : list N :=
  let cleaned := Py.strip (Py.join (py " ") (Py.splitlines original_name)) in
  if bool_decide (64 ∈ cleaned) then
    let '(a, b) := Py.split1 64 cleaned in
    let a := Py.title (Py.strip a) in
    let b := Py.title (Py.strip
               (Re.sub true TRAILING_DATE_RE [] (Py.strip b))) in
    a ++ py " @ " ++ b
  else Py.title (Py.join (py " ") (Py.split cleaned)).

(** [int(s)] for the strings the patterns capture: a non-empty string of
    decimal digits has a value, anything else is a [ValueError]. *)
Definition int (s : list N) : outcome Z :=
  if Py.nonempty s && forallb Py.is_digit s
  then Returns (Py.int_of_digits s)
  else Raises ValueError.

(** ** Formatting the display name *)

Section Formatting.
Local Open Scope Z_scope.

Definition MONTH_ABBR (m : Z) : list N :=
  match m with
  | 1 => py "Jan" | 2 => py "Feb" | 3 => py "Mar" | 4 => py "Apr"
  | 5 => py "May" | 6 => py "Jun" | 7 => py "Jul" | 8 => py "Aug"
  | 9 => py "Sep" | 10 => py "Oct" | 11 => py "Nov" | 12 => py "Dec"
  | _ => []
  end.

Definition hour12 (h : Z) : Z := if h mod 12 =? 0 then 12 else h mod 12.
Definition two_digits (n : Z) : list N :=
  if n <? 10 then 48%N :: Py.decimal n else Py.decimal n.
Definition am_pm (h : Z) : list N := if h <? 12 then py "AM" else py "PM".

(** [dt.strftime(fmt)] for the directives the source uses: [%b], [%M],
    [%p] and the unpadded day and hour, spelled [%-d], [%-I] by glibc and
    [%#d], [%#I] on Windows. *)
Fixpoint strftime (fmt : list N) (dt : datetime) : list N :=
  match fmt with
  | [] => []
  | c :: f1 =>
      if (c =? 37)%N then
        match f1 with
        | d :: f2 =>
            if (d =? 98)%N then
              MONTH_ABBR (Cal.month (dt_date dt)) ++ strftime f2 dt
            else if (d =? 77)%N then
              two_digits (dt_minute dt) ++ strftime f2 dt
            else if (d =? 112)%N then
              am_pm (dt_hour dt) ++ strftime f2 dt
            else if (d =? 45)%N || (d =? 35)%N then
              match f2 with
              | e :: f3 =>
                  if (e =? 100)%N then
                    Py.decimal (Cal.day (dt_date dt)) ++ strftime f3 dt
                  else if (e =? 73)%N then
                    Py.decimal (hour12 (dt_hour dt)) ++ strftime f3 dt
                  else c :: strftime f1 dt
              | [] => c :: strftime f1 dt
              end
            else c :: strftime f1 dt
        | [] => [c]
        end
      else c :: strftime f1 dt
  end.

(** [platform.system() == "Windows"]. *)
Variable on_windows : bool.

Definition _strftime_no_pad (fmt_linux fmt_windows : list N) (dt : datetime)
    : list N :=
  strftime (if on_windows then fmt_windows else fmt_linux) dt.

(** [dt_local.tzname()] is the abbreviation of the display zone at that
    instant, which is also what the fallback [LOCAL_TZ.tzname(dt_local)]
    returns. *)
Definition format_game_datetime (game_name : list N)
    (dt_local : option datetime) : list N :=
  match dt_local with
  | None => game_name
  | Some dt =>
      let date_str := _strftime_no_pad (py "%b %-d") (py "%b %#d") dt in
      let time_str := _strftime_no_pad (py "%-I:%M %p") (py "%#I:%M %p") dt in
      let tz_abbr := dt_tzname dt in
      game_name ++ [32; 8226; 32]%N ++ date_str ++ py " at " ++ time_str
                ++ py " " ++ tz_abbr
  end.

End Formatting.

(** ** The temporal resolver *)

Section Temporal.
Local Open Scope Z_scope.

Definition MONTH_NUMBERS : gmap (list N) Z :=
  list_to_map [
    (py "jan", 1); (py "feb", 2); (py "mar", 3); (py "apr", 4);
    (py "may", 5); (py "jun", 6); (py "jul", 7); (py "aug", 8);
    (py "sep", 9); (py "sept", 9); (py "oct", 10); (py "nov", 11);
    (py "dec", 12) ].

Definition _month_str_to_num (mon : list N) : Z :=
  let mon := Py.strip_chars (py ".") (Py.lower mon) in
  default 1 (MONTH_NUMBERS !! mon).

Definition _guess_year (month day : Z) (today : Cal.date) : outcome Z :=
  cand ←? Cal.new (Cal.year today) month day;
  let delta := Cal.days_between cand today in
  if delta <? -180 then Returns (Cal.year today + 1)
  else if 180 <? delta then Returns (Cal.year today - 1)
  else Returns (Cal.year today).

Definition parse_date_title (text : list N) (today : Cal.date)
    : outcome (option Cal.date) :=
  let text := Py.join (py " ") (Py.split text) in
  match Re.search true DATE_RE text with
  | None => Returns None
  | Some m =>
      let mon_str := group_text m 1 in
      let day_str := group_text m 2 in
      let year_str := Re.group m 3 in
      let mon := _month_str_to_num mon_str in
      match int day_str with
      | Raises _ => Returns None
      | Returns day =>
          year ←? match year_str with
                  | Some ((_ :: _) as y) => int y
                  | _ => _guess_year mon day today
                  end;
          match Cal.new year mon day with
          | Returns d => Returns (Some d)
          | Raises _ => Returns None
          end
      end
  end.

Definition parse_time_and_tz (text : list N) (default_tz : zone)
    : outcome (option Z * option Z * zone) :=
  match Re.search true TIME_RE text with
  | None => Returns (None, None, default_tz)
  | Some m =>
      hh ←? int (group_text m 1);
      mm ←? int (group_text m 2);
      let ap := Py.upper (group_text m 3) in
      let hh := if bool_decide (ap = py "PM") && negb (hh =? 12)
                then hh + 12 else hh in
      let hh := if bool_decide (ap = py "AM") && (hh =? 12) then 0 else hh in
      let start := Re.m_start m in
      let window := Py.slice (start - 16) (start + 32) text in
      let tzinfo :=
        match Re.search true TZ_ABBR_NEAR window with
        | Some tz_m =>
            let abbr := Py.upper (group_text tz_m 1) in
            match name ←? getitem TZ_ABBR_MAP abbr; ZoneInfo name with
            | Returns z => z
            | Raises _ => default_tz
            end
        | None => default_tz
        end in
      Returns (Some hh, Some mm, tzinfo)
  end.

(** The instant of a row, lines 516-522 and 674-680: present only when a
    date, an hour and a minute were found and the conversion to the display
    zone succeeds. *)
Definition row_instant (tz : tzdata) (game_date : option Cal.date)
    (hh mm : option Z) (tzinfo : zone) : option datetime :=
  match game_date, hh, mm with
  | Some d, Some h, Some m =>
      match astimezone tz d h m tzinfo LOCAL_TZ with
      | Returns dt => Some dt
      | Raises _ => None
      end
  | _, _, _ => None
  end.

End Temporal.

(** ** The network

    Every request is appended to a log, and answered by an oracle: the
    answer of the endpoint to a HEAD request (after redirects), the
    requests a page issues while it loads.  A computation either returns or
    raises. *)

Inductive request :=
  | HEAD (url : list N)
  | GOTO (url : list N)
  | GET (url : list N).

Inductive response :=
  | Status (code : Z)
  | Failure (e : exn).

Global Instance request_eq_dec : EqDecision request.
Proof. solve_decision. Defined.

Global Instance response_eq_dec : EqDecision response.
Proof. solve_decision. Defined.

Definition Net (A : Type) : Type := list request → outcome A * list request.

Definition ret {A} (a : A) : Net A := λ log, (Returns a, log).

Definition bind {A B} (m : Net A) (k : A → Net B) : Net B :=
  λ log,
    match m log with
    | (Returns a, log') => k a log'
    | (Raises e, log') => (Raises e, log')
    end.

Definition lift {A} (o : outcome A) : Net A := λ log, (o, log).

(** [try: m  except: h]. *)
Definition try_except {A} (m h : Net A) : Net A :=
  λ log,
    match m log with
    | (Returns a, log') => (Returns a, log')
    | (Raises _, log') => h log'
    end.

Notation "x ←$ m ; k" := (bind m (λ x, k))
  (at level 100, m at next level, right associativity, only parsing).

(** ** Team slug tables *)

Definition NFL_TEAM_SLUGS : gmap (list N) (list N) := dict_of [
  ("arizona cardinals", "arizonacardinals");
  ("atlanta falcons", "atlantafalcons");
  ("baltimore ravens", "baltimoreravens");
  ("buffalo bills", "buffalobills");
  ("carolina panthers", "carolinapanthers");
  ("chicago bears", "chicagobears");
  ("cincinnati bengals", "cincinnatibengals");
  ("cleveland browns", "clevelandbrowns");
  ("dallas cowboys", "dallascowboys");
  ("denver broncos", "denverbroncos");
  ("detroit lions", "detroitlions");
  ("green bay packers", "greenbaypackers");
  ("houston texans", "houstontexans");
  ("indianapolis colts", "indianapoliscolts");
  ("jacksonville jaguars", "jacksonvillejaguars");
  ("kansas city chiefs", "kansascitychiefs");
  ("las vegas raiders", "lasvegasraiders");
  ("los angeles chargers", "losangeleschargers");
  ("los angeles rams", "losangelesrams");
  ("miami dolphins", "miamidolphins");
  ("minnesota vikings", "minnesotavikings");
  ("new england patriots", "newenglandpatriots");
  ("new orleans saints", "neworleanssaints");
  ("new york giants", "newyorkgiants");
  ("new york jets", "newyorkjets");
  ("philadelphia eagles", "philadelphiaeagles");
  ("pittsburgh steelers", "pittsburghsteelers");
  ("san francisco 49ers", "sanfrancisco49ers");
  ("seattle seahawks", "seattleseahawks");
  ("tampa bay buccaneers", "tampabaybuccaneers");
  ("tennessee titans", "tennesseetitans");
  ("washington commanders", "washingtoncommanders") ]%string.

Definition NFL_NICK_SLUGS : gmap (list N) (list N) := dict_of [
  ("cardinals", "arizonacardinals"); ("falcons", "atlantafalcons");
  ("ravens", "baltimoreravens"); ("bills", "buffalobills");
  ("panthers", "carolinapanthers"); ("bears", "chicagobears");
  ("bengals", "cincinnatibengals"); ("browns", "clevelandbrowns");
  ("cowboys", "dallascowboys"); ("broncos", "denverbroncos");
  ("lions", "detroitlions"); ("packers", "greenbaypackers");
  ("texans", "houstontexans"); ("colts", "indianapoliscolts");
  ("jaguars", "jacksonvillejaguars"); ("chiefs", "kansascitychiefs");
  ("raiders", "lasvegasraiders"); ("chargers", "losangeleschargers");
  ("rams", "losangelesrams"); ("dolphins", "miamidolphins");
  ("vikings", "minnesotavikings"); ("patriots", "newenglandpatriots");
  ("saints", "neworleanssaints"); ("giants", "newyorkgiants");
  ("jets", "newyorkjets"); ("eagles", "philadelphiaeagles");
  ("steelers", "pittsburghsteelers"); ("49ers", "sanfrancisco49ers");
  ("niners", "sanfrancisco49ers"); ("seahawks", "seattleseahawks");
  ("buccaneers", "tampabaybuccaneers"); ("bucs", "tampabaybuccaneers");
  ("titans", "tennesseetitans"); ("commanders", "washingtoncommanders")
  ]%string.

Definition NHL_TEAM_SLUGS : gmap (list N) (list N) := dict_of [
  ("anaheim ducks", "anaheimducks"); ("arizona coyotes", "arizonacoyotes");
  ("boston bruins", "bostonbruins"); ("buffalo sabres", "buffalosabres");
  ("calgary flames", "calgaryflames");
  ("carolina hurricanes", "carolinahurricanes");
  ("chicago blackhawks", "chicagoblackhawks");
  ("colorado avalanche", "coloradoavalanche");
  ("columbus blue jackets", "columbusbluejackets");
  ("dallas stars", "dallasstars");
  ("detroit red wings", "detroitredwings");
  ("edmonton oilers", "edmontonoilers");
  ("florida panthers", "floridapanthers");
  ("los angeles kings", "losangeleskings");
  ("minnesota wild", "minnesotawild");
  ("montreal canadiens", "montrealcanadiens");
  ("nashville predators", "nashvillepredators");
  ("new jersey devils", "newjerseydevils");
  ("new york islanders", "newyorkislanders");
  ("new york rangers", "newyorkrangers");
  ("ottawa senators", "ottawasenators");
  ("philadelphia flyers", "philadelphiaflyers");
  ("pittsburgh penguins", "pittsburghpenguins");
  ("san jose sharks", "sanjosesharks");
  ("seattle kraken", "seattlekraken"); ("st. louis blues", "stlouisblues");
  ("tampa bay lightning", "tampabaylightning");
  ("toronto maple leafs", "torontomapleleafs");
  ("vancouver canucks", "vancouvercanucks");
  ("vegas golden knights", "vegasgoldenknights");
  ("washington capitals", "washingtoncapitals");
  ("winnipeg jets", "winnipegjets") ]%string.

Definition NHL_NICK_SLUGS : gmap (list N) (list N) := dict_of [
  ("ducks", "anaheimducks"); ("coyotes", "arizonacoyotes");
  ("bruins", "bostonbruins"); ("sabres", "buffalosabres");
  ("flames", "calgaryflames"); ("hurricanes", "carolinahurricanes");
  ("blackhawks", "chicagoblackhawks"); ("avalanche", "coloradoavalanche");
  ("bluejackets", "columbusbluejackets"); ("jackets", "columbusbluejackets");
  ("stars", "dallasstars"); ("redwings", "detroitredwings");
  ("wings", "detroitredwings");
  ("oilers", "edmontonoilers"); ("panthers", "floridapanthers");
  ("kings", "losangeleskings"); ("wild", "minnesotawild");
  ("canadiens", "montrealcanadiens"); ("predators", "nashvillepredators");
  ("devils", "newjerseydevils"); ("islanders", "newyorkislanders");
  ("rangers", "newyorkrangers"); ("senators", "ottawasenators");
  ("flyers", "philadelphiaflyers"); ("penguins", "pittsburghpenguins");
  ("sharks", "sanjosesharks"); ("kraken", "seattlekraken");
  ("blues", "stlouisblues"); ("lightning", "tampabaylightning");
  ("mapleleafs", "torontomapleleafs"); ("leafs", "torontomapleleafs");
  ("canucks", "vancouvercanucks"); ("goldenknights", "vegasgoldenknights");
  ("knights", "vegasgoldenknights");
  ("capitals", "washingtoncapitals"); ("caps", "washingtoncapitals");
  ("jets", "winnipegjets") ]%string.

(** [set(d.values())]. *)
Definition values_set (d : gmap (list N) (list N)) : gset (list N) :=
  list_to_set (snd <$> map_to_list d).

Definition FULL_TEAM_SLUGS_NFL : gset (list N) := values_set NFL_TEAM_SLUGS.
Definition FULL_TEAM_SLUGS_NHL : gset (list N) := values_set NHL_TEAM_SLUGS.

Definition NBA_NICK_TO_CODE : gmap (list N) (list N) := dict_of [
  ("hawks", "atlantahawks"); ("celtics", "bostonceltics");
  ("nets", "brooklynnets"); ("hornets", "charlottehornets");
  ("bulls", "chicagobulls"); ("cavaliers", "clevelandcavaliers");
  ("mavericks", "dallasmavericks"); ("nuggets", "denvernuggets");
  ("pistons", "detroitpistons"); ("warriors", "goldenstatewarriors");
  ("rockets", "houstonrockets"); ("pacers", "indianapacers");
  ("clippers", "losangelesclippers"); ("lakers", "losangeleslakers");
  ("grizzlies", "memphisgrizzlies"); ("heat", "miamiheat");
  ("bucks", "milwaukeebucks"); ("timberwolves", "minnesotatimberwolves");
  ("pelicans", "neworleanspelicans"); ("knicks", "newyorkknicks");
  ("thunder", "oklahomacitythunder"); ("magic", "orlandomagic");
  ("sixers", "philadelphiasixers"); ("suns", "phoenixsuns");
  ("trailblazers", "portlandtrailblazers"); ("kings", "sacramentokings");
  ("spurs", "sanantoniospurs"); ("raptors", "torontoraptors");
  ("jazz", "utahjazz"); ("wizards", "washingtonwizards") ]%string.

Definition TWO_WORD_NICKNAMES : gmap (list N) (list N) := dict_of [
  ("red sox", "redsox"); ("white sox", "whitesox");
  ("blue jays", "bluejays"); ("trail blazers", "trailblazers") ]%string.

(** Iterated in insertion order, so kept as its list of items. *)
Definition ALT_NICK_MAP : list (list N * list N) :=
  [ (py "76ers", py "sixers"); (py "seventy sixers", py "sixers") ].

(** ** The slug candidate generator *)

(** [re.sub(r"[^a-z0-9]", "", s.lower())] *)
Definition _slug (s : list N) : list N :=
  Re.sub false (Re.Cls (λ c, negb (Re.range 97 122 c || Re.range 48 57 c)))
         [] (Py.lower s).

(** [re.sub(r"\s+", " ", txt)] *)
Definition collapse_spaces (txt : list N) : list N :=
  Re.sub false (Re.Plus Py.isspace) (py " ") txt.

(** [out.append(m)] under a guard. *)
Definition append_if {A} (b : bool) (out : list A) (x : A) : list A :=
  if b then out ++ [x] else out.

Definition _nickname_only_candidates (team_text : list N)
    : list (list N) :=
  let txt := Py.lower (Py.strip team_text) in
  if negb (Py.nonempty txt) then []
  else
    let parts := Py.split (collapse_spaces txt) in
    let last_two_phrase :=
      if bool_decide (2 ≤ length parts)%nat
      then Py.join (py " ") (Py.last_two parts) else [] in
    let last_two := default [] (TWO_WORD_NICKNAMES !! last_two_phrase) in
    let last := default [] (last parts) in
    let cands := [] in
    let cands := append_if (Py.nonempty last_two) cands (_slug last_two) in
    let cands := append_if (Py.nonempty last) cands (_slug last) in
    let cands :=
      if existsb (λ kv, Py.contains kv.1 txt) ALT_NICK_MAP
      then foldl (λ cands kv,
                    append_if (Py.contains kv.1 txt) cands (_slug kv.2))
                 cands ALT_NICK_MAP
      else cands in
    (foldl (λ (st : list (list N) * gset (list N)) c,
              if Py.nonempty c && negb (bool_decide (c ∈ st.2))
              then (st.1 ++ [c], {[c]} ∪ st.2) else st)
           ([], ∅) cands).1.

Definition _expand_nba_candidates (nick_cands : list (list N))
    : list (list N) :=
  (foldl (λ (st : list (list N) * gset (list N)) n,
            let st :=
              match NBA_NICK_TO_CODE !! n with
              | Some ((_ :: _) as code) =>
                  let new_slug := py "nba_" ++ code in
                  if negb (bool_decide (new_slug ∈ st.2))
                  then (st.1 ++ [new_slug], {[new_slug]} ∪ st.2) else st
              | _ => st
              end in
            if negb (bool_decide (n ∈ st.2))
            then (st.1 ++ [n], {[n]} ∪ st.2) else st)
         ([], ∅) nick_cands).1.

(** The table hits of [general_candidates], before the fallback is added:
    the full-name tables first, then the nickname tables on the last two
    tokens and on the last token. *)
Definition table_candidates (base_norm : list N) : list (list N) :=
  let out :=
    foldl (λ out m,
             match m with
             | Some ((_ :: _) as m) => out ++ [m]
             | _ => out
             end)
          [] [NFL_TEAM_SLUGS !! base_norm; NHL_TEAM_SLUGS !! base_norm] in
  let parts := Py.split base_norm in
  let last := match last parts with Some w => _slug w | None => [] end in
  let two_last :=
    if bool_decide (2 ≤ length parts)%nat
    then _slug (Py.join (py " ") (Py.last_two parts)) else [] in
  foldl (λ out m,
           match m with
           | Some ((_ :: _) as m) => append_if (negb (bool_decide (m ∈ out))) out m
           | _ => out
           end)
        out [NFL_NICK_SLUGS !! two_last; NFL_NICK_SLUGS !! last;
             NHL_NICK_SLUGS !! two_last; NHL_NICK_SLUGS !! last].

(** [(txt or "").strip().lower()] with runs of whitespace collapsed. *)
Definition base_norm (txt : list N) : list N :=
  collapse_spaces (Py.lower (Py.strip txt)).

(** [general_candidates], which the source defines twice with the same
    text, inside [_home_match_candidates] and inside [resolve_team_slug]. *)
Definition general_candidates (txt : list N) : list (list N) :=
  let base_norm := base_norm txt in
  let out := table_candidates base_norm in
  let joined := _slug base_norm in
  append_if (Py.nonempty joined && negb (bool_decide (joined ∈ out)))
            out joined.

Definition build_candidates (nickname_only : bool) (txt : list N)
    : list (list N) :=
  if nickname_only
  then _expand_nba_candidates (_nickname_only_candidates txt)
  else general_candidates txt.

Definition _home_match_candidates (home_text : list N) (nickname_only : bool)
    : gset (list N) :=
  if nickname_only
  then list_to_set (_expand_nba_candidates (_nickname_only_candidates home_text))
  else list_to_set (general_candidates home_text).

(** ** Endpoint verifier, stream finder and slug resolver *)

Definition PPV_STREAM_URL_PATTERN (team_name : list N) : list N :=
  py "https://gg.poocloud.in/" ++ team_name ++ py "/tracks-v1a1/mono.ts.m3u8".

(** Truth value of an optional string: [None] and [""] are false. *)
Definition truthy (o : option (list N)) : bool :=
  match o with
  | Some (_ :: _) => true
  | _ => false
  end.

Section Endpoint.
Local Open Scope Z_scope.

(** What the endpoint answers to a HEAD request for a URL, redirects
    followed: a status code, or a fault of the connection. *)
Variable head_response : list N → response.

(** The URLs a page requests while it loads, or the fault of the
    navigation. *)
Variable page_requests : list N → outcome (list (list N)).

(** [session.head(url, timeout=10, allow_redirects=True)] and [r.status]. *)
Definition session_head (url : list N) : Net Z :=
  λ log,
    (match head_response url with
     | Status code => Returns code
     | Failure e => Raises e
     end, log ++ [HEAD url]).

Definition verify_stream_url (url : list N) : Net bool :=
  try_except (status ←$ session_head url; ret (status =? 200)) (ret false).

(** [page.goto(url)] followed by the wait, with the listener collecting
    the requests seen. *)
Definition page_goto (url : list N) : Net (list (list N)) :=
  λ log, (page_requests url, log ++ [GOTO url]).

(** The listener [on_req] applied to the requests in order. *)
Definition on_req (candidates : list (list N)) (req_url : list N)
    : list (list N) :=
  append_if (bool_decide (is_Some (Re.search true STREAM_PATTERN req_url))
             && negb (bool_decide (req_url ∈ candidates)))
            candidates req_url.

Fixpoint first_live (l : list (list N)) : Net (option (list N)) :=
  match l with
  | [] => ret None
  | s :: l' =>
      ok ←$ verify_stream_url s;
      if ok then ret (Some s) else first_live l'
  end.

Definition find_stream_in_page (url : list N) : Net (option (list N)) :=
  reqs ←$ page_goto url;
  first_live (reverse (foldl on_req [] reqs)).

Section Resolver.
Variable allowed_slugs : option (gset (list N)).
Variable nickname_only : bool.

Fixpoint first_verified (cands : list (list N)) : Net (option (list N)) :=
  match cands with
  | [] => ret None
  | slug :: cands' =>
      if match allowed_slugs with
         | Some a => bool_decide (slug ∉ a)
         | None => false
         end
      then first_verified cands'
      else
        ok ←$ verify_stream_url (PPV_STREAM_URL_PATTERN slug);
        if ok then ret (Some slug) else first_verified cands'
  end.

(** The candidates tried for the page-supplied key. *)
Definition dt_candidates (data_team : list N) : list (list N) :=
  let dt_slug := _slug data_team in
  if nickname_only then
    if negb (Py.startswith (py "nba_") dt_slug)
    then _expand_nba_candidates [dt_slug]
    else [dt_slug]
  else [dt_slug].

Definition resolve_team_slug (data_team : option (list N))
    (away_team_text home_team_text : list N) : Net (option (list N)) :=
  home_first ←$ first_verified (build_candidates nickname_only home_team_text);
  if truthy home_first then ret home_first
  else
    away_ok ←$ first_verified (build_candidates nickname_only away_team_text);
    if truthy away_ok then ret away_ok
    else
      match data_team with
      | Some ((_ :: _) as data_team) =>
          dt_ok ←$ first_verified (dt_candidates data_team);
          if truthy dt_ok then ret dt_ok else ret None
      | _ => ret None
      end.

End Resolver.
End Endpoint.

(** ** The scrapers *)

Definition USER_AGENT : list N :=
  py "Mozilla/5.0 (Windows NT 10.0; Win64; x64; rv:109.0) Gecko/20100101 Firefox/115.0".

(** An entry of the output; [ev_custom_headers] tells whether it carries
    [PPV_CUSTOM_HEADERS]. *)
Record stream_event := StreamEvent {
  ev_name : list N;
  ev_url : list N;
  ev_tvg_id : list N;
  ev_tvg_logo : list N;
  ev_group : list N;
  ev_ref : list N;
  ev_custom_headers : bool
}.

Record channel_info := ChannelInfo {
  ci_name : list N;
  ci_id : list N;
  ci_logo : list N
}.

Definition CHANNEL_METADATA : gmap (list N) channel_info :=
  list_to_map [
    (py "nflnetwork",
     ChannelInfo (py "NFL Network") (py "NFL.Network.HD.us2")
       (py "https://github.com/tv-logo/tv-logos/blob/main/countries/united-states/nfl-network-hz-us.png?raw=true"));
    (py "nflredzone",
     ChannelInfo (py "NFL RedZone") (py "NFL.RedZone.HD.us2")
       (py "https://github.com/tv-logo/tv-logos/blob/main/countries/united-states/nfl-red-zone-hz-us.png?raw=true"));
    (py "espnusa",
     ChannelInfo (py "ESPN") (py "ESPN.HD.us2")
       (py "https://github.com/tv-logo/tv-logos/blob/main/countries/united-states/espn-us.png?raw=true")) ].

(** A row of [#mtable] as the browser hands it over: text and [href] of
    its [td.teamvs a] link when it has one, the text of the nearest date
    title above it, and the text of its time cell. *)
Record league_row := LeagueRow {
  lr_link : option (list N * option (list N));
  lr_date_text : list N;
  lr_time_text : list N
}.

(** A [tr] of the schedule page after extraction: its classes (joined,
    lowercased), its text, the away and home texts when its cells name two
    teams, the [src] of its last team logo, the [data-team] of its watch
    button, the slug of its backup element and the texts of its time cells
    in selector order. *)
Record tr := Tr {
  tr_class : list N;
  tr_text : list N;
  tr_teams : option (list N * list N);
  tr_logo : option (list N);
  tr_team_key : option (list N);
  tr_backup_slug : option (list N);
  tr_time_cells : list (list N)
}.

(** Order of [str] values: by code point, a proper prefix first. *)
Fixpoint str_leb (a b : list N) : bool :=
  match a, b with
  | [], _ => true
  | _ :: _, [] => false
  | x :: a', y :: b' => (x <? y) || ((x =? y) && str_leb a' b')
  end.

Definition key_le {V} (a b : list N * V) : Prop := str_leb a.1 b.1 = true.

Global Instance key_le_dec {V} : RelDecision (@key_le V).
Proof. intros a b. unfold key_le. apply _. Defined.

(** [sorted(d.items())]: the keys of a dictionary are distinct, so the
    order of the pairs is the order of their keys. *)
Definition sorted_items {V} (d : gmap (list N) V) : list (list N * V) :=
  merge_sort key_le (map_to_list d).

(** [d[k] = v], when there is something to store. *)
Definition store {V} (d : gmap (list N) V) (o : option (list N * V))
    : gmap (list N) V :=
  match o with
  | Some (k, v) => <[k := v]> d
  | None => d
  end.

(** The results of a computation on each element, in order. *)
Fixpoint for_all {A B} (f : A → Net B) (l : list A) : Net (list B) :=
  match l with
  | [] => ret []
  | x :: l' => y ←$ f x; ys ←$ for_all f l'; ret (y :: ys)
  end.

Fixpoint for_each {A S} (body : S → A → Net S) (l : list A) (st : S)
    : Net S :=
  match l with
  | [] => ret st
  | x :: l' => st' ←$ body st x; for_each body l' st'
  end.

Section Scrapers.

Variable head_response : list N → response.
Variable page_requests : list N → outcome (list (list N)).
Variable tz : tzdata.
Variable on_windows : bool.

(** [urllib.parse.urljoin]. *)
Variable urljoin : list N → list N → list N.

(** The rows of [#mtable] on a league page, or the fault of loading it. *)
Variable league_rows : list N → outcome (list league_row).

(** The body of a schedule page: the fault of fetching it, or its rows
    when it has a table of class [schedule_container]. *)
Variable schedule_page : list N → outcome (option (list tr)).

(** [datetime.now(tz=LOCAL_TZ).date()] *)
Variable today_local : Cal.date.

Definition league_entry : Type := list N * list N * option datetime.

Definition site_default_tz (base_url : list N) : zone :=
  default New_York (SITE_DEFAULT_TZ !! base_url).

(** The body of the loop over the rows of [scrape_league]: what the row
    stores in [found], if anything ([found[name] = ...]), and the store
    itself. *)
Definition league_row_store (base_url : list N) (site_tz : zone)
    (row : league_row) : Net (option (list N * league_entry)) :=
  match lr_link row with
  | None => ret None
  | Some (name, href) =>
      if negb (Py.nonempty name) || negb (truthy href) then ret None
      else
        game_date ←$ lift (parse_date_title (lr_date_text row) today_local);
        t ←$ lift (parse_time_and_tz (lr_time_text row) site_tz);
        let '(hh, mm, tzinfo) := t in
        let dt_local := row_instant tz game_date hh mm tzinfo in
        let full_url := urljoin base_url (default [] href) in
        stream_url ←$ find_stream_in_page head_response page_requests full_url;
        match stream_url with
        | Some ((_ :: _) as u) =>
            ret (Some (name, (u, py "Live Games", dt_local)))
        | _ => ret None
        end
  end.

Definition league_row_step (base_url : list N) (site_tz : zone)
    (found : gmap (list N) league_entry) (row : league_row)
    : Net (gmap (list N) league_entry) :=
  o ←$ league_row_store base_url site_tz row; ret (store found o).

(** The body of the loop over [channel_urls]. *)
Definition channel_store (url : list N)
    : Net (option (list N * league_entry)) :=
  let slug := default [] (last (Py.split_on 47 (Py.strip_chars [47] url))) in
  stream_url ←$ find_stream_in_page head_response page_requests url;
  match stream_url with
  | Some ((_ :: _) as u) => ret (Some (slug, (u, py "24/7 Channels", None)))
  | _ => ret None
  end.

Definition channel_step (found : gmap (list N) league_entry) (url : list N)
    : Net (gmap (list N) league_entry) :=
  o ←$ channel_store url; ret (store found o).

(** The body of the final loop of [scrape_league]. *)
Definition league_event (base_url group_prefix default_id default_logo : list N)
    (item : list N * league_entry) : stream_event :=
  let '(key, (stream_url, category, dt_local)) := item in
  let info := CHANNEL_METADATA !! key in
  let base_name :=
    match info with
    | Some i => if Py.nonempty (ci_name i) then ci_name i else key
    | None => key
    end in
  let display := if bool_decide (64 ∈ key) then key else base_name in
  let pretty := normalize_game_name display in
  let pretty := format_game_datetime on_windows pretty dt_local in
  StreamEvent pretty stream_url
    (match info with Some i => ci_id i | None => default_id end)
    (match info with Some i => ci_logo i | None => default_logo end)
    (group_prefix ++ py " - " ++ category)
    base_url false.

Definition scrape_league (base_url : list N) (channel_urls : list (list N))
    (group_prefix default_id default_logo : list N)
    : Net (list stream_event) :=
  let site_tz := site_default_tz base_url in
  all_rows ←$ (λ log, (league_rows base_url, log ++ [GOTO base_url]));
  found ←$ for_each (league_row_step base_url site_tz) all_rows ∅;
  found ←$ for_each channel_step channel_urls found;
  ret (league_event base_url group_prefix default_id default_logo
         <$> sorted_items found).

Section Ppv.
Variable base_url group_name tvg_id default_logo : list N.
Variable allowed_slugs : option (gset (list N)).
Variable nickname_only : bool.

(** Lines 639-656: the backup slug of the page is taken when it verifies
    and belongs to the candidates of the home team; the resolver runs
    otherwise. *)
Definition resolve_row_slug (backup_slug team_key : option (list N))
    (away_team home_team : list N) : Net (option (list N)) :=
  resolved_slug ←$
    match backup_slug with
    | Some ((_ :: _) as backup_slug) =>
        ok ←$ verify_stream_url head_response
                (PPV_STREAM_URL_PATTERN backup_slug);
        if ok then
          let home_allowlist := _home_match_candidates home_team nickname_only in
          if bool_decide (backup_slug ∈ home_allowlist)
          then ret (Some backup_slug) else ret None
        else ret None
    | _ => ret None
    end;
  if negb (truthy resolved_slug)
  then resolve_team_slug head_response allowed_slugs nickname_only
         team_key away_team home_team
  else ret resolved_slug.

(** Lines 662-669: the text in which the time is looked up. *)
Definition time_text (row : tr) : list N :=
  match
    list_find (λ t, is_Some (Re.search true TIME_RE t)) (tr_time_cells row)
  with
  | Some (_, t) => t
  | None => tr_text row
  end.

(** Lines 669-682: the display name of a row. *)
Definition row_match_name (site_tz : zone) (current_date : option Cal.date)
    (row_text away_team home_team : list N) : outcome (list N) :=
  t ←? parse_time_and_tz row_text site_tz;
  let '(hh, mm, tzinfo) := t in
  inline_date ←? parse_date_title row_text today_local;
  let game_date :=
    match inline_date with Some d => Some d | None => current_date end in
  let dt_local := row_instant tz game_date hh mm tzinfo in
  Returns (format_game_datetime on_windows
             (normalize_game_name (away_team ++ py " @ " ++ home_team))
             dt_local).

Definition is_header_class (classes : list N) : bool :=
  Py.contains (py "date") classes || Py.contains (py "title") classes
  || Py.contains (py "header") classes.

(** The body of the loop over the rows of [scrape_ppv_league]; the state
    is [current_date] and [results]. *)
Definition ppv_row_step (site_tz : zone)
    (st : option Cal.date * list stream_event) (row : tr)
    : Net (option Cal.date * list stream_event) :=
  let '(current_date, results) := st in
  if is_header_class (tr_class row) then
    d ←$ lift (parse_date_title (tr_text row) today_local);
    match d with
    | Some d => ret (Some d, results)
    | None => ret st
    end
  else
    match tr_teams row with
    | None => ret st
    | Some (away_team, home_team) =>
        let logo_url :=
          if truthy (tr_logo row) then default [] (tr_logo row)
          else default_logo in
        resolved_slug ←$ resolve_row_slug (tr_backup_slug row)
                           (tr_team_key row) away_team home_team;
        match resolved_slug with
        | Some ((_ :: _) as resolved_slug) =>
            let stream_url := PPV_STREAM_URL_PATTERN resolved_slug in
            match_name ←$ lift (row_match_name site_tz current_date
                                  (time_text row) away_team home_team);
            ok ←$ verify_stream_url head_response stream_url;
            if ok then
              ret (current_date,
                   results ++ [StreamEvent match_name stream_url tvg_id
                                 logo_url (group_name ++ py " - Live Games")
                                 base_url true])
            else ret st
        | _ => ret st
        end
    end.

Definition session_get (url : list N) : Net (option (list tr)) :=
  λ log, (schedule_page url, log ++ [GET url]).

Definition scrape_ppv_league : Net (list stream_event) :=
  let site_tz := site_default_tz base_url in
  html ←$ try_except (h ←$ session_get base_url; ret (Some h)) (ret None);
  match html with
  | Some (Some rows) =>
      st ←$ for_each (ppv_row_step site_tz) rows (None, []);
      ret st.2
  | _ => ret []
  end.

End Ppv.
End Scrapers.

(** ** A tz database for the examples

    The rules of the four zones as the tz database has them since 2007:
    daylight time from the second Sunday of March, 02:00 standard time, to
    the first Sunday of November, 02:00 daylight time.  A wall-clock time
    that the spring change skips keeps the standard offset and one that the
    autumn change repeats is read as daylight time, as [fold=0] does. *)

Module UsRules.
Local Open Scope Z_scope.

Definition std_offset (z : zone) : Z :=
  match z with
  | New_York => -18000 | Chicago => -21600 | Denver => -25200
  | Los_Angeles => -28800
  end.

Definition letter (z : zone) : N :=
  match z with
  | New_York => 69%N | Chicago => 67%N | Denver => 77%N | Los_Angeles => 80%N
  end.

(** Ordinal 1 is a Monday, so the Sundays are the multiples of 7. *)
Definition sunday_from (ord : Z) : Z := ord + (7 - ord mod 7) mod 7.

Definition dst_start_day (y : Z) : Z := sunday_from (Cal.toordinal (Cal.Date y 3 8)).
Definition dst_end_day (y : Z) : Z := sunday_from (Cal.toordinal (Cal.Date y 11 1)).

(** Whether daylight time is in force at a wall-clock time. *)
Definition wall_is_dst (wall : Z) : bool :=
  let y := Cal.year (Cal.ord2ymd (wall / 86400)) in
  (dst_start_day y * 86400 + 10800 <=? wall)
  && (wall <? dst_end_day y * 86400 + 7200).

Definition utcoffset (z : zone) (wall : Z) : Z :=
  if wall_is_dst wall then std_offset z + 3600 else std_offset z.

Definition tzname (z : zone) (wall : Z) : list N :=
  if wall_is_dst wall then [letter z; 68%N; 84%N] else [letter z; 83%N; 84%N].

Definition fromutc (z : zone) (utc : Z) : Z * list N :=
  let y := Cal.year (Cal.ord2ymd ((utc + std_offset z) / 86400)) in
  if (dst_start_day y * 86400 + 7200 - std_offset z <=? utc)
     && (utc <? dst_end_day y * 86400 + 3600 - std_offset z)
  then (std_offset z + 3600, [letter z; 68%N; 84%N])
  else (std_offset z, [letter z; 83%N; 84%N]).

Definition tz : tzdata := TzData utcoffset tzname fromutc.

End UsRules.

(** ** Vocabulary of the statements *)

(** A slug passes the allow-list when there is none or when it is a
    member. *)
Definition eligible (allowed_slugs : option (gset (list N))) (slug : list N)
    : bool :=
  match allowed_slugs with
  | Some a => bool_decide (slug ∈ a)
  | None => true
  end.

(** The endpoint answers 200 for the stream of a slug. *)
Definition live (head_response : list N → response) (slug : list N) : bool :=
  bool_decide (head_response (PPV_STREAM_URL_PATTERN slug) = Status 200).

(** The HEAD request that probes a slug. *)
Definition probe (slug : list N) : request :=
  HEAD (PPV_STREAM_URL_PATTERN slug).

(** ** Endpoints of the examples *)

(** An endpoint on which exactly the given slugs are live; any other
    stream is missing. *)
Definition endpoint_with (slugs : list (list N)) (url : list N) : response :=
  if bool_decide (url ∈ PPV_STREAM_URL_PATTERN <$> slugs)
  then Status 200 else Status 404.

(** An endpoint on which the given URLs exist and any other request times
    out. *)
Definition endpoint_or_timeout (urls : list (list N)) (url : list N)
    : response :=
  if bool_decide (url ∈ urls) then Status 200 else Failure TimeoutError.

(** The characters [_slug] keeps. *)
Definition alnum (c : N) : bool := Re.range 97 122 c || Re.range 48 57 c.

(** Length of the longest prefix whose characters satisfy a test. *)
Fixpoint run_length (ok : N → bool) (s : list N) : nat :=
  match s with
  | x :: s' => if ok x then S (run_length ok s') else O
  | [] => O
  end.

(** Text of Basic Latin, on which the character tables are exact. *)
Definition is_ascii (s : list N) : Prop := Forall (λ c, c < 128) s.

(** A date that [date(y, m, d)] builds. *)
Definition valid_date (d : Cal.date) : Prop :=
  Cal.new (Cal.year d) (Cal.month d) (Cal.day d) = Returns d.

(** The cursor [k] characters further into a subject [s] that starts at
    index [i] after the character [b]. *)
Definition char_before (b : option N) (s : list N) (k : nat) : option N :=
  match k with
  | O => b
  | S j => s !! j
  end.

Definition cursor_at (b : option N) (i : nat) (s : list N) (k : nat)
    : Re.cursor :=
  Re.Cursor (char_before b s k) (i + k) (drop k s).

(** The cursor [k] characters after a cursor. *)
Definition advance (c : Re.cursor) (k : nat) : Re.cursor :=
  cursor_at (Re.before c) (Re.pos c) (Re.rest c) k.


(** *** Times and zone abbreviations in a text

    What the temporal resolver is to find, said without patterns. *)








(** *** Streams among the requests of a page *)

(** The text [.m3u8], in either case, at the very end of [s], before a
    line feed that ends it, or before a question mark. *)
Definition stream_suffix_here (s : list N) : bool :=
  match s with
  | c1 :: c2 :: c3 :: c4 :: c5 :: s' =>
      (c1 =? 46) && (Py.lower1 c2 =? 109) && (c3 =? 51)
      && (Py.lower1 c4 =? 117) && (c5 =? 56)
      && match s' with
         | [] => true
         | [x] => (x =? 10) || (x =? 63)
         | x :: _ => x =? 63
         end
  | _ => false
  end.

(** An address that looks like a stream: it holds such a text. *)
Definition looks_like_stream (u : list N) : bool :=
  existsb (λ k, stream_suffix_here (drop k u)) (seq 0 (S (length u))).

(** The distinct elements of a list, in the order of their first
    occurrence. *)
Fixpoint first_seen (l : list (list N)) : list (list N) :=
  match l with
  | [] => []
  | x :: l' => x :: filter (λ y, y ≠ x) (first_seen l')
  end.

(** What [parse_date_title] reads in a text before it settles the year,
    lines 104 to 116: the number of the month, the day and the text of the
    year when one is written. *)
Definition date_fields (text : list N) : option (Z * Z * option (list N)) :=
  let text := Py.join (py " ") (Py.split text) in
  match Re.search true DATE_RE text with
  | None => None
  | Some m =>
      match int (group_text m 2) with
      | Returns day =>
          Some (_month_str_to_num (group_text m 1), day, Re.group m 3)
      | Raises _ => None
      end
  end.

(** The numbers of the groups of a pattern. *)
Fixpoint group_ids (r : Re.regex) : list nat :=
  match r with
  | Re.Seq r1 r2 | Re.Alt r1 r2 => group_ids r1 ++ group_ids r2
  | Re.Opt r1 => group_ids r1
  | Re.Group n r1 => n :: group_ids r1
  | _ => []
  end.


(** The text after the bullet of a display name:
    [<abbreviated month> <day> at <hour>:<minute> <AM|PM> <abbreviation>]. *)
Definition rendered_instant (dt : datetime) : list N :=
  MONTH_ABBR (Cal.month (dt_date dt)) ++ py " "
    ++ Py.decimal (Cal.day (dt_date dt)) ++ py " at "
    ++ Py.decimal (hour12 (dt_hour dt)) ++ py ":"
    ++ two_digits (dt_minute dt) ++ py " " ++ am_pm (dt_hour dt)
    ++ py " " ++ dt_tzname dt.

(** ** Inputs of the examples *)


(** Strict order of the keys of an output. *)
Definition key_lt {V} (a b : list N * V) : Prop :=
  str_leb a.1 b.1 = true ∧ a.1 ≠ b.1.

(** ** Pages of the examples *)

Definition example_urljoin (base url : list N) : list N := base ++ url.

(** Two rows of a league page with the same link text. *)
Definition example_league_rows (base_url : list N) : outcome (list league_row) :=
  Returns [ LeagueRow (Some (py "jets @ bills", Some (py "game1"))) [] [];
            LeagueRow (Some (py "jets @ bills", Some (py "game2"))) [] [] ].

(** Each page requests one playlist, named after the page. *)
Definition example_page_requests (url : list N) : outcome (list (list N)) :=
  Returns [url ++ py "/index.m3u8"].

(** A row of a schedule page, New York Jets at Buffalo Bills, and the
    event it yields for the NFL when the stream of the home team is live. *)
Definition example_ppv_row : tr :=
  Tr (py "game") (py "New York Jets Buffalo Bills")
     (Some (py "New York Jets", py "Buffalo Bills")) None None None [].

Definition example_ppv_event : stream_event :=
  StreamEvent (py "New York Jets @ Buffalo Bills")
    (py "https://gg.poocloud.in/buffalobills/tracks-v1a1/mono.ts.m3u8")
    (py "NFL.Football.Dummy.us") (py "logo")
    (py "NFLWebcast - Live Games") NFL_BASE_URL true.

(** Two rows of a schedule page for the same game. *)
Definition example_schedule_page (base_url : list N)
    : outcome (option (list tr)) :=
  Returns (Some [example_ppv_row; example_ppv_row]).

Definition always_200 (url : list N) : response := Status 200.

Definition example_league_run : outcome (list stream_event) * list request :=
  scrape_league always_200 example_page_requests UsRules.tz false
    example_urljoin example_league_rows (Cal.Date 2025 1 2)
    NFL_BASE_URL [] (py "NFLWebcast") (py "NFL.Dummy.us") (py "logo") [].

Definition example_league_results : list stream_event :=
  [ StreamEvent (py "Jets @ Bills")
      (py "https://nflwebcast.top/game2/index.m3u8")
      (py "NFL.Dummy.us") (py "logo")
      (py "NFLWebcast - Live Games") NFL_BASE_URL false ].

(** What [str.title] makes of a character of Basic Latin. *)
Definition title_char (previous_is_cased : bool) (c : N) : N :=
  if previous_is_cased then Py.lower1 c else Py.upper1 c.

(** Equality of characters up to case. *)
Definition ci_eq (a b : N) : Prop := Py.lower1 a = Py.lower1 b.

(** A word: a non-empty text without whitespace. *)
Definition is_token (w : list N) : Prop :=
  w ≠ [] ∧ Forall (λ c, Py.isspace c = false) w.

(** A text that neither begins nor ends with whitespace. *)
Definition stripped (s : list N) : Prop :=
  (∀ c, head s = Some c → Py.isspace c = false)
  ∧ (∀ c, last s = Some c → Py.isspace c = false).

(** Patterns that do not use the assertion [$]. *)
Fixpoint no_eos (r : Re.regex) : bool :=
  match r with
  | Re.Seq r1 r2 | Re.Alt r1 r2 => no_eos r1 && no_eos r2
  | Re.Opt r1 | Re.Group _ r1 => no_eos r1
  | Re.Eos => false
  | _ => true
  end.

(** Cursors at the same place of two subjects that are equal up to case. *)
Definition cursor_ci (c d : Re.cursor) : Prop :=
  Re.pos c = Re.pos d
  ∧ option_Forall2 ci_eq (Re.before c) (Re.before d)
  ∧ Forall2 ci_eq (Re.rest c) (Re.rest d).

(** The cursor at the same place of the subject with [e] appended. *)
Definition extend (c : Re.cursor) (e : list N) : Re.cursor :=
  Re.Cursor (Re.before c) (Re.pos c) (Re.rest c ++ e).

(** The last character of the subject of a cursor. *)
Definition char_before_end (c : Re.cursor) : option N :=
  char_before (Re.before c) (Re.rest c) (length (Re.rest c)).

(** The part of [TRAILING_DATE_RE] that decides where it matches: a month
    name between two word boundaries. *)
Definition MONTH_WORD : Re.regex := Re.Seqs [Re.WordB; MONTH_RE; Re.WordB].

(** An event of a schedule page whose stream was verified: its address is
    the stream of a non-empty slug, the endpoint answers 200 for it, the
    HEAD request for it is in the log, and its fixed fields are those of
    the league. *)
Definition verified_event (head_response : list N → response)
    (base_url group_name tvg_id : list N) (log : list request)
    (ev : stream_event) : Prop :=
  ∃ slug, slug ≠ []
    ∧ ev_url ev = PPV_STREAM_URL_PATTERN slug
    ∧ head_response (ev_url ev) = Status 200
    ∧ HEAD (ev_url ev) ∈ log
    ∧ ev_group ev = group_name ++ py " - Live Games"
    ∧ ev_ref ev = base_url
    ∧ ev_tvg_id ev = tvg_id
    ∧ ev_custom_headers ev = true.

(** * Properties *)

(** ** The [Net] monad *)

Lemma bind_returns {A B} (m : Net A) (k : A → Net B) log a log' :
  m log = (Returns a, log') → bind m k log = k a log'.
Proof. intros H. unfold bind. by rewrite H. Qed.

Lemma bind_raises {A B} (m : Net A) (k : A → Net B) log e log' :
  m log = (Raises e, log') → bind m k log = (Raises e, log').
Proof. intros H. unfold bind. by rewrite H. Qed.

(** ** The endpoint verifier *)

Section VerifierFacts.
Variable head_response : list N → response.

Lemma verify_stream_url_run url log :
  verify_stream_url head_response url log
  = (Returns (bool_decide (head_response url = Status 200)), log ++ [HEAD url]).
Proof.
  unfold verify_stream_url, try_except, bind, session_head, ret.
  destruct (head_response url) as [code|e]; simpl; [|done].
  do 2 f_equal. case_bool_decide as H.
  - injection H as ->. done.
  - apply Z.eqb_neq. intros ->. done.
Qed.

(** C9.  The endpoint verifier always returns, for whatever the probe
    yields: it returns true exactly when the answer is the status 200, and
    false for every other status and for every fault (time-out, connection
    failure, cancellation); no exception reaches the caller. *)
Theorem verify_stream_url_true_iff_200 (url : list N) (log : list request) :
  ∃ b : bool,
    verify_stream_url head_response url log = (Returns b, log ++ [HEAD url])
    ∧ (b = true ↔ head_response url = Status 200)
    ∧ (∀ e, head_response url = Failure e → b = false)
    ∧ (∀ code, head_response url = Status code → code ≠ 200%Z → b = false).
Proof.
  exists (bool_decide (head_response url = Status 200)).
  split; [apply verify_stream_url_run|].
  split; [apply bool_decide_eq_true|].
  split.
  - intros e He. apply bool_decide_eq_false. rewrite He. discriminate.
  - intros code Hc Hne. apply bool_decide_eq_false. rewrite Hc. congruence.
Qed.

End VerifierFacts.

(** The tables are data: proofs look entries up by evaluation and never
    unfold them during simplification. *)
Global Opaque NFL_TEAM_SLUGS NFL_NICK_SLUGS NHL_TEAM_SLUGS NHL_NICK_SLUGS
  NBA_NICK_TO_CODE TWO_WORD_NICKNAMES TZ_ABBR_MAP CHANNEL_METADATA
  SITE_DEFAULT_TZ MONTH_NUMBERS FULL_TEAM_SLUGS_NFL FULL_TEAM_SLUGS_NHL.

(** ** Candidates are never empty strings *)

Lemma append_if_Forall {A} (P : A → Prop) (b : bool) out x :
  Forall P out → (b = true → P x) → Forall P (append_if b out x).
Proof.
  intros Ho Hx. unfold append_if. destruct b; [|done].
  apply Forall_app. split; [done|]. constructor; [by apply Hx|done].
Qed.

Lemma full_name_loop_nonempty (ms : list (option (list N))) out :
  Forall (λ s, s ≠ []) out →
  Forall (λ s, s ≠ [])
    (foldl (λ out m,
              match m with
              | Some ((_ :: _) as m) => out ++ [m]
              | _ => out
              end) out ms).
Proof.
  revert out. induction ms as [|m ms IH]; intros out Hout; [done|].
  cbn [foldl]. apply IH. destruct m as [[|c m]|]; [done| |done].
  apply Forall_app. split; [done|]. by constructor.
Qed.

Lemma nickname_loop_nonempty (ms : list (option (list N))) out :
  Forall (λ s, s ≠ []) out →
  Forall (λ s, s ≠ [])
    (foldl (λ out m,
              match m with
              | Some ((_ :: _) as m) =>
                  append_if (negb (bool_decide (m ∈ out))) out m
              | _ => out
              end) out ms).
Proof.
  revert out. induction ms as [|m ms IH]; intros out Hout; [done|].
  cbn [foldl]. apply IH. destruct m as [[|c m]|]; [done| |done].
  by apply append_if_Forall.
Qed.

Lemma table_candidates_nonempty base :
  Forall (λ s, s ≠ []) (table_candidates base).
Proof.
  unfold table_candidates.
  apply nickname_loop_nonempty, full_name_loop_nonempty. constructor.
Qed.

Lemma general_candidates_nonempty txt :
  Forall (λ s, s ≠ []) (general_candidates txt).
Proof.
  unfold general_candidates.
  apply append_if_Forall; [apply table_candidates_nonempty|].
  intros H. apply andb_true_iff in H as [H _]. by destruct (_slug _).
Qed.

Lemma dedup_loop_nonempty (cands : list (list N)) st :
  Forall (λ s, s ≠ []) st.1 →
  Forall (λ s, s ≠ [])
    (foldl (λ (st : list (list N) * gset (list N)) c,
              if Py.nonempty c && negb (bool_decide (c ∈ st.2))
              then (st.1 ++ [c], {[c]} ∪ st.2) else st) st cands).1.
Proof.
  revert st. induction cands as [|c cands IH]; intros st Hst; [done|].
  simpl. apply IH.
  destruct c as [|x c]; simpl; [done|].
  case_bool_decide; simpl; [done|].
  apply Forall_app. split; [done|]. by constructor.
Qed.

Lemma _nickname_only_candidates_nonempty txt :
  Forall (λ s, s ≠ []) (_nickname_only_candidates txt).
Proof.
  unfold _nickname_only_candidates.
  destruct (negb _); [done|]. by apply dedup_loop_nonempty.
Qed.

Lemma expand_loop_nonempty (nick_cands : list (list N)) st :
  Forall (λ s, s ≠ []) nick_cands →
  Forall (λ s, s ≠ []) st.1 →
  Forall (λ s, s ≠ [])
    (foldl (λ (st : list (list N) * gset (list N)) n,
              let st :=
                match NBA_NICK_TO_CODE !! n with
                | Some ((_ :: _) as code) =>
                    let new_slug := py "nba_" ++ code in
                    if negb (bool_decide (new_slug ∈ st.2))
                    then (st.1 ++ [new_slug], {[new_slug]} ∪ st.2) else st
                | _ => st
                end in
              if negb (bool_decide (n ∈ st.2))
              then (st.1 ++ [n], {[n]} ∪ st.2) else st) st nick_cands).1.
Proof.
  intros Hn. revert st.
  induction Hn as [|n l Hne _ IH]; intros st Hst; [done|].
  cbn [foldl]. apply IH.
  set (st1 := match NBA_NICK_TO_CODE !! n with
              | Some (_ :: _ as code) => _ | _ => st end).
  assert (H1 : Forall (λ s, s ≠ []) st1.1).
  { subst st1. destruct (NBA_NICK_TO_CODE !! n) as [[|c code]|]; [done| |done].
    cbv zeta. case_bool_decide; simpl; [done|].
    apply Forall_app. split; [done|]. by constructor. }
  clearbody st1. case_bool_decide; simpl; [done|].
  apply Forall_app. split; [done|]. by constructor.
Qed.

Lemma _expand_nba_candidates_nonempty nick_cands :
  Forall (λ s, s ≠ []) nick_cands →
  Forall (λ s, s ≠ []) (_expand_nba_candidates nick_cands).
Proof. intros H. by apply expand_loop_nonempty. Qed.

Lemma build_candidates_nonempty nickname_only txt :
  Forall (λ s, s ≠ []) (build_candidates nickname_only txt).
Proof.
  destruct nickname_only; simpl.
  - apply _expand_nba_candidates_nonempty, _nickname_only_candidates_nonempty.
  - apply general_candidates_nonempty.
Qed.

(** ** The slug resolver *)

Section ResolverFacts.
Variable head_response : list N → response.
Variable allowed_slugs : option (gset (list N)).
Variable nickname_only : bool.

Abbreviation dead := (λ c, live head_response c = false).
Abbreviation passes := (λ c, eligible allowed_slugs c = true).

Lemma first_verified_skip slug cands log :
  eligible allowed_slugs slug = false →
  first_verified head_response allowed_slugs (slug :: cands) log
  = first_verified head_response allowed_slugs cands log.
Proof.
  intros H. simpl. unfold eligible in H.
  destruct allowed_slugs as [a|]; [|done].
  apply bool_decide_eq_false in H. by rewrite bool_decide_true.
Qed.

Lemma first_verified_try slug cands log :
  eligible allowed_slugs slug = true →
  first_verified head_response allowed_slugs (slug :: cands) log
  = if live head_response slug then (Returns (Some slug), log ++ [probe slug])
    else first_verified head_response allowed_slugs cands (log ++ [probe slug]).
Proof.
  intros H. simpl. unfold eligible in H.
  assert (match allowed_slugs with
          | Some a => bool_decide (slug ∉ a) | None => false end = false) as ->.
  { destruct allowed_slugs as [a|]; [|done].
    apply bool_decide_eq_true in H. apply bool_decide_eq_false. tauto. }
  unfold bind. rewrite verify_stream_url_run. unfold live, probe.
  by destruct (bool_decide _).
Qed.

(** The stage returns the first candidate that passes the allow-list and
    is live, having probed the passing candidates before it. *)
Lemma first_verified_hit cands pre s post log :
  filter passes cands = pre ++ s :: post →
  Forall dead pre → live head_response s = true →
  first_verified head_response allowed_slugs cands log
  = (Returns (Some s), log ++ (probe <$> pre ++ [s])).
Proof.
  revert pre log. induction cands as [|c cands IH]; intros pre log Hf Hpre Hs.
  { by destruct pre. }
  rewrite filter_cons in Hf. destruct (decide (passes c)) as [Hc|Hc].
  - rewrite first_verified_try by done.
    destruct pre as [|p pre]; simplify_eq/=.
    + by rewrite Hs.
    + apply Forall_cons in Hpre as [Hp Hpre]. rewrite Hp.
      rewrite (IH pre) by done. by rewrite <-app_assoc.
  - rewrite first_verified_skip by (by apply not_true_is_false). by apply IH.
Qed.

Lemma first_verified_miss cands log :
  Forall dead (filter passes cands) →
  first_verified head_response allowed_slugs cands log
  = (Returns None, log ++ (probe <$> filter passes cands)).
Proof.
  revert log. induction cands as [|c cands IH]; intros log Hd.
  { simpl. unfold ret. by rewrite app_nil_r. }
  rewrite filter_cons in Hd |- *. destruct (decide (passes c)) as [Hc|Hc].
  - apply Forall_cons in Hd as [Hp Hd].
    rewrite first_verified_try by done. rewrite Hp, IH by done.
    by rewrite <-app_assoc.
  - rewrite first_verified_skip by (by apply not_true_is_false). by apply IH.
Qed.

(** Whatever a stage returns passed the allow-list and was found live. *)
Lemma first_verified_sound cands log s log' :
  first_verified head_response allowed_slugs cands log = (Returns (Some s), log') →
  s ∈ cands ∧ eligible allowed_slugs s = true ∧ live head_response s = true.
Proof.
  revert log. induction cands as [|c cands IH]; intros log H; [done|].
  destruct (eligible allowed_slugs c) eqn:Hc.
  - rewrite first_verified_try in H by done.
    destruct (live head_response c) eqn:Hl.
    + simplify_eq. split; [left|done].
    + apply IH in H as (? & ? & ?). split; [by right|done].
  - rewrite first_verified_skip in H by done.
    apply IH in H as (? & ? & ?). split; [by right|done].
Qed.

Lemma first_verified_returns cands log :
  ∃ r log', first_verified head_response allowed_slugs cands log = (Returns r, log').
Proof.
  revert log. induction cands as [|c cands IH]; intros log; [by eexists _, _|].
  destruct (eligible allowed_slugs c) eqn:Hc.
  - rewrite first_verified_try by done. destruct (live _ _); [by eexists _, _|apply IH].
  - rewrite first_verified_skip by done. apply IH.
Qed.

End ResolverFacts.

Section ResolverClaims.
Variable head_response : list N → response.
Variable allowed_slugs : option (gset (list N)).
Variable nickname_only : bool.

Abbreviation dead := (λ c, live head_response c = false).
Abbreviation passes := (λ c, eligible allowed_slugs c = true).

Lemma passing_candidate_truthy txt s :
  s ∈ filter passes (build_candidates nickname_only txt) → truthy (Some s) = true.
Proof.
  intros Hs. apply list_elem_of_filter in Hs as [_ Hs].
  pose proof (build_candidates_nonempty nickname_only txt) as Hne.
  rewrite Forall_forall in Hne. specialize (Hne _ Hs). by destruct s.
Qed.

End ResolverClaims.

Section AllowList.
Variable head_response : list N → response.
Variable nickname_only : bool.

(** C10.  When the resolver is given an allow-list, a slug it returns is a
    member of the list, whether it came from the candidates of the home
    team, of the away team or of the page-supplied key. *)
Theorem resolve_team_slug_in_allow_list
    (allowed : gset (list N)) (data_team : option (list N))
    (away home : list N) (log log' : list request) (s : list N) :
  resolve_team_slug head_response (Some allowed) nickname_only
    data_team away home log = (Returns (Some s), log') →
  s ∈ allowed.
Proof.
  unfold resolve_team_slug. intros Hrun.
  assert (Hsound : ∀ cands l r l',
    first_verified head_response (Some allowed) cands l = (Returns r, l') →
    truthy r = true → r = Some s → s ∈ allowed).
  { intros cands l r l' Hf _ ->.
    apply first_verified_sound in Hf as (_ & He & _).
    by apply bool_decide_eq_true in He. }
  destruct (first_verified_returns head_response (Some allowed)
              (build_candidates nickname_only home) log) as (r1 & l1 & H1).
  rewrite (bind_returns _ _ _ _ _ H1) in Hrun.
  destruct (truthy r1) eqn:T1.
  { unfold ret in Hrun. simplify_eq. eauto. }
  destruct (first_verified_returns head_response (Some allowed)
              (build_candidates nickname_only away) l1) as (r2 & l2 & H2).
  rewrite (bind_returns _ _ _ _ _ H2) in Hrun.
  destruct (truthy r2) eqn:T2.
  { unfold ret in Hrun. simplify_eq. eauto. }
  destruct data_team as [[|d0 d]|]; try by (unfold ret in Hrun; simplify_eq).
  destruct (first_verified_returns head_response (Some allowed)
              (dt_candidates nickname_only (d0 :: d)) l2) as (r3 & l3 & H3).
  rewrite (bind_returns _ _ _ _ _ H3) in Hrun.
  destruct (truthy r3) eqn:T3; unfold ret in Hrun; simplify_eq. eauto.
Qed.

End AllowList.

Section BackupSlug.
Variable head_response : list N → response.
Variable allowed_slugs : option (gset (list N)).
Variable nickname_only : bool.

Lemma _home_match_candidates_elem home s :
  s ∈ _home_match_candidates home nickname_only
  ↔ s ∈ build_candidates nickname_only home.
Proof.
  unfold _home_match_candidates, build_candidates.
  destruct nickname_only; apply elem_of_list_to_set.
Qed.

(** C4.  The backup slug declared by the page becomes the resolved slug
    when it verifies and is a member of the candidate set of the home
    team, without any further probe; when it does not verify or is not a
    member, and when the page declares none, the result is that of the
    home, away and page-key resolution.  The candidate set of the home
    team holds the candidates the resolver builds for the home text. *)
Theorem backup_slug_accepted_iff_verified_home_candidate
    (backup_slug team_key : option (list N)) (away home : list N)
    (log : list request) :
  let run := resolve_row_slug head_response allowed_slugs nickname_only
               backup_slug team_key away home log in
  (∀ b, backup_slug = Some b → b ≠ [] →
        live head_response b = true →
        b ∈ _home_match_candidates home nickname_only →
        run = (Returns (Some b), log ++ [probe b]))
  ∧ (∀ b, backup_slug = Some b → b ≠ [] →
        live head_response b = false
        ∨ b ∉ _home_match_candidates home nickname_only →
        run = resolve_team_slug head_response allowed_slugs nickname_only
                team_key away home (log ++ [probe b]))
  ∧ (backup_slug = None ∨ backup_slug = Some [] →
        run = resolve_team_slug head_response allowed_slugs nickname_only
                team_key away home log)
  ∧ (∀ b, b ∈ _home_match_candidates home nickname_only
          ↔ b ∈ build_candidates nickname_only home).
Proof.
  intros run. subst run. unfold resolve_row_slug.
  split; [|split; [|split]].
  - intros b -> Hne Hl Hm. destruct b as [|c b]; [done|].
    unfold bind at 1. unfold bind at 1. rewrite verify_stream_url_run.
    unfold live in Hl. unfold probe. rewrite Hl.
    by rewrite bool_decide_true.
  - intros b -> Hne Hor. destruct b as [|c b]; [done|].
    unfold bind at 1. unfold bind at 1. rewrite verify_stream_url_run.
    unfold live in Hor. unfold probe.
    destruct Hor as [Hl|Hm].
    + by rewrite Hl.
    + destruct (bool_decide (head_response _ = _)); [|done].
      by rewrite bool_decide_false.
  - intros [->| ->]; done.
  - apply _home_match_candidates_elem.
Qed.

End BackupSlug.

(** ** Instances of the resolver properties *)

Lemma resolve_team_slug_in_allow_list_example :
  resolve_team_slug (endpoint_with [py "philadelphiaeagles"])
    (Some FULL_TEAM_SLUGS_NFL) false
    None (py "Dallas Cowboys") (py "Philadelphia Eagles") []
  = (Returns (Some (py "philadelphiaeagles")),
     [probe (py "philadelphiaeagles")])
  ∧ py "philadelphiaeagles" ∈ FULL_TEAM_SLUGS_NFL.
Proof.
  assert (resolve_team_slug (endpoint_with [py "philadelphiaeagles"])
            (Some FULL_TEAM_SLUGS_NFL) false
            None (py "Dallas Cowboys") (py "Philadelphia Eagles") []
          = (Returns (Some (py "philadelphiaeagles")),
             [probe (py "philadelphiaeagles")])) as Hrun.
  { vm_compute. reflexivity. }
  split; [exact Hrun|].
  exact (resolve_team_slug_in_allow_list
           (endpoint_with [py "philadelphiaeagles"]) false FULL_TEAM_SLUGS_NFL
           None (py "Dallas Cowboys") (py "Philadelphia Eagles") []
           [probe (py "philadelphiaeagles")] (py "philadelphiaeagles") Hrun).
Defined.

Lemma backup_slug_accepted_example :
  resolve_row_slug (endpoint_with [py "philadelphiaeagles"])
    (Some FULL_TEAM_SLUGS_NFL) false
    (Some (py "philadelphiaeagles")) None
    (py "Dallas Cowboys") (py "Philadelphia Eagles") []
  = (Returns (Some (py "philadelphiaeagles")),
     [] ++ [probe (py "philadelphiaeagles")]).
Proof.
  pose proof (backup_slug_accepted_iff_verified_home_candidate
                (endpoint_with [py "philadelphiaeagles"])
                (Some FULL_TEAM_SLUGS_NFL) false
                (Some (py "philadelphiaeagles")) None
                (py "Dallas Cowboys") (py "Philadelphia Eagles") [])
    as (Haccept & _).
  apply (Haccept (py "philadelphiaeagles")).
  - reflexivity.
  - discriminate.
  - vm_compute. reflexivity.
  - apply _home_match_candidates_elem. vm_compute. left.
Defined.

(** ** Facts about the matcher *)

(** Boolean tests on code points, decided by linear arithmetic. *)
Ltac bool_lia :=
  repeat match goal with
         | H : _ && _ = true |- _ => apply andb_true_iff in H as [? ?]
         | H : _ || _ = true |- _ => apply orb_true_iff in H as [?|?]
         | H : _ && _ = false |- _ => apply andb_false_iff in H as [?|?]
         | H : _ || _ = false |- _ => apply orb_false_iff in H as [? ?]
         | H : negb _ = true |- _ => apply negb_true_iff in H
         | H : negb _ = false |- _ => apply negb_false_iff in H
         | H : (_ <=? _) = true |- _ => apply N.leb_le in H
         | H : (_ <=? _) = false |- _ => apply N.leb_gt in H
         | H : (_ <? _) = true |- _ => apply N.ltb_lt in H
         | H : (_ <? _) = false |- _ => apply N.ltb_ge in H
         | H : (_ =? _) = true |- _ => apply N.eqb_eq in H
         | H : (_ =? _) = false |- _ => apply N.eqb_neq in H
         end;
  try lia.

Lemma cls_false p c : Re.cls false p c = p c.
Proof. unfold Re.cls. simpl. by rewrite orb_false_r. Qed.

Lemma run_length_take ok s : Forall (λ c, ok c = true) (take (run_length ok s) s).
Proof.
  induction s as [|x s IH]; simpl; [constructor|].
  destruct (ok x) eqn:Hx; simpl; by constructor.
Qed.

(** The first way a greedy repetition matches takes the whole run. *)
Lemma rep_star_head ok b i s :
  ∃ c tl, Re.rep ok 0 None b i s = c :: tl
          ∧ Re.pos c = (i + run_length ok s)%nat
          ∧ Re.rest c = drop (run_length ok s) s.
Proof.
  revert b i. induction s as [|x s IH]; intros b i; simpl.
  { eexists _, _. split; [done|]. simpl. split; [lia|done]. }
  destruct (ok x) eqn:Hx; simpl.
  - destruct (IH (Some x) (S i)) as (c & tl & -> & Hp & Hr).
    eexists _, _. split; [done|]. split; [lia|done].
  - eexists _, _. split; [done|]. simpl. split; [lia|done].
Qed.

Lemma rep_plus_head ok b i x s :
  ok x = true →
  ∃ c tl, Re.rep ok 1 None b i (x :: s) = c :: tl
          ∧ Re.pos c = (S i + run_length ok s)%nat
          ∧ Re.rest c = drop (run_length ok s) s.
Proof.
  intros Hx. simpl. rewrite Hx. simpl.
  destruct (rep_star_head ok (Some x) (S i) s) as (c & tl & -> & Hp & Hr).
  eexists _, _. split; [by rewrite app_nil_r|]. done.
Qed.

Lemma rep_plus_none ok b i s :
  head s = None ∨ (∃ x, head s = Some x ∧ ok x = false) →
  Re.rep ok 1 None b i s = [].
Proof.
  intros [H|(x & H & Hx)]; destruct s as [|y s]; simplify_eq/=; [done|].
  by rewrite Hx.
Qed.

(** Deleting the matches of a one-character class keeps the other
    characters. *)
Lemma sub_cls_delete ic p s b i :
  Re.sub_from ic (Re.Cls p) [] b i 0 s
  = filter (λ c, Re.cls ic p c = false) s.
Proof.
  revert b i. induction s as [|x s IH]; intros b i; [done|].
  cbn [Re.sub_from Re.run Re.rest Re.pos].
  destruct (Re.cls ic p x) eqn:Hx; cbn [Re.pos].
  - replace (S i - i)%nat with 1%nat by lia. rewrite IH.
    rewrite filter_cons, decide_False; [done|]. by rewrite Hx.
  - rewrite IH. rewrite filter_cons, decide_True; done.
Qed.

(** Replacing the runs of a class by a text changes neither the characters
    outside the class nor their order, as seen through a filter that drops
    the class and the replacement. *)
Lemma sub_plus_filter ic p repl (keep : N → bool) s b i skip :
  (∀ c, Re.cls ic p c = true → keep c = false) →
  Forall (λ c, keep c = false) repl →
  Forall (λ c, Re.cls ic p c = true) (take skip s) →
  filter (λ c, keep c = true) (Re.sub_from ic (Re.Plus p) repl b i skip s)
  = filter (λ c, keep c = true) s.
Proof.
  intros Hp Hrepl.
  assert (Hnil : filter (λ c, keep c = true) repl = []).
  { clear -Hrepl. induction Hrepl as [|c l Hc _ IH]; [done|].
    rewrite filter_cons, IH. rewrite decide_False; [done|]. by rewrite Hc. }
  revert b i skip. induction s as [|x s IH]; intros b i skip Hskip.
  { destruct skip; simpl; [|done]. done. }
  destruct skip as [|k].
  - cbn [Re.sub_from Re.run Re.Plus Re.rest Re.pos Re.before].
    destruct (Re.cls ic p x) eqn:Hx.
    + destruct (rep_plus_head (Re.cls ic p) b i x s Hx)
        as (c & tl & -> & Hpos & Hrest).
      cbn [fmap list_fmap]. rewrite Hpos.
      replace (S i + run_length (Re.cls ic p) s - i)%nat
        with (S (run_length (Re.cls ic p) s)) by lia.
      rewrite filter_app, Hnil, app_nil_l.
      rewrite IH by apply run_length_take.
      rewrite filter_cons, decide_False; [done|]. by rewrite (Hp _ Hx).
    + rewrite rep_plus_none by (right; eexists; by split).
      cbn [fmap list_fmap]. rewrite !filter_cons, IH; [done|].
      rewrite take_0. constructor.
  - cbn [Re.sub_from]. simpl in Hskip. apply Forall_cons in Hskip as [Hx Hk].
    rewrite IH by done.
    rewrite filter_cons, decide_False; [done|]. by rewrite (Hp _ Hx).
Qed.

(** ** The slug of a text *)

Lemma lower_fmap s : Py.lower s = Py.lower1 <$> s.
Proof. unfold Py.lower. induction s as [|c s IH]; [done|]. simpl. by f_equal. Qed.

Lemma lower1_idemp c : Py.lower1 (Py.lower1 c) = Py.lower1 c.
Proof.
  unfold Py.lower1, Py.is_upper_az.
  destruct ((65 <=? c) && (c <=? 90)) eqn:H; [|by rewrite H].
  destruct ((65 <=? c + 32) && (c + 32 <=? 90)) eqn:H'; [|done]. bool_lia.
Qed.

Lemma isspace_not_alnum c : Py.isspace c = true → alnum (Py.lower1 c) = false.
Proof.
  unfold Py.isspace, alnum, Re.range, Py.lower1, Py.is_upper_az. intros H.
  destruct ((65 <=? c) && (c <=? 90)) eqn:Hu;
    apply orb_false_iff; split; apply andb_false_iff;
    rewrite !N.leb_gt; bool_lia.
Qed.

(** [_slug] lowercases and keeps the letters and digits. *)
Lemma _slug_filter s :
  _slug s = filter (λ c, alnum c = true) (Py.lower1 <$> s).
Proof.
  unfold _slug, Re.sub. rewrite sub_cls_delete, lower_fmap.
  apply list_filter_iff. intros c. rewrite cls_false. unfold alnum.
  by rewrite negb_false_iff.
Qed.

Lemma filter_lower_comm (s : list N) :
  filter (λ c, alnum c = true) (Py.lower1 <$> s)
  = Py.lower1 <$> filter (λ c, alnum (Py.lower1 c) = true) s.
Proof.
  induction s as [|c s IH]; [done|].
  rewrite fmap_cons, !filter_cons, IH.
  by destruct (decide _).
Qed.

Lemma lstrip_if_filter (sp keep : N → bool) s :
  (∀ c, sp c = true → keep c = false) →
  filter (λ c, keep c = true) (Py.lstrip_if sp s) = filter (λ c, keep c = true) s.
Proof.
  intros H. induction s as [|c s IH]; [done|]. simpl.
  destruct (sp c) eqn:Hc; [|done].
  rewrite IH, filter_cons, decide_False; [done|]. by rewrite (H _ Hc).
Qed.

Lemma rstrip_if_filter (sp keep : N → bool) s :
  (∀ c, sp c = true → keep c = false) →
  filter (λ c, keep c = true) (Py.rstrip_if sp s) = filter (λ c, keep c = true) s.
Proof.
  intros H. induction s as [|c s IH]; [done|]. simpl.
  rewrite filter_cons, <-IH.
  destruct (Py.rstrip_if sp s) as [|y t] eqn:Ht.
  - destruct (sp c) eqn:Hc.
    + rewrite decide_False; [done|]. by rewrite (H _ Hc).
    + by rewrite filter_cons.
  - by rewrite filter_cons.
Qed.

Lemma strip_filter (keep : N → bool) s :
  (∀ c, Py.isspace c = true → keep c = false) →
  filter (λ c, keep c = true) (Py.strip s) = filter (λ c, keep c = true) s.
Proof.
  intros H. unfold Py.strip, Py.strip_if.
  by rewrite rstrip_if_filter, lstrip_if_filter.
Qed.

Lemma collapse_spaces_filter (keep : N → bool) s :
  (∀ c, Py.isspace c = true → keep c = false) →
  filter (λ c, keep c = true) (collapse_spaces s) = filter (λ c, keep c = true) s.
Proof.
  intros H. unfold collapse_spaces, Re.sub. apply sub_plus_filter.
  - intros c. rewrite cls_false. apply H.
  - constructor; [|constructor]. by apply H.
  - rewrite take_0. constructor.
Qed.

(** The slug of the normalised text is the slug of the text itself. *)
Lemma _slug_base_norm txt : _slug (base_norm txt) = _slug txt.
Proof.
  rewrite !_slug_filter, !filter_lower_comm.
  unfold base_norm. rewrite collapse_spaces_filter by apply isspace_not_alnum.
  rewrite (lower_fmap (Py.strip txt)).
  transitivity (Py.lower1 <$> filter (λ c, alnum (Py.lower1 c) = true) (Py.strip txt)).
  - clear. induction (Py.strip txt) as [|c s IH]; [done|].
    rewrite !fmap_cons, !filter_cons, lower1_idemp.
    destruct (decide _); [|done].
    rewrite !fmap_cons, lower1_idemp. by f_equal.
  - by rewrite strip_filter by apply isspace_not_alnum.
Qed.

(** ** The fallback of the full-name candidates *)

(** C2 (as amended).  In full-name mode the slug of the whole input is a
    candidate whenever it is not empty.  It is appended after the table
    hits, and so is the last candidate, when it is not already one of them;
    when it is empty or already among the table hits the candidates are
    the table hits alone, the slug keeping the place it has there. *)
Theorem general_candidates_fallback (txt : list N) :
  let joined := _slug txt in
  let hits := table_candidates (base_norm txt) in
  (joined ≠ [] → joined ∈ general_candidates txt)
  ∧ (joined ≠ [] → joined ∉ hits →
       general_candidates txt = hits ++ [joined]
       ∧ last (general_candidates txt) = Some joined)
  ∧ (joined = [] ∨ joined ∈ hits → general_candidates txt = hits).
Proof.
  intros joined hits. subst joined hits.
  unfold general_candidates, append_if. rewrite _slug_base_norm.
  split; [|split].
  - intros Hne. destruct (_slug txt) as [|c j] eqn:Hj; [done|].
    cbn [Py.nonempty andb]. case_bool_decide; cbn [negb]; [done|].
    apply elem_of_app. right. by left.
  - intros Hne Hnot. destruct (_slug txt) as [|c j] eqn:Hj; [done|].
    cbn [Py.nonempty andb]. rewrite bool_decide_false by done.
    cbn [negb]. split; [done|]. by rewrite last_snoc.
  - intros [->|Hin]; [done|].
    rewrite (bool_decide_true _ Hin). by rewrite andb_false_r.
Qed.

Lemma general_candidates_fallback_example :
  general_candidates (py "Foo Bar") = [] ++ [py "foobar"]
  ∧ last (general_candidates (py "Foo Bar")) = Some (py "foobar").
Proof.
  pose proof (general_candidates_fallback (py "Foo Bar")) as (_ & Hlast & _).
  assert (Hs : _slug (py "Foo Bar") = py "foobar") by (vm_compute; reflexivity).
  assert (Ht : table_candidates (base_norm (py "Foo Bar")) = [])
    by (vm_compute; reflexivity).
  rewrite Hs, Ht in Hlast. apply Hlast; [discriminate|].
  apply not_elem_of_nil.
Defined.

(** The claim as the specification words it fails on the code: for
    ["Carolina Panthers"] the slug [carolinapanthers] is the first of two
    candidates, the last being [floridapanthers]; and a text without
    letters or digits has no candidate at all. *)
Lemma general_candidates_fallback_not_always_last :
  general_candidates (py "Carolina Panthers")
  = [py "carolinapanthers"; py "floridapanthers"]
  ∧ _slug (py "Carolina Panthers") = py "carolinapanthers"
  ∧ last (general_candidates (py "Carolina Panthers"))
    ≠ Some (_slug (py "Carolina Panthers"))
  ∧ _slug (py "!!") ∉ general_candidates (py "!!").
Proof.
  split; [vm_compute; reflexivity|].
  split; [vm_compute; reflexivity|].
  split; [vm_compute; discriminate|].
  vm_compute. inversion 1.
Qed.

(** ** The calendar *)

Section CalendarFacts.
Local Open Scope Z_scope.

Lemma days_before_year_succ y :
  Cal.days_before_year (y + 1)
  = Cal.days_before_year y + 365 + (if Cal.is_leap y then 1 else 0).
Proof.
  unfold Cal.days_before_year, Cal.is_leap.
  replace (y + 1 - 1) with y by lia.
  destruct (y mod 4 =? 0) eqn:H4; destruct (y mod 100 =? 0) eqn:H100;
    destruct (y mod 400 =? 0) eqn:H400; simpl;
    rewrite ?Z.eqb_eq, ?Z.eqb_neq in *;
    Z.div_mod_to_equations; lia.
Qed.

Lemma month_cases m : 1 ≤ m ≤ 12 →
  m = 1 ∨ m = 2 ∨ m = 3 ∨ m = 4 ∨ m = 5 ∨ m = 6 ∨
  m = 7 ∨ m = 8 ∨ m = 9 ∨ m = 10 ∨ m = 11 ∨ m = 12.
Proof. lia. Qed.

Ltac month_split H :=
  apply month_cases in H;
  repeat (destruct H as [H|H]); subst.

(** The same month and day one year later is 365 or 366 days later. *)
Lemma toordinal_next_year y m d :
  1 ≤ m ≤ 12 →
  365 ≤ Cal.toordinal (Cal.Date (y + 1) m d) - Cal.toordinal (Cal.Date y m d) ≤ 366.
Proof.
  intros Hm. unfold Cal.toordinal, Cal.days_before_month. cbn [Cal.year Cal.month Cal.day].
  rewrite days_before_year_succ.
  destruct (Cal.is_leap y), (Cal.is_leap (y + 1)), (2 <? m); simpl; lia.
Qed.

Lemma new_returns y m d x :
  Cal.new y m d = Returns x →
  x = Cal.Date y m d ∧ 1 ≤ y ≤ 9999 ∧ 1 ≤ m ≤ 12 ∧ 1 ≤ d ≤ Cal.days_in_month y m.
Proof.
  unfold Cal.new, Cal.MINYEAR, Cal.MAXYEAR.
  destruct (_ && _) eqn:H; [|done]. intros [= <-].
  rewrite !andb_true_iff, !Z.leb_le in H. tauto.
Qed.

(** A date lies between the first and the last day of its year. *)
Lemma toordinal_in_year y m d :
  1 ≤ m ≤ 12 → 1 ≤ d ≤ Cal.days_in_month y m →
  Cal.days_before_year y + 1 ≤ Cal.toordinal (Cal.Date y m d)
    ≤ Cal.days_before_year y + 365 + (if Cal.is_leap y then 1 else 0).
Proof.
  intros Hm Hd. unfold Cal.toordinal, Cal.days_before_month.
  cbn [Cal.year Cal.month Cal.day].
  month_split Hm; cbn in Hd |- *; destruct (Cal.is_leap y); lia.
Qed.

Lemma days_between_same_year y m d m' d' :
  1 ≤ m ≤ 12 → 1 ≤ d ≤ Cal.days_in_month y m →
  1 ≤ m' ≤ 12 → 1 ≤ d' ≤ Cal.days_in_month y m' →
  -365 ≤ Cal.days_between (Cal.Date y m d) (Cal.Date y m' d') ≤ 365.
Proof.
  intros Hm Hd Hm' Hd'. unfold Cal.days_between.
  pose proof (toordinal_in_year y m d Hm Hd).
  pose proof (toordinal_in_year y m' d' Hm' Hd').
  destruct (Cal.is_leap y); lia.
Qed.

End CalendarFacts.

(** ** Year inference *)

Section GuessYear.
Local Open Scope Z_scope.

(** C5 (as amended).  With the year omitted, the year is inferred from the
    date that the month and day make in the reference year, when they make
    one: the reference year when that date is within 180 days of the
    reference date, the next year when it is more than 180 days earlier,
    the previous year when it is more than 180 days later.  Whenever one
    of the three years places the date within 180 days of the reference
    date, that year is the inferred one; in any case the inferred date is
    at most 185 days from the reference date.  With the reference date
    2025-01-05 the text "Dec 28" resolves to 2024-12-28. *)
Theorem _guess_year_half_year_rule :
  (∀ (month day : Z) (today cand : Cal.date),
      valid_date today →
      Cal.new (Cal.year today) month day = Returns cand →
      ∃ y, _guess_year month day today = Returns y
        ∧ y = (if Cal.days_between cand today <? -180 then Cal.year today + 1
               else if 180 <? Cal.days_between cand today then Cal.year today - 1
               else Cal.year today)
        ∧ (∀ y' d', Cal.year today - 1 ≤ y' ≤ Cal.year today + 1 →
             Cal.new y' month day = Returns d' →
             -180 ≤ Cal.days_between d' today ≤ 180 → y' = y)
        ∧ (∀ d', Cal.new y month day = Returns d' →
             -185 ≤ Cal.days_between d' today ≤ 185))
  ∧ parse_date_title (py "Dec 28") (Cal.Date 2025 1 5)
    = Returns (Some (Cal.Date 2024 12 28)).
Proof.
  split; [|vm_compute; reflexivity].
  intros month day today cand Htoday Hcand.
  unfold _guess_year. rewrite Hcand. cbn [obind].
  apply new_returns in Hcand as (-> & Hy & Hm & Hd).
  apply new_returns in Htoday as (Ht & _ & Htm & Htd).
  destruct today as [ty tm td]. cbn [Cal.year Cal.month Cal.day] in *.
  pose proof (days_between_same_year ty month day tm td Hm Hd Htm Htd) as Hdelta.
  pose proof (toordinal_next_year ty month day Hm) as Hnext.
  pose proof (toordinal_next_year (ty - 1) month day Hm) as Hprev.
  replace (ty - 1 + 1) with ty in Hprev by lia.
  set (delta := Cal.days_between (Cal.Date ty month day) (Cal.Date ty tm td)) in *.
  assert (Hyear : ∀ y' d', ty - 1 ≤ y' ≤ ty + 1 →
            Cal.new y' month day = Returns d' →
            Cal.days_between d' (Cal.Date ty tm td) = delta
              + (Cal.toordinal (Cal.Date y' month day)
                 - Cal.toordinal (Cal.Date ty month day))).
  { intros y' d' _ Hd'. apply new_returns in Hd' as (-> & _).
    unfold delta, Cal.days_between. lia. }
  eexists. split; [|split; [reflexivity|split]].
  - by destruct (delta <? -180), (180 <? delta).
  - intros y' d' Hy' Hd' Hin. rewrite (Hyear y' d' Hy' Hd') in Hin.
    assert (y' = ty - 1 ∨ y' = ty ∨ y' = ty + 1) as [->|[->| ->]] by lia;
      destruct (Z.ltb_spec delta (-180)); destruct (Z.ltb_spec 180 delta); lia.
  - intros d' Hd'.
    destruct (Z.ltb_spec delta (-180)); [|destruct (Z.ltb_spec 180 delta)].
    + rewrite (Hyear (ty + 1) d') by (done || lia). lia.
    + rewrite (Hyear (ty - 1) d') by (done || lia). lia.
    + rewrite (Hyear ty d') by (done || lia). lia.
Qed.

End GuessYear.

Lemma _guess_year_half_year_rule_example :
  ∃ y, _guess_year 12 28 (Cal.Date 2025 1 5) = Returns y ∧ y = 2024%Z.
Proof.
  destruct (proj1 _guess_year_half_year_rule 12%Z 28%Z (Cal.Date 2025 1 5)
              (Cal.Date 2025 12 28)) as (y & Hy & Heq & _).
  - reflexivity.
  - reflexivity.
  - exists y. split; [exact Hy|]. rewrite Heq. reflexivity.
Defined.

(** On 2025-07-02 the text "Jan 1" resolves to 2026-01-01, which is 183
    days away, although 2025-01-01 is only 182 days away; no year places
    the date within 180 days. *)
Lemma _guess_year_not_within_180_days :
  parse_date_title (py "Jan 1") (Cal.Date 2025 7 2)
  = Returns (Some (Cal.Date 2026 1 1))
  ∧ Cal.days_between (Cal.Date 2026 1 1) (Cal.Date 2025 7 2) = 183%Z
  ∧ Cal.days_between (Cal.Date 2025 1 1) (Cal.Date 2025 7 2) = (-182)%Z
  ∧ Cal.days_between (Cal.Date 2024 1 1) (Cal.Date 2025 7 2) = (-548)%Z.
Proof. repeat split; vm_compute; reflexivity. Qed.

(** ** Where a match can end *)

Lemma advance_0 c : advance c 0 = c.
Proof.
  destruct c as [b i s]. unfold advance, cursor_at. simpl.
  f_equal. lia.
Qed.

Lemma char_before_drop b s k1 k2 :
  (k1 ≤ length s)%nat →
  char_before (char_before b s k1) (drop k1 s) k2 = char_before b s (k1 + k2).
Proof.
  intros Hk. destruct k2 as [|j]; simpl.
  - by rewrite Nat.add_0_r.
  - rewrite lookup_drop. by replace (k1 + S j)%nat with (S (k1 + j)) by lia.
Qed.

Lemma advance_advance c k1 k2 :
  (k1 ≤ length (Re.rest c))%nat →
  advance (advance c k1) k2 = advance c (k1 + k2).
Proof.
  intros Hk. unfold advance, cursor_at. cbn [Re.before Re.pos Re.rest].
  rewrite char_before_drop by done. rewrite drop_drop. f_equal. lia.
Qed.

Lemma advance_rest_length c k :
  (k ≤ length (Re.rest c))%nat →
  length (Re.rest (advance c k)) = (length (Re.rest c) - k)%nat.
Proof. intros. unfold advance, cursor_at. simpl. by rewrite length_drop. Qed.

(** A repetition ends after a run of [k] characters of the class, with
    [k] within the bounds. *)
Lemma rep_sound ok lo hi b i s c :
  c ∈ Re.rep ok lo hi b i s →
  ∃ k, (k ≤ length s)%nat ∧ (lo ≤ k)%nat
       ∧ (∀ h, hi = Some h → (k ≤ h)%nat)
       ∧ Forall (λ x, ok x = true) (take k s)
       ∧ c = cursor_at b i s k.
Proof.
  revert lo hi b i c. induction s as [|x s IH]; intros lo hi b i c Hc.
  { simpl in Hc. destruct lo; [|by apply not_elem_of_nil in Hc].
    apply list_elem_of_singleton in Hc as ->.
    exists 0%nat. repeat split; try (simpl; lia); try constructor.
    unfold cursor_at. simpl. f_equal. lia. }
  cbn [Re.rep] in Hc.
  assert (Hstop : c ∈ match lo with O => [Re.Cursor b i (x :: s)] | S _ => [] end →
    ∃ k, (k ≤ length (x :: s))%nat ∧ (lo ≤ k)%nat
         ∧ (∀ h, hi = Some h → (k ≤ h)%nat)
         ∧ Forall (λ x, ok x = true) (take k (x :: s))
         ∧ c = cursor_at b i (x :: s) k).
  { intros H. destruct lo; [|by apply not_elem_of_nil in H].
    apply list_elem_of_singleton in H as ->.
    exists 0%nat. repeat split; try (simpl; lia); try constructor.
    unfold cursor_at. simpl. f_equal. lia. }
  destruct (ok x && negb (bool_decide (hi = Some 0%nat))) eqn:Hx; [|by apply Hstop].
  apply elem_of_app in Hc as [Hc|Hc]; [|by apply Hstop].
  apply andb_true_iff in Hx as [Hx Hhi].
  apply negb_true_iff, bool_decide_eq_false in Hhi.
  apply IH in Hc as (k & Hk & Hlo & Hh & Hall & ->).
  exists (S k). split; [simpl; lia|]. split; [lia|]. split; [|split].
  - intros h ->. destruct h as [|h]; [done|].
    specialize (Hh h eq_refl). lia.
  - simpl. by constructor.
  - unfold cursor_at. cbn [drop]. f_equal; try lia; by destruct k.
Qed.

(** Every way a pattern matches at a cursor ends at a cursor further on
    in the same subject. *)
Lemma run_advance ic r c g c' g' :
  (c', g') ∈ Re.run ic r c g →
  ∃ k, (k ≤ length (Re.rest c))%nat ∧ c' = advance c k.
Proof.
  revert c g c' g'. induction r as [|p|r1 IH1 r2 IH2|r1 IH1 r2 IH2|p lo hi|r1 IH1| | |n r1 IH1];
    intros c g c' g' H; cbn [Re.run] in H.
  - apply list_elem_of_singleton in H as [= -> ->]. exists 0%nat.
    split; [lia|]. by rewrite advance_0.
  - destruct c as [b i [|x s]]; cbn [Re.rest Re.pos] in H; [by apply not_elem_of_nil in H|].
    destruct (Re.cls ic p x); [|by apply not_elem_of_nil in H].
    apply list_elem_of_singleton in H as [= -> ->]. exists 1%nat.
    split; [simpl; lia|]. unfold advance, cursor_at. simpl. f_equal. lia.
  - apply list_elem_of_bind in H as ([c1 g1] & H2 & H1).
    apply IH1 in H1 as (k1 & Hk1 & ->).
    apply IH2 in H2 as (k2 & Hk2 & ->).
    rewrite advance_rest_length in Hk2 by done.
    exists (k1 + k2)%nat. split; [lia|]. by apply advance_advance.
  - apply elem_of_app in H as [H|H]; eauto.
  - apply list_elem_of_fmap in H as (c1 & [= -> ->] & H).
    apply rep_sound in H as (k & Hk & _ & _ & _ & ->). by exists k.
  - apply elem_of_app in H as [H|H]; [eauto|].
    apply list_elem_of_singleton in H as [= -> ->]. exists 0%nat.
    split; [lia|]. by rewrite advance_0.
  - destruct (xorb _ _); [|by apply not_elem_of_nil in H].
    apply list_elem_of_singleton in H as [= -> ->]. exists 0%nat.
    split; [lia|]. by rewrite advance_0.
  - exists 0%nat. split; [lia|]. rewrite advance_0.
    destruct (Re.rest c) as [|x [|??]]; try by apply not_elem_of_nil in H.
    + by apply list_elem_of_singleton in H as [= -> ->].
    + destruct (x =? 10); [|by apply not_elem_of_nil in H].
      by apply list_elem_of_singleton in H as [= -> ->].
  - apply list_elem_of_bind in H as ([c1 g1] & H2 & H1).
    apply list_elem_of_singleton in H2 as [= -> ->]. eauto.
Qed.

(** [re.search] reports the first way the pattern matches at the leftmost
    position where it matches at all. *)
Lemma search_from_Some ic r b i s m :
  Re.search_from ic r b i s = Some m →
  ∃ k c' tl, (k ≤ length s)%nat
    ∧ Re.m_start m = (i + k)%nat
    ∧ Re.run ic r (cursor_at b i s k) ∅ = (c', Re.m_groups m) :: tl
    ∧ Re.m_end m = Re.pos c'
    ∧ (∀ j, (j < k)%nat → Re.run ic r (cursor_at b i s j) ∅ = []).
Proof.
  revert b i. induction s as [|x s IH]; intros b i H; cbn [Re.search_from] in H.
  - destruct (Re.run ic r (Re.Cursor b i []) ∅) as [|[c' g] tl] eqn:Hrun; [done|].
    injection H as <-. exists 0%nat, c', tl. cbn.
    split; [lia|]. split; [lia|]. unfold cursor_at. cbn.
    rewrite Nat.add_0_r. split; [done|]. split; [done|]. lia.
  - destruct (Re.run ic r (Re.Cursor b i (x :: s)) ∅) as [|[c' g] tl] eqn:Hrun.
    + apply IH in H as (k & c' & tl & Hk & Hs & Hr & He & Hbefore).
      exists (S k), c', tl. split; [simpl; lia|]. split; [lia|].
      assert (Hcur : ∀ j, cursor_at (Some x) (S i) s j = cursor_at b i (x :: s) (S j)).
      { intros j. unfold cursor_at. cbn [drop]. f_equal; try lia; by destruct j. }
      rewrite <-Hcur. split; [done|]. split; [done|].
      intros [|j] Hj.
      * unfold cursor_at. cbn. by rewrite Nat.add_0_r.
      * rewrite <-Hcur. apply Hbefore. lia.
    + injection H as <-. exists 0%nat, c', tl. cbn.
      split; [lia|]. split; [lia|]. unfold cursor_at. cbn.
      rewrite Nat.add_0_r. split; [done|]. split; [done|]. lia.
Qed.

Lemma search_from_None ic r b i s :
  Re.search_from ic r b i s = None →
  ∀ k, (k ≤ length s)%nat → Re.run ic r (cursor_at b i s k) ∅ = [].
Proof.
  revert b i. induction s as [|x s IH]; intros b i H k Hk; cbn [Re.search_from] in H.
  - destruct (Re.run ic r (Re.Cursor b i []) ∅) as [|[c' g] tl] eqn:Hrun; [|done].
    simpl in Hk. replace k with 0%nat by lia. unfold cursor_at. cbn.
    by rewrite Nat.add_0_r.
  - destruct (Re.run ic r (Re.Cursor b i (x :: s)) ∅) as [|[c' g] tl] eqn:Hrun; [|done].
    destruct k as [|k].
    + unfold cursor_at. cbn. by rewrite Nat.add_0_r.
    + specialize (IH _ _ H k ltac:(simpl in Hk; lia)).
      replace (cursor_at b i (x :: s) (S k)) with (cursor_at (Some x) (S i) s k); [done|].
      unfold cursor_at. cbn [drop]. f_equal; try lia; by destruct k.
Qed.

(** ** How each construct matches *)

Lemma run_Seq ic r1 r2 c g x :
  x ∈ Re.run ic (Re.Seq r1 r2) c g →
  ∃ c1 g1, (c1, g1) ∈ Re.run ic r1 c g ∧ x ∈ Re.run ic r2 c1 g1.
Proof.
  cbn [Re.run]. intros H.
  apply list_elem_of_bind in H as ([c1 g1] & H2 & H1). eauto.
Qed.

Lemma run_Alt ic r1 r2 c g x :
  x ∈ Re.run ic (Re.Alt r1 r2) c g →
  x ∈ Re.run ic r1 c g ∨ x ∈ Re.run ic r2 c g.
Proof. cbn [Re.run]. apply elem_of_app. Qed.

Lemma run_Opt ic r1 c g x :
  x ∈ Re.run ic (Re.Opt r1) c g → x ∈ Re.run ic r1 c g ∨ x = (c, g).
Proof.
  cbn [Re.run]. intros H. apply elem_of_app in H as [H|H]; [by left|].
  right. by apply list_elem_of_singleton in H.
Qed.

Lemma run_Cls ic p c g c' g' :
  (c', g') ∈ Re.run ic (Re.Cls p) c g →
  ∃ x s', Re.rest c = x :: s' ∧ Re.cls ic p x = true
          ∧ c' = Re.Cursor (Some x) (S (Re.pos c)) s' ∧ g' = g.
Proof.
  cbn [Re.run]. intros H.
  destruct (Re.rest c) as [|x s']; [by apply not_elem_of_nil in H|].
  destruct (Re.cls ic p x) eqn:Hx; [|by apply not_elem_of_nil in H].
  apply list_elem_of_singleton in H as [= -> ->]. by exists x, s'.
Qed.

Lemma run_Rep ic p lo hi c g c' g' :
  (c', g') ∈ Re.run ic (Re.Rep p lo hi) c g →
  g' = g ∧ ∃ k, (k ≤ length (Re.rest c))%nat ∧ (lo ≤ k)%nat
    ∧ (∀ h, hi = Some h → (k ≤ h)%nat)
    ∧ Forall (λ x, Re.cls ic p x = true) (take k (Re.rest c))
    ∧ c' = advance c k.
Proof.
  cbn [Re.run]. intros H.
  apply list_elem_of_fmap in H as (c1 & [= -> ->] & H).
  split; [done|]. by apply rep_sound in H.
Qed.

Lemma run_WordB ic c g c' g' :
  (c', g') ∈ Re.run ic Re.WordB c g →
  c' = c ∧ g' = g
  ∧ xorb (Re.is_word_opt (Re.before c)) (Re.is_word_opt (head (Re.rest c))) = true.
Proof.
  cbn [Re.run]. intros H. destruct (xorb _ _); [|by apply not_elem_of_nil in H].
  by apply list_elem_of_singleton in H as [= -> ->].
Qed.

Lemma pos_advance c k : (Re.pos (advance c k) - Re.pos c)%nat = k.
Proof. unfold advance, cursor_at. cbn. lia. Qed.

(** The text of a group is the part of the subject its pattern went over. *)
Lemma run_Group ic n r c g c' g' :
  (c', g') ∈ Re.run ic (Re.Group n r) c g →
  ∃ g1, (c', g1) ∈ Re.run ic r c g
    ∧ g' = <[n := take (Re.pos c' - Re.pos c) (Re.rest c)]> g1.
Proof.
  cbn [Re.run]. intros H.
  apply list_elem_of_bind in H as ([c1 g1] & H2 & H1).
  apply list_elem_of_singleton in H2 as [= -> ->]. eauto.
Qed.

(** A pattern only writes the groups it contains. *)
Lemma run_groups_other ic r c g c' g' n :
  (c', g') ∈ Re.run ic r c g → n ∉ group_ids r → g' !! n = g !! n.
Proof.
  revert c g c' g'.
  induction r as [|p|r1 IH1 r2 IH2|r1 IH1 r2 IH2|p lo hi|r1 IH1| | |m r1 IH1];
    intros c g c' g' H Hn; cbn [group_ids] in Hn.
  - cbn in H. by apply list_elem_of_singleton in H as [= -> ->].
  - by apply run_Cls in H as (? & ? & _ & _ & _ & ->).
  - apply run_Seq in H as (c1 & g1 & H1 & H2).
    rewrite (IH2 _ _ _ _ H2), (IH1 _ _ _ _ H1); [done|set_solver..].
  - apply run_Alt in H as [H|H]; [eapply IH1|eapply IH2]; set_solver.
  - by apply run_Rep in H as [-> _].
  - apply run_Opt in H as [H|[= -> ->]]; [by eapply IH1|done].
  - by apply run_WordB in H as (_ & -> & _).
  - cbn in H. destruct (Re.rest c) as [|x [|??]]; try by apply not_elem_of_nil in H.
    + by apply list_elem_of_singleton in H as [= -> ->].
    + destruct (x =? 10); [|by apply not_elem_of_nil in H].
      by apply list_elem_of_singleton in H as [= -> ->].
  - apply run_Group in H as (g1 & H & ->).
    rewrite lookup_insert_ne by set_solver. eapply IH1; [done|set_solver].
Qed.

(** ** Digits *)

Lemma cls_ic_digit x : Re.cls true Py.is_digit x = true → Py.is_digit x = true.
Proof.
  unfold Re.cls, Py.is_digit, Py.lower1, Py.upper1, Py.is_upper_az, Py.is_lower_az.
  intros H. apply andb_true_iff. rewrite !N.leb_le.
  destruct ((65 <=? x) && (x <=? 90)) eqn:Hu;
    destruct ((97 <=? x) && (x <=? 122)) eqn:Hl; simpl in H; bool_lia.
Qed.

Lemma int_digits s :
  s ≠ [] → Forall (λ x, Re.cls true Py.is_digit x = true) s →
  int s = Returns (Py.int_of_digits s).
Proof.
  intros Hne Hall. unfold int.
  assert (forallb Py.is_digit s = true) as ->.
  { clear Hne. induction Hall as [|x l Hx _ IH]; [done|].
    simpl. by rewrite (cls_ic_digit _ Hx), IH. }
  by destruct s.
Qed.

(** ** The time and the abbreviation patterns *)

Lemma TIME_RE_unfold :
  TIME_RE =
  Re.Seq (Re.Group 1 (Re.Rep Py.is_digit 1 (Some 2%nat)))
    (Re.Seq (Re.Chr 58)
       (Re.Seq (Re.Group 2 (Re.Rep Py.is_digit 2 (Some 2%nat)))
          (Re.Seq (Re.Star Py.isspace)
             (Re.Group 3 (Re.Alt (Re.Seq (Re.Chr 65) (Re.Chr 77))
                                 (Re.Seq (Re.Chr 80) (Re.Chr 77))))))).
Proof. reflexivity. Qed.

(** The hour and minute groups of a time match hold one or two digits and
    two digits. *)
Lemma TIME_RE_groups c c' g :
  (c', g) ∈ Re.run true TIME_RE c ∅ →
  ∃ t1 t2, g !! 1%nat = Some t1 ∧ g !! 2%nat = Some t2
    ∧ t1 ≠ [] ∧ Forall (λ x, Re.cls true Py.is_digit x = true) t1
    ∧ t2 ≠ [] ∧ Forall (λ x, Re.cls true Py.is_digit x = true) t2.
Proof.
  rewrite TIME_RE_unfold. intros H.
  apply run_Seq in H as (c1 & g1 & H1 & H).
  apply run_Group in H1 as (g0 & H1 & ->).
  apply run_Rep in H1 as (-> & k1 & Hk1 & Hlo1 & _ & Hd1 & ->).
  rewrite pos_advance in H.
  apply run_Seq in H as (c2 & g2 & H2 & H).
  apply run_Cls in H2 as (x & s' & _ & _ & -> & ->).
  apply run_Seq in H as (c3 & g3 & H3 & H).
  apply run_Group in H3 as (g0 & H3 & ->).
  apply run_Rep in H3 as (-> & k2 & Hk2 & Hlo2 & _ & Hd2 & ->).
  rewrite pos_advance in H.
  assert (Hrest : (c', g) ∈ Re.run true
            (Re.Seq (Re.Star Py.isspace)
               (Re.Group 3 (Re.Alt (Re.Seq (Re.Chr 65) (Re.Chr 77))
                                   (Re.Seq (Re.Chr 80) (Re.Chr 77))))) _ _) by exact H.
  eexists _, _.
  split.
  { rewrite (run_groups_other _ _ _ _ _ _ 1%nat Hrest)
      by (cbn; by intros [=]%list_elem_of_singleton).
    rewrite lookup_insert_ne by done. apply lookup_insert_eq. }
  split.
  { rewrite (run_groups_other _ _ _ _ _ _ 2%nat Hrest)
      by (cbn; by intros [=]%list_elem_of_singleton).
    apply lookup_insert_eq. }
  split; [|split; [done|split; [|done]]].
  - intros Hnil. apply (f_equal length) in Hnil.
    rewrite length_take in Hnil. simpl in Hnil. lia.
  - intros Hnil. apply (f_equal length) in Hnil.
    rewrite length_take in Hnil. simpl in Hnil. cbn [Re.rest] in Hk2. lia.
Qed.


(** Case variants of a character under IGNORECASE. *)
Lemma cls_ic_cases p x :
  Re.cls true p x = true →
  p x = true ∨ p (Py.lower1 x) = true ∨ p (Py.upper1 x) = true.
Proof.
  unfold Re.cls. simpl. intros H.
  apply orb_true_iff in H as [H|H]; [by left|].
  apply orb_true_iff in H as [H|H]; auto.
Qed.

Lemma lower1_cases x : Py.lower1 x = x ∨ (65 ≤ x ≤ 90 ∧ Py.lower1 x = x + 32).
Proof.
  unfold Py.lower1, Py.is_upper_az.
  destruct ((65 <=? x) && (x <=? 90)) eqn:H; [right|by left]. bool_lia.
Qed.

Lemma upper1_cases x : Py.upper1 x = x ∨ (97 ≤ x ≤ 122 ∧ Py.upper1 x = x - 32).
Proof.
  unfold Py.upper1, Py.is_lower_az.
  destruct ((97 <=? x) && (x <=? 122)) eqn:H; [right|by left]. bool_lia.
Qed.

(** An uppercase letter of a pattern matches itself and its lowercase
    form. *)
Lemma cls_ic_letter a x :
  65 ≤ a ≤ 90 → Re.cls true (N.eqb a) x = true → x = a ∨ x = a + 32.
Proof.
  intros Ha H. apply cls_ic_cases in H.
  destruct (lower1_cases x) as [Hl|[? Hl]];
    destruct (upper1_cases x) as [Hu|[? Hu]];
    rewrite ?Hl, ?Hu in H;
    destruct H as [H|[H|H]]; apply N.eqb_eq in H; lia.
Qed.

Lemma cls_ic_one_of (l : list N) x :
  Forall (λ a, 65 ≤ a ≤ 90) l →
  Re.cls true (Re.one_of l) x = true → x ∈ l ∨ x ∈ (N.add 32) <$> l.
Proof.
  intros Hl H. apply cls_ic_cases in H. unfold Re.one_of in H.
  rewrite Forall_forall in Hl.
  destruct (lower1_cases x) as [Hlow|[? Hlow]];
    destruct (upper1_cases x) as [Hupp|[? Hupp]];
    destruct H as [H|[H|H]]; apply bool_decide_eq_true in H.
  all: try rewrite Hlow in H; try rewrite Hupp in H.
  all: first [ by left
             | specialize (Hl _ H); exfalso; lia
             | right; apply list_elem_of_fmap; exists (x - 32);
               split; [lia|done] ].
Qed.

Ltac letter_cases H :=
  first
    [ apply cls_ic_letter in H; [|lia]; destruct H as [->| ->]
    | apply cls_ic_one_of in H; [|by repeat constructor];
      cbn [fmap list_fmap] in H; destruct H as [H|H];
      repeat (apply elem_of_cons in H as [->|H]);
      try (by apply elem_of_nil in H) ].

(** What [re.search] returns is one of the ways the pattern matches at
    the reported start. *)
Lemma search_Some ic r s m :
  Re.search ic r s = Some m →
  ∃ c', (c', Re.m_groups m) ∈ Re.run ic r (cursor_at None 0 s (Re.m_start m)) ∅
        ∧ Re.m_end m = Re.pos c' ∧ (Re.m_start m ≤ length s)%nat.
Proof.
  intros H. apply search_from_Some in H as (k & c' & tl & Hk & Hs & Hr & He & _).
  simpl in Hs. subst k. exists c'. rewrite Hr. split; [by left|done].
Qed.

(** ** The display name *)

Lemma strftime_date dt :
  strftime (py "%b %-d") dt
  = MONTH_ABBR (Cal.month (dt_date dt)) ++ py " " ++ Py.decimal (Cal.day (dt_date dt))
  ∧ strftime (py "%b %#d") dt
  = MONTH_ABBR (Cal.month (dt_date dt)) ++ py " " ++ Py.decimal (Cal.day (dt_date dt)).
Proof.
  split.
  - transitivity (MONTH_ABBR (Cal.month (dt_date dt))
                  ++ 32 :: Py.decimal (Cal.day (dt_date dt)) ++ []); [reflexivity|].
    by rewrite app_nil_r.
  - transitivity (MONTH_ABBR (Cal.month (dt_date dt))
                  ++ 32 :: Py.decimal (Cal.day (dt_date dt)) ++ []); [reflexivity|].
    by rewrite app_nil_r.
Qed.

Lemma strftime_time dt :
  strftime (py "%-I:%M %p") dt
  = Py.decimal (hour12 (dt_hour dt)) ++ py ":" ++ two_digits (dt_minute dt)
      ++ py " " ++ am_pm (dt_hour dt)
  ∧ strftime (py "%#I:%M %p") dt
  = Py.decimal (hour12 (dt_hour dt)) ++ py ":" ++ two_digits (dt_minute dt)
      ++ py " " ++ am_pm (dt_hour dt).
Proof.
  split.
  - transitivity (Py.decimal (hour12 (dt_hour dt))
                  ++ 58 :: two_digits (dt_minute dt)
                  ++ 32 :: am_pm (dt_hour dt) ++ []); [reflexivity|].
    by rewrite app_nil_r.
  - transitivity (Py.decimal (hour12 (dt_hour dt))
                  ++ 58 :: two_digits (dt_minute dt)
                  ++ 32 :: am_pm (dt_hour dt) ++ []); [reflexivity|].
    by rewrite app_nil_r.
Qed.

(** The formatter on either platform. *)
Lemma format_game_datetime_Some on_windows game_name dt :
  format_game_datetime on_windows game_name (Some dt)
  = game_name ++ [32; 8226; 32] ++ rendered_instant dt.
Proof.
  unfold format_game_datetime, _strftime_no_pad, rendered_instant.
  destruct (strftime_date dt) as [Hd1 Hd2].
  destruct (strftime_time dt) as [Ht1 Ht2].
  destruct on_windows; rewrite ?Hd1, ?Hd2, ?Ht1, ?Ht2;
    by rewrite <-?app_assoc.
Qed.

(** ** The order of the output *)

Lemma str_leb_refl a : str_leb a a = true.
Proof.
  induction a as [|x a IH]; [done|]. simpl.
  by rewrite N.eqb_refl, IH, orb_true_r.
Qed.

Lemma str_leb_total a b : str_leb a b = true ∨ str_leb b a = true.
Proof.
  revert b. induction a as [|x a IH]; intros [|y b]; simpl; auto.
  destruct (N.lt_total x y) as [H|[->|H]].
  - left. apply orb_true_iff. left. by apply N.ltb_lt.
  - rewrite N.ltb_irrefl, N.eqb_refl. simpl. apply IH.
  - right. apply orb_true_iff. left. by apply N.ltb_lt.
Qed.

Lemma str_leb_cons x a y b :
  str_leb (x :: a) (y :: b) = true ↔ x < y ∨ (x = y ∧ str_leb a b = true).
Proof.
  simpl. rewrite orb_true_iff, andb_true_iff, N.ltb_lt, N.eqb_eq. tauto.
Qed.

Lemma str_leb_trans a b c :
  str_leb a b = true → str_leb b c = true → str_leb a c = true.
Proof.
  revert b c. induction a as [|x a IH]; intros [|y b] [|z c]; try done.
  rewrite !str_leb_cons. intros [H1|[-> H1]] [H2|[-> H2]].
  - left. lia.
  - by left.
  - by left.
  - right. split; [done|]. by eapply IH.
Qed.

Lemma str_leb_antisym a b :
  str_leb a b = true → str_leb b a = true → a = b.
Proof.
  revert b. induction a as [|x a IH]; intros [|y b]; try done.
  rewrite !str_leb_cons. intros [H1|[-> H1]] [H2|[H2 H3]]; try lia.
  f_equal. by apply IH.
Qed.

Global Instance key_le_total {V} : Total (@key_le V).
Proof. intros a b. apply str_leb_total. Qed.

Global Instance key_le_trans {V} : Transitive (@key_le V).
Proof. intros a b c. apply str_leb_trans. Qed.

(** [sorted(found.items())] lists each item of the dictionary once, in
    strictly increasing order of the keys. *)
Lemma sorted_items_spec {V} (d : gmap (list N) V) :
  StronglySorted key_lt (sorted_items d)
  ∧ (∀ k v, (k, v) ∈ sorted_items d ↔ d !! k = Some v)
  ∧ NoDup (sorted_items d).*1.
Proof.
  unfold sorted_items.
  pose proof (merge_sort_Permutation key_le (map_to_list d)) as Hperm.
  assert (Hnd : NoDup (merge_sort key_le (map_to_list d)).*1).
  { rewrite Hperm. apply NoDup_fst_map_to_list. }
  split; [|split; [|done]].
  - pose proof (StronglySorted_merge_sort key_le (map_to_list d)) as Hs.
    revert Hs Hnd. generalize (merge_sort key_le (map_to_list d)).
    intros l Hs. induction Hs as [|a l Hs IH Hall]; intros Hnd; [constructor|].
    rewrite fmap_cons in Hnd. apply NoDup_cons in Hnd as [Hna Hnd].
    constructor; [by apply IH|].
    rewrite Forall_forall in Hall |- *. intros b Hb. split; [by apply Hall|].
    intros Heq. apply Hna. rewrite Heq. apply list_elem_of_fmap. by exists b.
  - intros k v. rewrite Hperm. apply elem_of_map_to_list.
Qed.

(** ** Loops over rows *)

Lemma for_each_store {A V} (f : A → Net (option (list N * V)))
    (l : list A) (found : gmap (list N) V) log :
  for_each (λ found x, bind (f x) (λ o, ret (store found o))) l found log
  = match for_all f l log with
    | (Returns os, log') => (Returns (foldl store found os), log')
    | (Raises e, log') => (Raises e, log')
    end.
Proof.
  revert found log. induction l as [|x l IH]; intros found log; [reflexivity|].
  cbn [for_each for_all].
  destruct (f x log) as [[o|e] log1] eqn:Hf.
  - assert (H1 : bind (f x) (λ o, ret (store found o)) log
                 = (Returns (store found o), log1))
      by (by rewrite (bind_returns _ _ _ _ _ Hf)).
    rewrite (bind_returns _ _ _ _ _ H1), IH, (bind_returns _ _ _ _ _ Hf).
    unfold bind, ret. by destruct (for_all f l log1) as [[os|e] log2].
  - assert (H1 : bind (f x) (λ o, ret (store found o)) log = (Raises e, log1))
      by (by rewrite (bind_raises _ _ _ _ _ Hf)).
    by rewrite (bind_raises _ _ _ _ _ H1), (bind_raises _ _ _ _ _ Hf).
Qed.

(** The last store under a key decides what the dictionary holds. *)
Lemma foldl_store_last {V} (stores : list (option (list N * V))) d pre k v post :
  stores = pre ++ Some (k, v) :: post →
  (∀ v', Some (k, v') ∉ post) →
  foldl store d stores !! k = Some v.
Proof.
  intros -> Hpost. rewrite foldl_app. cbn [foldl].
  generalize (foldl store d pre). intros d'.
  assert (H : store d' (Some (k, v)) !! k = Some v) by apply lookup_insert_eq.
  revert H. generalize (store d' (Some (k, v))). clear d'.
  induction post as [|o post IH]; intros d' H; [done|].
  cbn [foldl]. apply IH.
  - intros v' Hin. apply (Hpost v'). by right.
  - destruct o as [[k' v']|]; [|done]. cbn [store].
    rewrite lookup_insert_ne; [done|]. intros ->. apply (Hpost v'). by left.
Qed.

(** A key is in the dictionary only if it was stored. *)
Lemma foldl_store_lookup {V} (stores : list (option (list N * V))) d k v :
  foldl store d stores !! k = Some v →
  d !! k = Some v ∨ Some (k, v) ∈ stores.
Proof.
  revert d. induction stores as [|o stores IH]; intros d H; [by left|].
  cbn [foldl] in H. apply IH in H as [H|H]; [|right; by right].
  destruct o as [[k' v']|]; [|by left]. cbn [store] in H.
  destruct (decide (k' = k)) as [->|Hne].
  - rewrite lookup_insert_eq in H. injection H as ->. right. by left.
  - rewrite lookup_insert_ne in H by done. by left.
Qed.

(** ** De-duplication of the output *)

Section Dedup.
Variable head_response : list N → response.
Variable page_requests : list N → outcome (list (list N)).
Variable tz : tzdata.
Variable on_windows : bool.
Variable urljoin : list N → list N → list N.
Variable league_rows : list N → outcome (list league_row).
Variable today_local : Cal.date.

(** A row of the schedule page leaves the results as they are or appends
    one event to them. *)
Lemma ppv_row_step_appends
    (base_url group_name tvg_id default_logo : list N)
    (allowed_slugs : option (gset (list N))) (nickname_only : bool)
    (site_tz : zone) st row log st' log' :
  ppv_row_step head_response tz on_windows today_local base_url group_name
    tvg_id default_logo allowed_slugs nickname_only site_tz st row log
  = (Returns st', log') →
  st'.2 = st.2 ∨ ∃ e, st'.2 = st.2 ++ [e].
Proof.
  unfold ppv_row_step. destruct st as [current_date results].
  destruct (is_header_class (tr_class row)).
  { unfold bind, lift, ret.
    destruct (parse_date_title _ _) as [[d|]|e]; intros [= <- <-]; by left. }
  destruct (tr_teams row) as [[away home]|]; [|intros [= <- <-]; by left].
  unfold bind at 1.
  destruct (resolve_row_slug _ _ _ _ _ _ _ log) as [[[[|c s]|]|e] log1];
    try (intros [= <- <-]; by left); try done.
  unfold bind at 1, lift.
  destruct (row_match_name _ _ _ _ _ _ _ _) as [match_name|e]; [|done].
  unfold bind. rewrite verify_stream_url_run.
  destruct (bool_decide _); intros [= <- <-]; [right; by eexists|by left].
Qed.

(** C1 (as amended).  In [scrape_league], the rows and channels that give
    the same key yield exactly one event for that key, built from the last
    of them that stored a stream: a later store overwrites an earlier one.
    The output lists the keys of the dictionary once each, in strictly
    increasing order.  [scrape_ppv_league] does not de-duplicate.  Its
    loop never removes or replaces an event: the results before a run of
    rows are a prefix of the results after it.  A row that names two
    teams, whose slug is resolved, whose display name is built (the date
    parser does not raise) and whose stream answers 200 at the final
    check appends its own event at the end of the results, whatever they
    hold already.  And an event that a row appends is in the final output
    right after what the rows before it had produced. *)
Theorem scrape_output_keeps_last_store_per_key :
  (∀ (base_url : list N) (channel_urls : list (list N))
     (group_prefix default_id default_logo : list N)
     (log log' : list request) (results : list stream_event),
     scrape_league head_response page_requests tz on_windows urljoin
       league_rows today_local base_url channel_urls
       group_prefix default_id default_logo log = (Returns results, log') →
     ∃ all_rows row_stores chan_stores log1,
       league_rows base_url = Returns all_rows
       ∧ for_all (league_row_store head_response page_requests tz urljoin
                    today_local base_url (site_default_tz base_url))
                 all_rows (log ++ [GOTO base_url]) = (Returns row_stores, log1)
       ∧ for_all (channel_store head_response page_requests)
                 channel_urls log1 = (Returns chan_stores, log')
       ∧ let found := foldl store ∅ (row_stores ++ chan_stores) in
         results = league_event on_windows base_url group_prefix default_id
                     default_logo <$> sorted_items found
         ∧ StronglySorted key_lt (sorted_items found)
         ∧ (∀ k v, (k, v) ∈ sorted_items found ↔ found !! k = Some v)
         ∧ (∀ pre k v post,
              row_stores ++ chan_stores = pre ++ Some (k, v) :: post →
              (∀ v', Some (k, v') ∉ post) →
              found !! k = Some v))
  ∧ (∀ (base_url group_name tvg_id default_logo : list N)
       (allowed_slugs : option (gset (list N))) (nickname_only : bool)
       (site_tz : zone) rows st log st' log',
       for_each (ppv_row_step head_response tz on_windows today_local
                   base_url group_name tvg_id default_logo
                   allowed_slugs nickname_only site_tz) rows st log
       = (Returns st', log') →
       st.2 `prefix_of` st'.2)
  ∧ (∀ (base_url group_name tvg_id default_logo : list N)
       (allowed_slugs : option (gset (list N))) (nickname_only : bool)
       (site_tz : zone) (st : option Cal.date * list stream_event)
       (row : tr) (log log1 : list request) (away home slug name : list N),
       is_header_class (tr_class row) = false →
       tr_teams row = Some (away, home) →
       resolve_row_slug head_response allowed_slugs nickname_only
         (tr_backup_slug row) (tr_team_key row) away home log
       = (Returns (Some slug), log1) →
       slug ≠ [] →
       row_match_name tz on_windows today_local site_tz st.1
         (time_text row) away home = Returns name →
       head_response (PPV_STREAM_URL_PATTERN slug) = Status 200 →
       ppv_row_step head_response tz on_windows today_local
         base_url group_name tvg_id default_logo
         allowed_slugs nickname_only site_tz st row log
       = (Returns
            (st.1,
             st.2 ++ [StreamEvent name (PPV_STREAM_URL_PATTERN slug) tvg_id
                        (if truthy (tr_logo row) then default [] (tr_logo row)
                         else default_logo)
                        (group_name ++ py " - Live Games") base_url true]),
          log1 ++ [HEAD (PPV_STREAM_URL_PATTERN slug)]))
  ∧ (∀ (base_url group_name tvg_id default_logo : list N)
       (allowed_slugs : option (gset (list N))) (nickname_only : bool)
       (site_tz : zone) rows1 row rows2 st log st1 log1 date e log2 st' log',
       let step := ppv_row_step head_response tz on_windows today_local
                     base_url group_name tvg_id default_logo
                     allowed_slugs nickname_only site_tz in
       for_each step rows1 st log = (Returns st1, log1) →
       step st1 row log1 = (Returns (date, st1.2 ++ [e]), log2) →
       for_each step (rows1 ++ row :: rows2) st log = (Returns st', log') →
       ∃ later, st'.2 = st1.2 ++ e :: later).
Proof.
  assert (Hprefix : ∀ (base_url group_name tvg_id default_logo : list N)
       (allowed_slugs : option (gset (list N))) (nickname_only : bool)
       (site_tz : zone) rows st log st' log',
       for_each (ppv_row_step head_response tz on_windows today_local
                   base_url group_name tvg_id default_logo
                   allowed_slugs nickname_only site_tz) rows st log
       = (Returns st', log') →
       st.2 `prefix_of` st'.2).
  { intros base_url group_name tvg_id default_logo allowed_slugs
      nickname_only site_tz rows.
    induction rows as [|row rows IH]; intros st log st' log' H.
    + cbn in H. by injection H as <- <-.
    + cbn [for_each] in H. unfold bind in H.
      destruct (ppv_row_step _ _ _ _ _ _ _ _ _ _ _ st row log)
        as [[st1|e] log1] eqn:Hstep; [|done].
      apply IH in H. apply ppv_row_step_appends in Hstep.
      etrans; [|exact H].
      destruct Hstep as [->|[e ->]]; [done|]. by apply prefix_app_r. }
  split; [|split; [exact Hprefix|split]].
  - intros base_url channel_urls group_prefix default_id default_logo
      log log' results. unfold scrape_league, bind at 1.
    destruct (league_rows base_url) as [all_rows|e] eqn:Hrows; [|done].
    unfold bind at 1.
    change (for_each (league_row_step head_response page_requests tz urljoin
                        today_local base_url (site_default_tz base_url)))
      with (for_each (λ found x,
              bind (league_row_store head_response page_requests tz urljoin
                      today_local base_url (site_default_tz base_url) x)
                   (λ o, ret (store found o)))).
    rewrite for_each_store.
    destruct (for_all _ all_rows _) as [[row_stores|e] log1] eqn:Hr; [|done].
    unfold bind at 1.
    change (for_each (channel_step head_response page_requests))
      with (for_each (λ found x,
              bind (channel_store head_response page_requests x)
                   (λ o, ret (store found o)))).
    rewrite for_each_store.
    destruct (for_all _ channel_urls _) as [[chan_stores|e] log2] eqn:Hc; [|done].
    unfold ret. intros [= <- <-].
    exists all_rows, row_stores, chan_stores, log1.
    split; [done|]. split; [done|]. split; [done|].
    rewrite foldl_app.
    destruct (sorted_items_spec
                (foldl store (foldl store (∅ : gmap (list N) league_entry)
                                row_stores) chan_stores))
      as (Hsorted & Helem & _).
    split; [done|]. split; [done|]. split; [done|].
    intros pre k v post Heq Hpost. rewrite <-foldl_app.
    by eapply foldl_store_last.
  - intros base_url group_name tvg_id default_logo allowed_slugs
      nickname_only site_tz [current_date results] row log log1
      away home slug name Hclass Hteams Hslug Hne Hname Hhead.
    cbn [fst snd] in *. unfold ppv_row_step. rewrite Hclass, Hteams.
    unfold bind at 1. rewrite Hslug.
    destruct slug as [|c slug]; [done|].
    unfold bind at 1, lift. rewrite Hname.
    unfold bind. rewrite verify_stream_url_run, Hhead.
    by rewrite bool_decide_eq_true_2.
  - intros base_url group_name tvg_id default_logo allowed_slugs
      nickname_only site_tz rows1 row rows2 st log st1 log1 date e log2
      st' log' step Hrows1 Hrow Hall.
    assert (Happ : ∀ l1 l2 s0 l0,
      for_each step (l1 ++ l2) s0 l0
      = match for_each step l1 s0 l0 with
        | (Returns s1, l1') => for_each step l2 s1 l1'
        | (Raises x, l1') => (Raises x, l1')
        end).
    { induction l1 as [|x l1 IH]; intros l2 s0 l0; [done|].
      cbn [app for_each]. unfold bind.
      destruct (step s0 x l0) as [[s1|x1] l1']; [apply IH|done]. }
    rewrite Happ, Hrows1 in Hall. cbn [for_each] in Hall.
    unfold bind in Hall. rewrite Hrow in Hall.
    apply Hprefix in Hall. cbn [snd] in Hall.
    destruct Hall as [later Hlater]. exists later.
    by rewrite Hlater, <-app_assoc.
Qed.

End Dedup.

(** Two rows with the same link text: the output holds one event, and it
    carries the stream of the second row; two rows of a schedule page for
    the same game: the output holds both events. *)
Lemma scrape_league_keeps_the_later_row :
  fst (scrape_league always_200 example_page_requests UsRules.tz false
         example_urljoin example_league_rows (Cal.Date 2025 1 2)
         NFL_BASE_URL [] (py "NFLWebcast") (py "NFL.Dummy.us") (py "logo") [])
  = Returns [ StreamEvent (py "Jets @ Bills")
                (py "https://nflwebcast.top/game2/index.m3u8")
                (py "NFL.Dummy.us") (py "logo")
                (py "NFLWebcast - Live Games") NFL_BASE_URL false ]
  ∧ fst (scrape_ppv_league always_200 UsRules.tz false example_schedule_page
           (Cal.Date 2025 1 2) NFL_BASE_URL (py "NFLWebcast")
           (py "NFL.Football.Dummy.us") (py "logo")
           (Some FULL_TEAM_SLUGS_NFL) false [])
    = Returns [ StreamEvent (py "New York Jets @ Buffalo Bills")
                  (py "https://gg.poocloud.in/buffalobills/tracks-v1a1/mono.ts.m3u8")
                  (py "NFL.Football.Dummy.us") (py "logo")
                  (py "NFLWebcast - Live Games") NFL_BASE_URL true;
                StreamEvent (py "New York Jets @ Buffalo Bills")
                  (py "https://gg.poocloud.in/buffalobills/tracks-v1a1/mono.ts.m3u8")
                  (py "NFL.Football.Dummy.us") (py "logo")
                  (py "NFLWebcast - Live Games") NFL_BASE_URL true ].
Proof. split; vm_compute; reflexivity. Qed.

Lemma scrape_output_keeps_last_store_per_key_example :
  (example_league_run = (Returns example_league_results, example_league_run.2)
   ∧ ∃ all_rows, example_league_rows NFL_BASE_URL = Returns all_rows
                 ∧ length all_rows = 2%nat)
  ∧ ppv_row_step always_200 UsRules.tz false (Cal.Date 2025 1 2)
      NFL_BASE_URL (py "NFLWebcast") (py "NFL.Football.Dummy.us") (py "logo")
      (Some FULL_TEAM_SLUGS_NFL) false New_York
      (None, [example_ppv_event]) example_ppv_row []
    = (Returns (None, [example_ppv_event; example_ppv_event]),
       [probe (py "buffalobills"); probe (py "buffalobills")]).
Proof.
  split.
  - assert (H : example_league_run
                = (Returns example_league_results, example_league_run.2))
      by (vm_compute; reflexivity).
    split; [exact H|].
    destruct (proj1 (scrape_output_keeps_last_store_per_key always_200
                       example_page_requests UsRules.tz false example_urljoin
                       example_league_rows (Cal.Date 2025 1 2))
                NFL_BASE_URL [] (py "NFLWebcast") (py "NFL.Dummy.us") (py "logo")
                [] example_league_run.2 example_league_results H)
      as (all_rows & row_stores & chan_stores & log1 & Hrows & _).
    exists all_rows. split; [exact Hrows|].
    injection Hrows as <-. reflexivity.
  - apply (proj1 (proj2 (proj2 (scrape_output_keeps_last_store_per_key
                     always_200 example_page_requests UsRules.tz false
                     example_urljoin example_league_rows (Cal.Date 2025 1 2))))
             NFL_BASE_URL (py "NFLWebcast") (py "NFL.Football.Dummy.us")
             (py "logo") (Some FULL_TEAM_SLUGS_NFL) false New_York
             (None, [example_ppv_event]) example_ppv_row
             [] [probe (py "buffalobills")]
             (py "New York Jets") (py "Buffalo Bills") (py "buffalobills")
             (py "New York Jets @ Buffalo Bills")).
    + vm_compute. reflexivity.
    + reflexivity.
    + vm_compute. reflexivity.
    + discriminate.
    + vm_compute. reflexivity.
    + reflexivity.
Defined.

(** ** Case *)

Ltac case_tests :=
  unfold Py.lower1, Py.upper1, Py.is_cased, Py.is_word, Py.is_alpha_az,
    Py.is_upper_az, Py.is_lower_az, Py.is_digit, Py.isspace,
    Py.is_linebreak, Py.J_CARON in *.

Ltac split_tests :=
  repeat match goal with
         | |- context [?a <=? ?b] => destruct (N.leb_spec a b)
         | |- context [?a =? ?b] => destruct (N.eqb_spec a b)
         | H : context [?a <=? ?b] |- _ => destruct (N.leb_spec a b)
         | H : context [?a =? ?b] |- _ => destruct (N.eqb_spec a b)
         end;
  simpl in *; try done; try lia.

Lemma lower1_upper1 c : Py.lower1 (Py.upper1 c) = Py.lower1 c.
Proof. case_tests. split_tests. Qed.

Lemma upper1_idemp c : Py.upper1 (Py.upper1 c) = Py.upper1 c.
Proof. case_tests. split_tests. Qed.

Lemma upper1_lower1_ascii c : Py.upper1 (Py.lower1 c) = Py.upper1 c.
Proof. case_tests. split_tests. Qed.

Lemma title_char_ci p c : ci_eq c (title_char p c).
Proof.
  unfold ci_eq, title_char. destruct p; by rewrite ?lower1_idemp, ?lower1_upper1.
Qed.

Lemma title_char_idemp p c : title_char p (title_char p c) = title_char p c.
Proof. unfold title_char. destruct p; by rewrite ?lower1_idemp, ?upper1_idemp. Qed.

Lemma title_char_ascii p c : c < 128 → title_char p c < 128.
Proof. unfold title_char. destruct p; case_tests; split_tests. Qed.

Lemma title_char_cased p c :
  c < 128 → Py.is_cased (title_char p c) = Py.is_cased c.
Proof. unfold title_char. intros H. destruct p; case_tests; split_tests. Qed.

(** Characters equal up to case are equal or are both letters. *)
Lemma ci_eq_cases a b :
  ci_eq a b → a = b ∨ (Py.is_alpha_az a = true ∧ Py.is_alpha_az b = true).
Proof. unfold ci_eq. case_tests. split_tests; intros; (by left) || (right; lia) || lia. Qed.

Lemma alpha_props a :
  Py.is_alpha_az a = true →
  Py.isspace a = false ∧ Py.is_linebreak a = false ∧ a ≠ 64 ∧ a < 128.
Proof.
  intros H. repeat split; try (apply not_true_is_false; intros H2);
    case_tests; bool_lia.
Qed.

Lemma ci_eq_isspace a b : ci_eq a b → Py.isspace a = Py.isspace b.
Proof.
  intros [->|[Ha Hb]]%ci_eq_cases; [done|].
  destruct (alpha_props a Ha) as (-> & _), (alpha_props b Hb) as (-> & _). done.
Qed.

Lemma ci_eq_linebreak a b : ci_eq a b → Py.is_linebreak a = Py.is_linebreak b.
Proof.
  intros [->|[Ha Hb]]%ci_eq_cases; [done|].
  destruct (alpha_props a Ha) as (_ & -> & _), (alpha_props b Hb) as (_ & -> & _).
  done.
Qed.

Lemma ci_eq_word a b : ci_eq a b → Py.is_word a = Py.is_word b.
Proof.
  intros [->|[Ha Hb]]%ci_eq_cases; [done|].
  unfold Py.is_word. by rewrite Ha, Hb.
Qed.

Lemma ci_eq_at a b : ci_eq a b → a = 64 ↔ b = 64.
Proof.
  intros [->|[Ha Hb]]%ci_eq_cases; [done|].
  destruct (alpha_props a Ha) as (_ & _ & ? & _), (alpha_props b Hb) as (_ & _ & ? & _).
  done.
Qed.

Lemma ci_eq_ascii a b : ci_eq a b → a < 128 → b < 128.
Proof.
  intros [->|[Ha Hb]]%ci_eq_cases; [done|].
  by destruct (alpha_props b Hb) as (_ & _ & _ & ?).
Qed.

(** ** [str.title] on Basic Latin *)

Lemma title_from_cons_ascii p c s :
  c < 128 →
  Py.title_from p (c :: s) = title_char p c :: Py.title_from (Py.is_cased c) s.
Proof.
  intros Hc. cbn [Py.title_from]. unfold Py.lower_full, Py.title_full, Py.upper_full.
  assert ((c =? Py.J_CARON) = false) as ->.
  { apply N.eqb_neq. unfold Py.J_CARON. lia. }
  by destruct p.
Qed.

Lemma title_from_ci p s :
  is_ascii s → Forall2 ci_eq s (Py.title_from p s).
Proof.
  intros Hs. revert p. induction Hs as [|c s Hc Hs IH]; intros p; [constructor|].
  rewrite title_from_cons_ascii by done. constructor; [apply title_char_ci|apply IH].
Qed.

Lemma title_from_ascii p s : is_ascii s → is_ascii (Py.title_from p s).
Proof.
  intros Hs. revert p. induction Hs as [|c s Hc Hs IH]; intros p; [constructor|].
  rewrite title_from_cons_ascii by done.
  constructor; [by apply title_char_ascii|apply IH].
Qed.

Lemma title_from_idemp p s :
  is_ascii s → Py.title_from p (Py.title_from p s) = Py.title_from p s.
Proof.
  intros Hs. revert p. induction Hs as [|c s Hc Hs IH]; intros p; [done|].
  rewrite title_from_cons_ascii by done.
  rewrite title_from_cons_ascii by (by apply title_char_ascii).
  by rewrite title_char_idemp, title_char_cased, IH.
Qed.

Lemma title_from_app p s t :
  Py.title_from p (s ++ t)
  = Py.title_from p s
    ++ Py.title_from (match last s with Some c => Py.is_cased c | None => p end) t.
Proof.
  revert p. induction s as [|c s IH]; intros p; [done|].
  cbn [app Py.title_from]. rewrite IH, <-app_assoc. do 2 f_equal.
  destruct s as [|c' s]; [done|]. rewrite last_cons_cons.
  destruct (last (c' :: s)) eqn:E; [done|]. by apply last_None in E.
Qed.

(** ** Relating texts character by character *)

Lemma Forall2_ci_isspace s t :
  Forall2 ci_eq s t →
  Forall (λ c, Py.isspace c = false) s → Forall (λ c, Py.isspace c = false) t.
Proof.
  induction 1 as [|a b s t Hab _ IH]; [done|].
  intros [Ha Hs]%Forall_cons. constructor; [|by apply IH].
  by rewrite <-(ci_eq_isspace a b Hab).
Qed.

Lemma Forall2_ci_linebreak s t :
  Forall2 ci_eq s t →
  Forall (λ c, Py.is_linebreak c = false) s →
  Forall (λ c, Py.is_linebreak c = false) t.
Proof.
  induction 1 as [|a b s t Hab _ IH]; [done|].
  intros [Ha Hs]%Forall_cons. constructor; [|by apply IH].
  by rewrite <-(ci_eq_linebreak a b Hab).
Qed.

Lemma Forall2_ci_at s t : Forall2 ci_eq s t → 64 ∈ s ↔ 64 ∈ t.
Proof.
  induction 1 as [|a b s t Hab _ IH]; [done|].
  rewrite !elem_of_cons, IH. destruct (ci_eq_at a b Hab) as [H1 H2].
  split; (intros [E|?]; [left; symmetry; auto|by right]).
Qed.

(** ** Stripping *)

Lemma lstrip_if_id p s :
  (∀ c, head s = Some c → p c = false) → Py.lstrip_if p s = s.
Proof.
  destruct s as [|c s]; [done|]. intros H. simpl. by rewrite (H c eq_refl).
Qed.

Lemma lstrip_if_head p s c :
  head (Py.lstrip_if p s) = Some c → p c = false.
Proof.
  induction s as [|x s IH]; [done|]. simpl.
  destruct (p x) eqn:Hx; [done|]. by intros [= <-].
Qed.

Lemma rstrip_if_all p s :
  Forall (λ c, p c = false) s → Py.rstrip_if p s = s.
Proof.
  induction 1 as [|c s Hc _ IH]; [done|]. simpl. rewrite IH, Hc.
  by destruct s.
Qed.

Lemma rstrip_if_app p s t :
  Py.rstrip_if p (s ++ t)
  = match Py.rstrip_if p t with
    | [] => Py.rstrip_if p s
    | t' => s ++ t'
    end.
Proof.
  induction s as [|c s IH]; simpl.
  - by destruct (Py.rstrip_if p t).
  - rewrite IH. destruct (Py.rstrip_if p t) as [|y t'] eqn:Ht; [done|].
    by destruct s.
Qed.

Lemma rstrip_if_last p s c :
  last (Py.rstrip_if p s) = Some c → p c = false.
Proof.
  induction s as [|x s IH]; [done|]. simpl.
  destruct (Py.rstrip_if p s) as [|y t] eqn:Ht.
  - destruct (p x) eqn:Hx; [done|]. by intros [= <-].
  - rewrite last_cons_cons. apply IH.
Qed.

Lemma rstrip_if_id p s :
  (∀ c, last s = Some c → p c = false) → Py.rstrip_if p s = s.
Proof.
  induction s as [|x s IH]; [done|]. intros H. simpl.
  destruct s as [|y s].
  - simpl. by rewrite (H x eq_refl).
  - rewrite IH; [done|]. intros c Hc. apply H. by rewrite last_cons_cons.
Qed.

(** What is left of a text stripped on the right is a prefix of it, and
    the first character dropped, if any, is stripped. *)
Lemma rstrip_if_take p s :
  ∃ n, (n ≤ length s)%nat ∧ Py.rstrip_if p s = take n s
       ∧ (∀ c, s !! n = Some c → p c = true).
Proof.
  induction s as [|x s (n & Hn & IH & Hdrop)]; [by exists 0%nat|].
  simpl. rewrite IH. destruct (take n s) as [|y t] eqn:Ht.
  - destruct (p x) eqn:Hx.
    + exists 0%nat. split; [lia|]. split; [done|]. by intros ? [= <-].
    + exists 1%nat. split; [simpl; lia|]. split; [by destruct s|].
      simpl. intros c Hc. destruct n; [|by destruct s].
      apply Hdrop. done.
  - exists (S n). split; [simpl; lia|]. split; [by rewrite <-Ht|done].
Qed.

Lemma strip_if_Forall (P : N → Prop) p s :
  Forall P s → Forall P (Py.strip_if p s).
Proof.
  intros H. unfold Py.strip_if.
  destruct (rstrip_if_take p (Py.lstrip_if p s)) as (n & _ & -> & _).
  apply Forall_take. clear n.
  induction H as [|c s Hc Hs IH]; [constructor|]. simpl.
  destruct (p c); [done|]. by constructor.
Qed.

Lemma strip_stripped s : stripped (Py.strip s).
Proof.
  unfold Py.strip, Py.strip_if. split.
  - intros c Hc.
    destruct (rstrip_if_take Py.isspace (Py.lstrip_if Py.isspace s))
      as (n & _ & Heq & _).
    rewrite Heq in Hc. apply (lstrip_if_head _ s).
    destruct n; [done|]. by destruct (Py.lstrip_if Py.isspace s).
  - apply rstrip_if_last.
Qed.

Lemma stripped_strip s : stripped s → Py.strip s = s.
Proof.
  intros [Hh Hl]. unfold Py.strip, Py.strip_if.
  rewrite lstrip_if_id by done. by apply rstrip_if_id.
Qed.

Lemma Forall2_head {A B} (R : A → B → Prop) s t b :
  Forall2 R s t → head t = Some b → ∃ a, head s = Some a ∧ R a b.
Proof. destruct 1; [done|]. intros [= <-]. eauto. Qed.

Lemma Forall2_last {A B} (R : A → B → Prop) s t b :
  Forall2 R s t → last t = Some b → ∃ a, last s = Some a ∧ R a b.
Proof.
  induction 1 as [|x y s t Hxy Hst IH]; [done|].
  destruct Hst as [|x' y' s t Hxy' Hst].
  - intros [= <-]. eauto.
  - rewrite !last_cons_cons. apply IH.
Qed.

Lemma stripped_ci s t : Forall2 ci_eq s t → stripped s → stripped t.
Proof.
  intros Hst [Hh Hl]. split; intros b Hb.
  - destruct (Forall2_head _ _ _ _ Hst Hb) as (a & Ha & Hab).
    rewrite <-(ci_eq_isspace a b Hab). by apply Hh.
  - destruct (Forall2_last _ _ _ _ Hst Hb) as (a & Ha & Hab).
    rewrite <-(ci_eq_isspace a b Hab). by apply Hl.
Qed.

(** ** Lines *)

Lemma linebreak_isspace c : Py.is_linebreak c = true → Py.isspace c = true.
Proof.
  intros H. apply not_false_iff_true. intros H2. case_tests. bool_lia.
Qed.

Lemma splitlines_from_clean after_cr s :
  Forall (Forall (λ c, Py.is_linebreak c = false)) (Py.splitlines_from after_cr s).
Proof.
  revert after_cr. induction s as [|c s IH]; intros after_cr; [constructor|].
  cbn [Py.splitlines_from]. destruct (after_cr && (c =? 10)); [apply IH|].
  destruct (Py.is_linebreak c) eqn:Hc.
  - constructor; [constructor|apply IH].
  - specialize (IH false).
    destruct (Py.splitlines_from false s) as [|w ws]; [by repeat constructor|].
    apply Forall_cons in IH as [Hw Hws]. by repeat constructor.
Qed.

Lemma splitlines_from_Forall (P : N → Prop) after_cr s :
  Forall P s → Forall (Forall P) (Py.splitlines_from after_cr s).
Proof.
  intros H. revert after_cr.
  induction H as [|c s Hc Hs IH]; intros after_cr; [constructor|].
  cbn [Py.splitlines_from]. destruct (after_cr && (c =? 10)); [apply IH|].
  destruct (Py.is_linebreak c).
  - constructor; [constructor|apply IH].
  - specialize (IH false).
    destruct (Py.splitlines_from false s) as [|w ws]; [by repeat constructor|].
    apply Forall_cons in IH as [Hw Hws]. by repeat constructor.
Qed.

Lemma join_Forall (P : N → Prop) sep l :
  Forall P sep → Forall (Forall P) l → Forall P (Py.join sep l).
Proof.
  intros Hsep. induction 1 as [|w l Hw Hl IH]; [constructor|].
  destruct l as [|w' l]; [done|]. cbn [Py.join].
  rewrite !Forall_app. auto.
Qed.

(** A text without line boundaries is its own single line. *)
Lemma splitlines_join_id s :
  Forall (λ c, Py.is_linebreak c = false) s →
  Py.join (py " ") (Py.splitlines s) = s.
Proof.
  intros H. unfold Py.splitlines.
  assert (Hone : s ≠ [] → Py.splitlines_from false s = [s]).
  { induction H as [|c s Hc Hs IH]; [done|]. intros _.
    cbn [Py.splitlines_from andb]. rewrite Hc.
    destruct s as [|c' s]; [done|]. by rewrite IH. }
  destruct s as [|c s]; [done|]. by rewrite Hone.
Qed.

(** ** Words *)

Lemma fields_nonempty sep s : Py.fields sep s ≠ [].
Proof.
  destruct s as [|c s]; [done|]. simpl.
  destruct (sep c); [done|]. by destruct (Py.fields sep s).
Qed.

Lemma fields_no_sep sep s :
  Forall (Forall (λ c, sep c = false)) (Py.fields sep s).
Proof.
  induction s as [|c s IH]; [by repeat constructor|]. simpl.
  destruct (sep c) eqn:Hc; [by constructor|].
  destruct (Py.fields sep s) as [|w ws]; [by repeat constructor|].
  apply Forall_cons in IH as [Hw Hws]. by repeat constructor.
Qed.

Lemma fields_Forall (P : N → Prop) sep s :
  Forall P s → Forall (Forall P) (Py.fields sep s).
Proof.
  induction 1 as [|c s Hc Hs IH]; [by repeat constructor|]. simpl.
  destruct (sep c); [by constructor|].
  destruct (Py.fields sep s) as [|w ws]; [by repeat constructor|].
  apply Forall_cons in IH as [Hw Hws]. by repeat constructor.
Qed.

Lemma split_tokens s : Forall is_token (Py.split s).
Proof.
  unfold Py.split. apply Forall_forall. intros w Hw.
  apply list_elem_of_filter in Hw as [Hne Hw].
  split; [by destruct w|].
  pose proof (fields_no_sep Py.isspace s) as H. rewrite Forall_forall in H.
  by apply H.
Qed.

Lemma split_Forall (P : N → Prop) s : Forall P s → Forall (Forall P) (Py.split s).
Proof.
  intros H. unfold Py.split. apply Forall_forall. intros w Hw.
  apply list_elem_of_filter in Hw as [_ Hw].
  pose proof (fields_Forall P Py.isspace s H) as H'. rewrite Forall_forall in H'.
  by apply H'.
Qed.

Lemma fields_token sep w :
  Forall (λ c, sep c = false) w → Py.fields sep w = [w].
Proof.
  induction 1 as [|c w Hc Hw IH]; [done|]. simpl. by rewrite Hc, IH.
Qed.

Lemma fields_token_app sep w c rest :
  Forall (λ c, sep c = false) w → sep c = true →
  Py.fields sep (w ++ c :: rest) = w :: Py.fields sep rest.
Proof.
  intros Hw Hc. induction Hw as [|x w Hx Hw IH]; simpl.
  - by rewrite Hc.
  - by rewrite Hx, IH.
Qed.

(** Splitting the words joined by single spaces gives the words back. *)
Lemma split_join ws : Forall is_token ws → Py.split (Py.join (py " ") ws) = ws.
Proof.
  unfold Py.split. induction 1 as [|w ws [Hne Hw] Hws IH]; [done|].
  destruct ws as [|w' ws].
  - cbn [Py.join]. rewrite fields_token by done.
    rewrite filter_cons, decide_True by (by destruct w). done.
  - change (Py.join (py " ") (w :: w' :: ws))
      with (w ++ 32 :: Py.join (py " ") (w' :: ws)).
    rewrite fields_token_app by done.
    rewrite filter_cons, decide_True by (by destruct w). by rewrite IH.
Qed.

Lemma join_tokens_stripped ws :
  Forall is_token ws → stripped (Py.join (py " ") ws).
Proof.
  induction 1 as [|w ws [Hne Hw] Hws [IHh IHl]]; [by split|].
  destruct ws as [|w' ws].
  - cbn [Py.join]. split; intros c Hc.
    + destruct Hw as [|x w Hx Hw]; [done|]. by injection Hc as <-.
    + apply last_Some_elem_of in Hc. rewrite Forall_forall in Hw. by apply Hw.
  - change (Py.join (py " ") (w :: w' :: ws))
      with (w ++ 32 :: Py.join (py " ") (w' :: ws)).
    split; intros c Hc.
    + destruct Hw as [|x w Hx Hw]; [done|]. by injection Hc as <-.
    + rewrite last_app_cons in Hc. apply IHl.
      destruct (Py.join (py " ") (w' :: ws)) as [|y t] eqn:Hj; [|by rewrite last_cons_cons in Hc].
      exfalso. apply Forall_cons in Hws as [[Hne' _] _].
      destruct w' as [|??]; [done|]. by destruct ws.
Qed.

Lemma join_tokens_no_linebreak ws :
  Forall is_token ws →
  Forall (λ c, Py.is_linebreak c = false) (Py.join (py " ") ws).
Proof.
  intros H. apply join_Forall; [by repeat constructor|].
  eapply Forall_impl; [exact H|]. intros w [_ Hw].
  eapply Forall_impl; [exact Hw|]. intros c Hc.
  apply not_true_is_false. intros Hl. apply linebreak_isspace in Hl. congruence.
Qed.

(** Title-casing words joined by single spaces gives words joined by
    single spaces. *)
Lemma title_from_join p ws :
  Forall is_token ws → Forall is_ascii ws →
  ∃ ws', Py.title_from p (Py.join (py " ") ws) = Py.join (py " ") ws'
         ∧ Forall is_token ws'.
Proof.
  intros Ht. revert p. induction Ht as [|w ws [Hne Hw] Hws IH]; intros p Ha.
  { by exists []. }
  apply Forall_cons in Ha as [Haw Ha].
  assert (Htw : ∀ q, is_token (Py.title_from q w)).
  { intros q. pose proof (title_from_ci q w Haw) as Hci. split.
    - intros Heq. rewrite Heq in Hci. apply Forall2_nil_inv_r in Hci. done.
    - by eapply Forall2_ci_isspace. }
  destruct ws as [|w' ws].
  - exists [Py.title_from p w]. split; [done|].
    constructor; [apply Htw|constructor].
  - change (Py.join (py " ") (w :: w' :: ws))
      with (w ++ 32 :: Py.join (py " ") (w' :: ws)).
    rewrite title_from_app. rewrite title_from_cons_ascii by lia.
    destruct (IH (Py.is_cased 32) Ha) as (ws' & Heq & Hws').
    rewrite Heq.
    assert (title_char (match last w with Some c => Py.is_cased c | None => p end) 32 = 32)
      as -> by (by destruct (match last w with Some c => _ | None => _ end)).
    exists (Py.title_from p w :: ws'). split; [|constructor; [apply Htw|done]].
    destruct ws' as [|w1 ws'].
    + exfalso. apply (f_equal length) in Heq.
      pose proof (title_from_ci (Py.is_cased 32) (Py.join (py " ") (w' :: ws))) as Hci.
      assert (Hj : is_ascii (Py.join (py " ") (w' :: ws))).
      { apply join_Forall; [by repeat constructor|done]. }
      apply Hci, Forall2_length in Hj. rewrite <-Hj in Heq.
      apply Forall_cons in Hws as [[Hne' _] _].
      destruct w' as [|??]; [done|]. by destruct ws.
    + done.
Qed.

(** ** Matching up to case *)

Lemma cls_alpha p a :
  Py.is_alpha_az a = true →
  Re.cls true p a = p (Py.lower1 a) || p (Py.upper1 (Py.lower1 a)).
Proof.
  intros Ha. unfold Re.cls. cbn [andb].
  destruct (Py.is_upper_az a) eqn:Hu.
  - assert (Py.upper1 a = a) as -> by (revert Hu; case_tests; split_tests).
    assert (Py.upper1 (Py.lower1 a) = a) as ->
      by (revert Hu; case_tests; split_tests).
    by destruct (p a), (p (Py.lower1 a)).
  - assert (Py.lower1 a = a) as ->.
    { unfold Py.lower1. by rewrite Hu. }
    by destruct (p a), (p (Py.upper1 a)).
Qed.

(** Under IGNORECASE a class does not tell the case variants of a
    character apart. *)
Lemma cls_ci p a b : ci_eq a b → Re.cls true p a = Re.cls true p b.
Proof.
  intros Hab. destruct (ci_eq_cases a b Hab) as [->|[Ha Hb]]; [done|].
  rewrite !cls_alpha by done. by rewrite Hab.
Qed.

Lemma is_word_opt_ci o o' :
  option_Forall2 ci_eq o o' → Re.is_word_opt o = Re.is_word_opt o'.
Proof. destruct 1; [|done]. by apply ci_eq_word. Qed.

Lemma rep_ci ok lo hi b b' i s s' :
  (∀ x y, ci_eq x y → ok x = ok y) →
  option_Forall2 ci_eq b b' → Forall2 ci_eq s s' →
  Forall2 cursor_ci (Re.rep ok lo hi b i s) (Re.rep ok lo hi b' i s').
Proof.
  intros Hok Hb Hs. revert lo hi b b' i Hb.
  induction Hs as [|x y s s' Hxy Hs IH]; intros lo hi b b' i Hb.
  - simpl. destruct lo; repeat constructor; done.
  - cbn [Re.rep]. rewrite (Hok x y Hxy).
    assert (Hstop : Forall2 cursor_ci
      match lo with O => [Re.Cursor b i (x :: s)] | S _ => [] end
      match lo with O => [Re.Cursor b' i (y :: s')] | S _ => [] end).
    { destruct lo; repeat constructor; done. }
    destruct (ok y && negb (bool_decide (hi = Some 0%nat))); [|done].
    apply Forall2_app; [|done]. apply IH. by constructor.
Qed.

(** With IGNORECASE a pattern matches two subjects that are equal up to
    case in the same ways. *)
Lemma run_ci r c d g g' :
  cursor_ci c d →
  Forall2 (λ x y, cursor_ci x.1 y.1) (Re.run true r c g) (Re.run true r d g').
Proof.
  revert c d g g'.
  induction r as [|p|r1 IH1 r2 IH2|r1 IH1 r2 IH2|p lo hi|r1 IH1| | |n r1 IH1];
    intros c d g g' Hcd; cbn [Re.run].
  - constructor; [done|constructor].
  - destruct Hcd as (Hpos & Hb & Hs). destruct Hs as [|x y s s' Hxy Hs]; [constructor|].
    rewrite (cls_ci p x y Hxy). destruct (Re.cls true p y); [|constructor].
    constructor; [|constructor]. split; [cbn; by rewrite Hpos|].
    split; cbn; [by constructor|done].
  - eapply Forall2_bind, Forall2_impl; [by apply (IH1 c d g g')|].
    intros [c1 g1] [d1 g1'] H. by apply IH2.
  - apply Forall2_app; auto.
  - apply Forall2_fmap. destruct Hcd as (Hpos & Hb & Hs). rewrite Hpos.
    eapply Forall2_impl; [apply rep_ci; [apply cls_ci|done..]|done].
  - apply Forall2_app; [auto|]. constructor; [done|constructor].
  - destruct Hcd as (Hpos & Hb & Hs).
    rewrite (is_word_opt_ci _ _ Hb).
    assert (Re.is_word_opt (head (Re.rest c)) = Re.is_word_opt (head (Re.rest d))) as ->.
    { apply is_word_opt_ci. destruct Hs; by constructor. }
    destruct (xorb _ _); [|constructor].
    constructor; [by split|constructor].
  - destruct Hcd as (Hpos & Hb & Hs).
    destruct (Re.rest c) as [|x s] eqn:Hc; destruct (Re.rest d) as [|y s'] eqn:Hd;
      try by apply Forall2_length in Hs.
    { constructor; [|constructor]. split; [done|]. split; [done|].
      cbn. rewrite Hc, Hd. constructor. }
    apply Forall2_cons in Hs as [Hxy Hs].
    destruct Hs as [|x' y' s s' Hxy' Hs]; [|constructor].
    assert ((x =? 10) = (y =? 10)) as ->.
    { destruct (ci_eq_cases x y Hxy) as [->|[Hx Hy]]; [done|].
      revert Hx Hy. case_tests. split_tests. }
    destruct (y =? 10); [|constructor].
    constructor; [|constructor]. split; [done|]. split; [done|].
    cbn. rewrite Hc, Hd. by repeat constructor.
  - eapply Forall2_bind, Forall2_impl; [by apply (IH1 c d g g')|].
    intros [c1 g1] [d1 g1'] H. constructor; [done|constructor].
Qed.

Lemma cursor_at_ci s t k :
  Forall2 ci_eq s t → cursor_ci (cursor_at None 0 s k) (cursor_at None 0 t k).
Proof.
  intros H. split; [done|]. split; cbn.
  - destruct k as [|j]; cbn; [constructor|].
    destruct (s !! j) as [a|] eqn:Ha.
    + destruct (Forall2_lookup_l _ _ _ _ _ H Ha) as (b & -> & Hab). by constructor.
    + apply lookup_ge_None in Ha. rewrite (Forall2_length _ _ _ H) in Ha.
      apply lookup_ge_None in Ha. rewrite Ha. constructor.
  - by apply Forall2_drop.
Qed.

(** Where a pattern does not match one subject, it does not match a
    subject equal to it up to case. *)
Lemma run_ci_nil r s t k :
  Forall2 ci_eq s t →
  Re.run true r (cursor_at None 0 s k) ∅ = [] →
  Re.run true r (cursor_at None 0 t k) ∅ = [].
Proof.
  intros Hst Hs.
  pose proof (run_ci r _ _ ∅ ∅ (cursor_at_ci s t k Hst)) as H.
  rewrite Hs in H. by apply Forall2_nil_inv_l in H.
Qed.

(** ** Matching in a longer subject *)

Lemma rep_complete ok lo hi b i s k :
  (k ≤ length s)%nat → (lo ≤ k)%nat →
  (∀ h, hi = Some h → (k ≤ h)%nat) →
  Forall (λ x, ok x = true) (take k s) →
  cursor_at b i s k ∈ Re.rep ok lo hi b i s.
Proof.
  revert lo hi b i k. induction s as [|x s IH]; intros lo hi b i k Hk Hlo Hhi Hall.
  - simpl in Hk. assert (k = 0%nat) as -> by lia. assert (lo = 0%nat) as -> by lia.
    unfold cursor_at. cbn. rewrite Nat.add_0_r. apply list_elem_of_singleton. done.
  - cbn [Re.rep]. destruct k as [|k].
    + assert (lo = 0%nat) as -> by lia.
      assert (cursor_at b i (x :: s) 0 = Re.Cursor b i (x :: s)) as ->.
      { unfold cursor_at. cbn. by rewrite Nat.add_0_r. }
      destruct (ok x && _); [apply elem_of_app; right|]; by apply list_elem_of_singleton.
    + cbn [take] in Hall. apply Forall_cons in Hall as [Hx Hall].
      rewrite Hx. cbn [andb].
      assert (hi ≠ Some 0%nat) as Hne.
      { intros ->. specialize (Hhi _ eq_refl). lia. }
      rewrite bool_decide_eq_false_2 by done. cbn [negb].
      apply elem_of_app. left.
      assert (cursor_at b i (x :: s) (S k) = cursor_at (Some x) (S i) s k) as ->.
      { unfold cursor_at. cbn [drop]. f_equal; try lia; by destruct k. }
      apply IH; [simpl in Hk; lia|lia| |done].
      intros h Hh. destruct hi as [h0|]; [|done]. injection Hh as <-.
      specialize (Hhi _ eq_refl). lia.
Qed.

Lemma char_before_end_advance c k :
  (k ≤ length (Re.rest c))%nat →
  char_before_end (advance c k) = char_before_end c.
Proof.
  intros Hk. unfold char_before_end, advance, cursor_at. cbn [Re.before Re.rest].
  rewrite char_before_drop by done. rewrite length_drop. f_equal. lia.
Qed.

Lemma extend_cursor_at b i s e k :
  (k ≤ length s)%nat →
  cursor_at b i (s ++ e) k = extend (cursor_at b i s k) e.
Proof.
  intros Hk. unfold extend, cursor_at. cbn. f_equal.
  - destruct k as [|j]; [done|]. cbn. apply lookup_app_l. lia.
  - by apply drop_app_le.
Qed.

Lemma extend_advance c e k :
  (k ≤ length (Re.rest c))%nat →
  advance (extend c e) k = extend (advance c k) e.
Proof. intros. unfold advance. cbn. by apply extend_cursor_at. Qed.

(** A way a pattern without [$] matches stays one when text is appended
    to the subject, unless a word starts right at the end of a word. *)
Lemma run_extend ic r e c g c' g' :
  no_eos r = true →
  (Re.is_word_opt (head e) = true → Re.is_word_opt (char_before_end c) = false) →
  (c', g') ∈ Re.run ic r c g →
  (extend c' e, g') ∈ Re.run ic r (extend c e) g.
Proof.
  revert c g c' g'.
  induction r as [|p|r1 IH1 r2 IH2|r1 IH1 r2 IH2|p lo hi|r1 IH1| | |n r1 IH1];
    intros c g c' g' Hr He H; cbn [no_eos] in Hr.
  - cbn in H. apply list_elem_of_singleton in H as [= -> ->].
    by apply list_elem_of_singleton.
  - apply run_Cls in H as (x & s' & Hrest & Hx & -> & ->).
    cbn [Re.run extend Re.rest Re.pos]. rewrite Hrest. cbn [app].
    rewrite Hx. by apply list_elem_of_singleton.
  - apply andb_true_iff in Hr as [Hr1 Hr2].
    apply run_Seq in H as (c1 & g1 & H1 & H2).
    cbn [Re.run]. apply list_elem_of_bind. exists (extend c1 e, g1).
    split; [|by apply IH1].
    apply IH2; [done| |done].
    apply run_advance in H1 as (k & Hk & ->).
    by rewrite char_before_end_advance.
  - apply andb_true_iff in Hr as [Hr1 Hr2].
    apply run_Alt in H. cbn [Re.run]. apply elem_of_app.
    destruct H; [left|right]; auto.
  - apply run_Rep in H as (-> & k & Hk & Hlo & Hhi & Hall & ->).
    cbn [Re.run]. apply list_elem_of_fmap. eexists. split; [done|].
    rewrite <-extend_advance by done. unfold advance. cbn [extend Re.before Re.pos Re.rest].
    apply rep_complete; [rewrite length_app; lia|done|done|].
    by rewrite take_app_le.
  - apply run_Opt in H. cbn [Re.run]. apply elem_of_app.
    destruct H as [H|[= -> ->]]; [left; auto|right].
    by apply list_elem_of_singleton.
  - apply run_WordB in H as (-> & -> & Hx).
    cbn [Re.run extend Re.before Re.rest].
    assert (xorb (Re.is_word_opt (Re.before c))
                 (Re.is_word_opt (head (Re.rest c ++ e))) = true) as ->;
      [|by apply list_elem_of_singleton].
    destruct c as [b i [|x s]]; [|done]. cbn in *.
    unfold char_before_end in He. cbn in He.
    destruct (Re.is_word_opt (head e)); [|done].
    rewrite He in Hx by done. done.
  - done.
  - apply run_Group in H as (g1 & H1 & ->).
    cbn [Re.run]. apply list_elem_of_bind. exists (extend c' e, g1).
    split; [|by apply IH1].
    apply run_advance in H1 as (k & Hk & ->).
    cbn [extend Re.pos Re.rest]. rewrite pos_advance.
    rewrite take_app_le by done. by apply list_elem_of_singleton.
Qed.

(** ** Deleting to the end of the subject *)

Lemma cursor_at_0 b i s : cursor_at b i s 0 = Re.Cursor b i s.
Proof. unfold cursor_at. cbn. by rewrite Nat.add_0_r. Qed.

Lemma cursor_at_S b i x s k :
  cursor_at b i (x :: s) (S k) = cursor_at (Some x) (S i) s k.
Proof. unfold cursor_at. cbn [drop]. f_equal; try lia; by destruct k. Qed.

Lemma sub_from_skip_all ic r b i s :
  Re.sub_from ic r [] b i (length s) s = [].
Proof.
  revert b i. induction s as [|x s IH]; intros b i; cbn.
  - by destruct (Re.run ic r (Re.Cursor b i []) ∅) as [|[??]?].
  - apply IH.
Qed.

(** When the first match of a pattern starts at [n] and reaches the end
    of the subject, deleting the matches leaves the first [n] characters;
    so it does when there is no match and [n] is the length. *)
Lemma sub_from_take ic r b i s n :
  (n ≤ length s)%nat →
  (∀ j, (j < n)%nat → Re.run ic r (cursor_at b i s j) ∅ = []) →
  ((n < length s)%nat →
   ∃ c' g tl, Re.run ic r (cursor_at b i s n) ∅ = (c', g) :: tl
              ∧ Re.pos c' = (i + length s)%nat) →
  Re.sub_from ic r [] b i 0 s = take n s.
Proof.
  revert b i n. induction s as [|x s IH]; intros b i n Hn Hbefore Hat.
  - cbn. rewrite take_nil. by destruct (Re.run ic r (Re.Cursor b i []) ∅) as [|[??]?].
  - cbn [Re.sub_from]. destruct n as [|n].
    + destruct Hat as (c' & g & tl & Hrun & Hpos); [simpl; lia|].
      rewrite cursor_at_0 in Hrun. rewrite Hrun, Hpos.
      replace (i + length (x :: s) - i)%nat with (S (length s)) by (simpl; lia).
      cbn [app take]. apply sub_from_skip_all.
    + pose proof (Hbefore 0%nat ltac:(lia)) as H0. rewrite cursor_at_0 in H0.
      rewrite H0. cbn [take]. f_equal. apply IH.
      * simpl in Hn. lia.
      * intros j Hj. rewrite <-(cursor_at_S b i x s j). apply Hbefore. lia.
      * intros Hlt. destruct Hat as (c' & g & tl & Hrun & Hpos); [simpl; lia|].
        exists c', g, tl. rewrite <-(cursor_at_S b i x s n). split; [done|].
        rewrite Hpos. simpl. lia.
Qed.

(** ** The pattern for a trailing date *)

Lemma run_Seq_intro ic r1 r2 c g c1 g1 x :
  (c1, g1) ∈ Re.run ic r1 c g → x ∈ Re.run ic r2 c1 g1 →
  x ∈ Re.run ic (Re.Seq r1 r2) c g.
Proof.
  intros H1 H2. cbn [Re.run]. apply list_elem_of_bind. by exists (c1, g1).
Qed.

Lemma run_Group_intro ic n r c g c' g1 :
  (c', g1) ∈ Re.run ic r c g →
  (c', <[n := take (Re.pos c' - Re.pos c) (Re.rest c)]> g1)
    ∈ Re.run ic (Re.Group n r) c g.
Proof.
  intros H. cbn [Re.run]. apply list_elem_of_bind. exists (c', g1).
  split; [by apply list_elem_of_singleton|done].
Qed.

Lemma TRAILING_DATE_RE_unfold :
  TRAILING_DATE_RE =
  Re.Seq (Re.Group 1 (Re.Seq Re.WordB (Re.Seq MONTH_RE
            (Re.Seq Re.WordB (Re.Star Re.dot))))) Re.Eos.
Proof. reflexivity. Qed.

Lemma MONTH_WORD_unfold :
  MONTH_WORD = Re.Seq Re.WordB (Re.Seq MONTH_RE Re.WordB).
Proof. reflexivity. Qed.

(** Where the pattern matches, a month name stands between two word
    boundaries. *)
Lemma TRAILING_DATE_RE_month_word ic c g x :
  x ∈ Re.run ic TRAILING_DATE_RE c g →
  ∃ y, y ∈ Re.run ic MONTH_WORD c g.
Proof.
  rewrite TRAILING_DATE_RE_unfold, MONTH_WORD_unfold. intros H.
  apply run_Seq in H as (c1 & g1 & H & _).
  apply run_Group in H as (g2 & H & _).
  apply run_Seq in H as (c2 & g3 & Hb & H).
  apply run_Seq in H as (c3 & g4 & Hm & H).
  apply run_Seq in H as (c4 & g5 & Hb' & _).
  exists (c4, g5). eapply run_Seq_intro; [done|]. by eapply run_Seq_intro.
Qed.

(** In a subject without line feeds the pattern matches wherever a month
    name stands between two word boundaries. *)
Lemma MONTH_WORD_trailing ic c g y :
  Forall (λ x, x ≠ 10) (Re.rest c) →
  y ∈ Re.run ic MONTH_WORD c g →
  ∃ x, x ∈ Re.run ic TRAILING_DATE_RE c g.
Proof.
  rewrite TRAILING_DATE_RE_unfold, MONTH_WORD_unfold. intros Hnl H.
  destruct y as [c4 g4].
  pose proof (run_advance _ _ _ _ _ _ H) as (k & Hk & Hc4).
  apply run_Seq in H as (c2 & g2 & Hb & H).
  apply run_Seq in H as (c3 & g3 & Hm & Hb').
  set (c5 := advance c4 (length (Re.rest c4))).
  assert (H5 : (c5, g4) ∈ Re.run ic (Re.Star Re.dot) c4 g4).
  { cbn [Re.run Re.Star]. apply list_elem_of_fmap. exists c5. split; [done|].
    apply rep_complete; [done|lia|done|].
    rewrite firstn_all. subst c4. cbn. apply Forall_drop.
    eapply Forall_impl; [exact Hnl|]. intros x Hx. unfold Re.cls, Re.dot.
    apply N.eqb_neq in Hx. by rewrite Hx. }
  assert (Hend : Re.rest c5 = []).
  { unfold c5, advance, cursor_at. cbn. by rewrite drop_all. }
  eexists. eapply run_Seq_intro.
  - eapply run_Group_intro.
    eapply run_Seq_intro; [exact Hb|]. eapply run_Seq_intro; [exact Hm|].
    eapply run_Seq_intro; [exact Hb'|exact H5].
  - cbn [Re.run]. rewrite Hend. by apply list_elem_of_singleton.
Qed.

(** In a subject without line feeds a match goes to the end. *)
Lemma TRAILING_DATE_RE_end ic c g c' g' :
  Forall (λ x, x ≠ 10) (Re.rest c) →
  (c', g') ∈ Re.run ic TRAILING_DATE_RE c g →
  Re.pos c' = (Re.pos c + length (Re.rest c))%nat.
Proof.
  intros Hnl H. pose proof (run_advance _ _ _ _ _ _ H) as (k & Hk & Hc').
  rewrite TRAILING_DATE_RE_unfold in H.
  apply run_Seq in H as (c1 & g1 & _ & H). cbn [Re.run] in H.
  assert (Hrest : Re.rest c' = []).
  { destruct (Re.rest c1) as [|x [|??]] eqn:H1; try by apply not_elem_of_nil in H.
    - apply list_elem_of_singleton in H as [= -> ->]. done.
    - destruct (N.eqb_spec x 10) as [->|]; [|by apply not_elem_of_nil in H].
      apply list_elem_of_singleton in H as [= -> ->].
      rewrite Hc' in H1. cbn in H1.
      assert (Hd : Forall (λ x, x ≠ 10) (drop k (Re.rest c))) by (by apply Forall_drop).
      rewrite H1 in Hd. by apply Forall_cons in Hd as [? _]. }
  rewrite Hc' in Hrest |- *. cbn in *.
  apply (f_equal length) in Hrest. rewrite length_drop in Hrest. simpl in Hrest. lia.
Qed.

Lemma MONTH_WORD_no_eos : no_eos MONTH_WORD = true.
Proof. reflexivity. Qed.

Lemma isspace_not_word c : Py.isspace c = true → Py.is_word c = false.
Proof.
  intros H. apply not_true_is_false. intros H2. case_tests. bool_lia.
Qed.

Lemma linebreak_free_no_lf s :
  Forall (λ c, Py.is_linebreak c = false) s → Forall (λ x, x ≠ 10) s.
Proof. intros H. eapply Forall_impl; [exact H|]. by intros x Hx ->. Qed.

Lemma nil_or_elem {A} (l : list A) : l = [] ∨ ∃ x, x ∈ l.
Proof. destruct l as [|x l]; [by left|]. right. exists x. left. Qed.

(** What the deletion of a trailing date leaves: a prefix of the text
    with no match before its end, and a match at its end unless it is the
    whole text. *)
Lemma sub_trailing_date s :
  Forall (λ x, x ≠ 10) s →
  ∃ n, (n ≤ length s)%nat
    ∧ Re.sub true TRAILING_DATE_RE [] s = take n s
    ∧ (∀ j, (j < n)%nat → Re.run true TRAILING_DATE_RE (cursor_at None 0 s j) ∅ = [])
    ∧ ((n < length s)%nat →
       ∃ x, x ∈ Re.run true TRAILING_DATE_RE (cursor_at None 0 s n) ∅).
Proof.
  intros Hnl. destruct (Re.search true TRAILING_DATE_RE s) as [m|] eqn:Hs.
  - apply search_from_Some in Hs as (k & c' & tl & Hk & _ & Hrun & _ & Hbefore).
    exists k. split; [done|]. split; [|split; [done|]].
    + apply sub_from_take; [done|done|]. intros _. exists c', (Re.m_groups m), tl.
      split; [done|].
      assert (Hin : (c', Re.m_groups m) ∈ Re.run true TRAILING_DATE_RE (cursor_at None 0 s k) ∅)
        by (rewrite Hrun; left).
      apply TRAILING_DATE_RE_end in Hin; [|by apply Forall_drop].
      rewrite Hin. cbn. rewrite length_drop. lia.
    + intros _. eexists. rewrite Hrun. left.
  - pose proof (search_from_None _ _ _ _ _ Hs) as Hnone.
    exists (length s). split; [done|]. split; [|split].
    + apply sub_from_take; [done| |lia]. intros j Hj. apply Hnone. lia.
    + intros j Hj. apply Hnone. lia.
    + lia.
Qed.

(** Deleting a trailing date and stripping the rest leaves a text in
    which, whatever the case of its letters, there is no date to delete. *)
Lemma sub_trailing_date_fixed s t :
  Forall (λ c, Py.is_linebreak c = false) s → stripped s →
  Forall2 ci_eq (Py.strip (Re.sub true TRAILING_DATE_RE [] s)) t →
  Re.sub true TRAILING_DATE_RE [] t = t.
Proof.
  intros Hlb Hstripped Hci. pose proof (linebreak_free_no_lf s Hlb) as Hnl.
  destruct (sub_trailing_date s Hnl) as (n & Hn & Hsub & Hbefore & Hat).
  rewrite Hsub in Hci.
  assert (Hstrip : ∃ n', (n' ≤ n)%nat ∧ Py.strip (take n s) = take n' s
    ∧ ((n' < n)%nat → ∀ c, s !! n' = Some c → Py.isspace c = true)).
  { unfold Py.strip, Py.strip_if. rewrite (lstrip_if_id Py.isspace (take n s)).
    - destruct (rstrip_if_take Py.isspace (take n s)) as (n' & Hn' & Heq & Hdrop).
      rewrite length_take in Hn'. exists n'. split; [lia|].
      split; [rewrite Heq, take_take; f_equal; lia|].
      intros Hlt c Hc. apply Hdrop. by rewrite lookup_take_lt.
    - intros c Hc. destruct Hstripped as [Hh _]. apply Hh.
      destruct n; [done|]. by destruct s. }
  destruct Hstrip as (n' & Hn' & Heq & Hspace). rewrite Heq in Hci.
  unfold Re.sub. rewrite (sub_from_take _ _ _ _ _ (length t)); [by rewrite firstn_all|done| |lia].
  intros j Hj. apply (run_ci_nil _ (take n' s) t j Hci).
  pose proof (Forall2_length _ _ _ Hci) as Hlen. rewrite length_take in Hlen.
  assert (j < n')%nat as Hjn by lia.
  destruct (nil_or_elem (Re.run true TRAILING_DATE_RE (cursor_at None 0 (take n' s) j) ∅))
    as [|[x Hx]]; [done|]. exfalso.
  apply TRAILING_DATE_RE_month_word in Hx as [[c1 g1] Hx].
  apply (run_extend _ _ (drop n' s)) in Hx; [|apply MONTH_WORD_no_eos|].
  - rewrite <-extend_cursor_at in Hx by (rewrite length_take; lia).
    rewrite take_drop in Hx.
    apply MONTH_WORD_trailing in Hx as [y Hy]; [|by apply Forall_drop].
    rewrite Hbefore in Hy by lia. by apply not_elem_of_nil in Hy.
  - intros Hw. unfold char_before_end. cbn [Re.before Re.rest cursor_at].
    rewrite char_before_drop by (rewrite length_take; lia).
    rewrite length_drop, length_take.
    replace (j + (n' `min` length s - j))%nat with n' by lia.
    destruct (decide (n' < n)%nat) as [Hlt|Hge].
    + destruct (drop n' s) as [|c e] eqn:Hd; [done|]. cbn in Hw.
      assert (s !! n' = Some c) as Hc.
      { rewrite <-(Nat.add_0_r n'), <-lookup_drop, Hd. done. }
      apply Hspace, isspace_not_word in Hc; [|done]. congruence.
    + assert (n' = n) as -> by lia.
      destruct (decide (n < length s)%nat) as [Hlt|Hge'].
      * destruct (Hat Hlt) as [y Hy].
        apply TRAILING_DATE_RE_month_word in Hy as [[c2 g2] Hy].
        rewrite MONTH_WORD_unfold in Hy.
        apply run_Seq in Hy as (c3 & g3 & Hb & _).
        apply run_WordB in Hb as (_ & _ & Hb). cbn in Hb.
        rewrite Hw in Hb.
        assert (char_before None (take n s) n = char_before None s n) as ->.
        { destruct n as [|n0]; [done|]. cbn. apply lookup_take_lt. lia. }
        by destruct (Re.is_word_opt (char_before None s n)).
      * rewrite drop_ge in Hw by lia. done.
Qed.

(** ** Names the normalizer leaves alone *)

Lemma split1_app c a b :
  c ∉ a → Py.split1 c (a ++ c :: b) = (a, b).
Proof.
  induction a as [|x a IH]; intros Hc; cbn.
  - by rewrite N.eqb_refl.
  - apply not_elem_of_cons in Hc as [Hx Ha].
    assert ((x =? c) = false) as -> by (apply N.eqb_neq; congruence).
    by rewrite IH.
Qed.

Lemma split1_spec c s :
  c ∈ s → ∃ a b, s = a ++ c :: b ∧ (c ∉ a) ∧ Py.split1 c s = (a, b).
Proof.
  intros H. apply list_elem_of_split_l in H as (a & b & -> & Ha).
  exists a, b. split; [done|]. split; [done|]. by apply split1_app.
Qed.

Lemma strip_clean s :
  Forall (λ c, Py.is_linebreak c = false) s → stripped s →
  Py.strip (Py.join (py " ") (Py.splitlines s)) = s.
Proof. intros Hlb Hs. rewrite splitlines_join_id by done. by apply stripped_strip. Qed.

Lemma strip_space_after a :
  stripped a → Py.strip (a ++ [32]) = a.
Proof.
  intros [Hh Hl]. unfold Py.strip, Py.strip_if.
  destruct a as [|c a]; [done|].
  rewrite (lstrip_if_id Py.isspace ((c :: a) ++ [32])) by (intros ? [= <-]; by apply Hh).
  rewrite rstrip_if_app.
  replace (Py.rstrip_if Py.isspace [32]) with (@nil N) by done.
  by apply rstrip_if_id.
Qed.

Lemma strip_space_before b :
  stripped b → Py.strip (32 :: b) = b.
Proof. intros Hb. rewrite <-(stripped_strip b Hb) at 2. done. Qed.

Lemma rstrip_if_cons_keep p c s :
  p c = false → Py.rstrip_if p (c :: s) = c :: Py.rstrip_if p s.
Proof. intros Hc. cbn. rewrite Hc. by destruct (Py.rstrip_if p s). Qed.

Lemma rstrip_if_cons_nonempty p c s :
  Py.rstrip_if p s ≠ [] → Py.rstrip_if p (c :: s) = c :: Py.rstrip_if p s.
Proof. intros H. cbn. by destruct (Py.rstrip_if p s). Qed.

(** Stripping [a @ b], for stripped sides, removes at most the space
    next to an empty side. *)
Lemma strip_at_form a b :
  stripped a → stripped b →
  ∃ a1 b1, Py.strip (a ++ [32; 64; 32] ++ b) = a1 ++ 64 :: b1
    ∧ Py.strip a1 = a ∧ Py.strip b1 = b ∧ (64 ∉ a → 64 ∉ a1).
Proof.
  intros Ha Hb.
  exists (match a with [] => [] | _ => a ++ [32] end),
         (match b with [] => [] | _ => 32 :: b end).
  split; [|split; [|split]].
  - unfold Py.strip, Py.strip_if.
    assert (Py.lstrip_if Py.isspace (a ++ [32; 64; 32] ++ b)
            = match a with [] => [] | _ => a ++ [32] end ++ 64 :: 32 :: b) as ->.
    { destruct a as [|c a]; [reflexivity|].
      rewrite lstrip_if_id; [by rewrite <-app_assoc|].
      intros ? [= <-]. by apply (proj1 Ha). }
    rewrite rstrip_if_app, rstrip_if_cons_keep by done.
    destruct b as [|c b]; [destruct a; reflexivity|].
    rewrite (rstrip_if_cons_nonempty _ 32), rstrip_if_id;
      [by destruct a|apply (proj2 Hb)|by rewrite rstrip_if_id by apply (proj2 Hb)].
  - destruct a as [|c a]; [done|]. by apply strip_space_after.
  - destruct b as [|c b]; [done|]. by apply strip_space_before.
  - intros Hin. destruct a as [|c a]; [by apply not_elem_of_nil|].
    rewrite elem_of_app, list_elem_of_singleton. intros [?|?]; done.
Qed.

(** A name [a @ b] with stripped, title-cased sides and no date after the
    home side is what the normalizer makes of itself. *)
Lemma normalize_game_name_at_form a b :
  stripped a → stripped b →
  Forall (λ c, Py.is_linebreak c = false) a →
  Forall (λ c, Py.is_linebreak c = false) b →
  64 ∉ a → Py.title a = a → Py.title b = b →
  Re.sub true TRAILING_DATE_RE [] b = b →
  normalize_game_name (a ++ py " @ " ++ b) = a ++ py " @ " ++ b.
Proof.
  intros Ha Hb Hla Hlb Hat Hta Htb Hsub.
  change (py " @ ") with [32; 64; 32].
  destruct (strip_at_form a b Ha Hb) as (a1 & b1 & Hstrip & Ha1 & Hb1 & Hat1).
  unfold normalize_game_name.
  rewrite splitlines_join_id.
  2: { rewrite !Forall_app. split; [done|]. split; [by repeat constructor|done]. }
  rewrite Hstrip.
  rewrite bool_decide_eq_true_2 by (apply elem_of_app; right; left).
  rewrite split1_app by auto. cbv beta iota.
  rewrite Ha1, Hb1, Hsub, (stripped_strip b Hb), Hta, Htb. done.
Qed.

(** Title-cased words joined by single spaces, without [@], are what the
    normalizer makes of themselves. *)
Lemma normalize_game_name_words ws :
  Forall is_token ws → 64 ∉ Py.join (py " ") ws →
  Py.title (Py.join (py " ") ws) = Py.join (py " ") ws →
  normalize_game_name (Py.join (py " ") ws) = Py.join (py " ") ws.
Proof.
  intros Hws Hat Htitle. unfold normalize_game_name.
  rewrite strip_clean
    by (by apply join_tokens_no_linebreak || by apply join_tokens_stripped).
  rewrite bool_decide_eq_false_2 by done.
  by rewrite split_join.
Qed.

(** ** Normalizing twice *)

Lemma sub_trailing_date_Forall (P : N → Prop) s :
  Forall (λ x, x ≠ 10) s → Forall P s →
  Forall P (Re.sub true TRAILING_DATE_RE [] s).
Proof.
  intros Hnl HP. destruct (sub_trailing_date s Hnl) as (n & _ & -> & _).
  by apply Forall_take.
Qed.

Lemma not_elem_Forall (c : N) s : c ∉ s ↔ Forall (λ x, x ≠ c) s.
Proof.
  rewrite Forall_forall. split.
  - intros H x Hx ->. done.
  - intros H Hc. by apply (H c).
Qed.

Lemma title_ci s : is_ascii s → Forall2 ci_eq s (Py.title s).
Proof. apply title_from_ci. Qed.

(** C7 (as amended).  On text of Basic Latin the name normalizer is
    idempotent: normalizing a normalized name returns it unchanged. *)
Theorem normalize_game_name_idempotent_on_ascii (x : list N) :
  is_ascii x →
  normalize_game_name (normalize_game_name x) = normalize_game_name x.
Proof.
  intros Hx.
  assert (Hfix : ∀ y, y = normalize_game_name x → normalize_game_name y = y);
    [|by apply Hfix].
  intros y Hy. unfold normalize_game_name in Hy.
  set (cleaned := Py.strip (Py.join (py " ") (Py.splitlines x))) in Hy.
  assert (Hca : is_ascii cleaned).
  { apply strip_if_Forall, join_Forall; [by repeat constructor|].
    by apply splitlines_from_Forall. }
  assert (Hcl : Forall (λ c, Py.is_linebreak c = false) cleaned).
  { apply strip_if_Forall, join_Forall; [by repeat constructor|].
    apply splitlines_from_clean. }
  clearbody cleaned. case_bool_decide as Hat.
  - destruct (split1_spec 64 cleaned Hat) as (a0 & b0 & Hc & Ha0 & Hsp).
    rewrite Hsp in Hy. cbv beta iota in Hy. subst cleaned.
    apply Forall_app in Hca as [Haa Hab]. apply Forall_cons in Hab as [_ Hab].
    apply Forall_app in Hcl as [Hla Hlb]. apply Forall_cons in Hlb as [_ Hlb].
    set (s := Py.strip b0) in *.
    assert (Hs_lb : Forall (λ c, Py.is_linebreak c = false) s)
      by (by apply strip_if_Forall).
    assert (Hs_ascii : is_ascii s) by (by apply strip_if_Forall).
    pose proof (linebreak_free_no_lf s Hs_lb) as Hs_nl.
    assert (Hd_ascii : is_ascii (Py.strip (Re.sub true TRAILING_DATE_RE [] s))).
    { by apply strip_if_Forall, sub_trailing_date_Forall. }
    assert (Ha_ascii : is_ascii (Py.strip a0)) by (by apply strip_if_Forall).
    subst y. apply normalize_game_name_at_form.
    + eapply stripped_ci; [by apply title_ci|apply strip_stripped].
    + eapply stripped_ci; [by apply title_ci|apply strip_stripped].
    + eapply Forall2_ci_linebreak; [by apply title_ci|]. by apply strip_if_Forall.
    + eapply Forall2_ci_linebreak; [by apply title_ci|].
      by apply strip_if_Forall, sub_trailing_date_Forall.
    + rewrite <-(Forall2_ci_at _ _ (title_ci _ Ha_ascii)).
      apply not_elem_Forall, strip_if_Forall. by apply not_elem_Forall.
    + by apply title_from_idemp.
    + by apply title_from_idemp.
    + apply (sub_trailing_date_fixed s); [done|apply strip_stripped|].
      by apply title_ci.
  - assert (Hw_ascii : Forall is_ascii (Py.split cleaned)) by (by apply split_Forall).
    assert (Hj_ascii : is_ascii (Py.join (py " ") (Py.split cleaned))).
    { apply join_Forall; [by repeat constructor|done]. }
    destruct (title_from_join false (Py.split cleaned) (split_tokens cleaned) Hw_ascii)
      as (ws' & Heq & Hws').
    fold (Py.title (Py.join (py " ") (Py.split cleaned))) in Heq.
    assert (Hidem : Py.title y = y) by (subst y; by apply title_from_idemp).
    assert (Hno : 64 ∉ y).
    { subst y. rewrite <-(Forall2_ci_at _ _ (title_ci _ Hj_ascii)).
      apply not_elem_Forall, join_Forall; [by repeat constructor|].
      apply split_Forall. by apply not_elem_Forall. }
    rewrite <-Hy in Heq. rewrite Heq in Hidem, Hno |- *.
    by apply normalize_game_name_words.
Qed.

Lemma normalize_game_name_idempotent_example :
  is_ascii (py "  jets @ new york giants - Jan. 5, 7:00 PM ")
  ∧ normalize_game_name (py "  jets @ new york giants - Jan. 5, 7:00 PM ")
    = py "Jets @ New York Giants -"
  ∧ normalize_game_name (py "Jets @ New York Giants -")
    = py "Jets @ New York Giants -".
Proof.
  assert (Ha : is_ascii (py "  jets @ new york giants - Jan. 5, 7:00 PM ")) by (by repeat constructor).
  pose proof (normalize_game_name_idempotent_on_ascii _ Ha) as H.
  assert (Hn : normalize_game_name (py "  jets @ new york giants - Jan. 5, 7:00 PM ")
               = py "Jets @ New York Giants -") by (vm_compute; reflexivity).
  rewrite Hn in H. by split.
Defined.

(** The claim as the specification words it fails on the code: the small
    letter j with caron, U+01F0, has the two characters J, U+030C as its
    title case, and the mark U+030C is not cased, so that [str.title]
    starts a new word after it.  The name U+01F0, a is normalized to
    J, U+030C, a and this in turn to J, U+030C, A. *)
Lemma normalize_game_name_not_idempotent :
  normalize_game_name [496; 97] = [74; 780; 97]
  ∧ normalize_game_name [74; 780; 97] = [74; 780; 65]
  ∧ normalize_game_name (normalize_game_name [496; 97])
    ≠ normalize_game_name [496; 97].
Proof.
  split; [vm_compute; reflexivity|].
  split; [vm_compute; reflexivity|].
  vm_compute. discriminate.
Qed.

(** ** More on the slug candidates *)

Lemma alnum_lower1 c : alnum c = true → Py.lower1 c = c.
Proof.
  unfold alnum, Re.range, Py.lower1, Py.is_upper_az. intros H.
  destruct ((65 <=? c) && (c <=? 90)) eqn:Hu; [|done]. bool_lia.
Qed.

Lemma _slug_fixed s : Forall (λ c, alnum c = true) s → _slug s = s.
Proof.
  intros H. rewrite _slug_filter.
  induction H as [|c s Hc Hs IH]; [done|].
  cbn [fmap list_fmap]. rewrite (alnum_lower1 c Hc).
  rewrite filter_cons, decide_True by done. f_equal. exact IH.
Qed.

Lemma _slug_alnum s : Forall (λ c, alnum c = true) (_slug s).
Proof.
  rewrite _slug_filter. apply Forall_forall. intros c Hc.
  by apply list_elem_of_filter in Hc as [Hc _].
Qed.

(** A slug is made of lowercase letters and digits only, and the slug of
    a slug is the slug itself. *)
Theorem _slug_alnum_idempotent (s : list N) :
  Forall (λ c, (97 ≤ c ∧ c ≤ 122) ∨ (48 ≤ c ∧ c ≤ 57)) (_slug s)
  ∧ _slug (_slug s) = _slug s.
Proof.
  split; [|apply _slug_fixed, _slug_alnum].
  eapply Forall_impl; [apply _slug_alnum|]. intros c Hc.
  unfold alnum, Re.range in Hc. bool_lia.
Qed.

(** *** No candidate twice *)

Lemma seen_step_NoDup (st : list (list N) * gset (list N)) (x : list N) :
  NoDup st.1 → (∀ y, y ∈ st.2 ↔ y ∈ st.1) →
  let st' := if negb (bool_decide (x ∈ st.2))
             then (st.1 ++ [x], {[x]} ∪ st.2) else st in
  NoDup st'.1 ∧ (∀ y, y ∈ st'.2 ↔ y ∈ st'.1).
Proof.
  intros Hnd Hseen. cbv zeta. case_bool_decide as Hx; cbn [negb]; [done|].
  cbn [fst snd]. split.
  - apply NoDup_app. split; [done|]. split; [|apply NoDup_singleton].
    intros y Hy ->%list_elem_of_singleton. apply Hx. by apply Hseen.
  - intros y. rewrite elem_of_union, elem_of_singleton, elem_of_app,
      list_elem_of_singleton, Hseen. tauto.
Qed.

Lemma _nickname_only_candidates_NoDup txt : NoDup (_nickname_only_candidates txt).
Proof.
  unfold _nickname_only_candidates.
  destruct (negb _); [apply NoDup_nil_2|].
  match goal with |- NoDup (foldl ?f ?st ?l).1 => generalize l end.
  intros cands.
  assert (H : ∀ st : list (list N) * gset (list N),
    NoDup st.1 → (∀ y, y ∈ st.2 ↔ y ∈ st.1) →
    NoDup (foldl (λ (st : list (list N) * gset (list N)) c,
                    if Py.nonempty c && negb (bool_decide (c ∈ st.2))
                    then (st.1 ++ [c], {[c]} ∪ st.2) else st) st cands).1).
  { induction cands as [|c cands IH]; intros st Hnd Hseen; [done|].
    cbn [foldl]. destruct (Py.nonempty c); cbn [andb]; [|by apply IH].
    destruct (seen_step_NoDup st c Hnd Hseen) as [H1 H2]. by apply IH. }
  apply H; [apply NoDup_nil_2|]. intros y. cbn. set_solver.
Qed.

Lemma _expand_nba_candidates_NoDup nick_cands :
  NoDup (_expand_nba_candidates nick_cands).
Proof.
  unfold _expand_nba_candidates.
  assert (H : ∀ st : list (list N) * gset (list N),
    NoDup st.1 → (∀ y, y ∈ st.2 ↔ y ∈ st.1) →
    NoDup (foldl (λ (st : list (list N) * gset (list N)) n,
            let st :=
              match NBA_NICK_TO_CODE !! n with
              | Some ((_ :: _) as code) =>
                  let new_slug := py "nba_" ++ code in
                  if negb (bool_decide (new_slug ∈ st.2))
                  then (st.1 ++ [new_slug], {[new_slug]} ∪ st.2) else st
              | _ => st
              end in
            if negb (bool_decide (n ∈ st.2))
            then (st.1 ++ [n], {[n]} ∪ st.2) else st) st nick_cands).1).
  { induction nick_cands as [|n l IH]; intros st Hnd Hseen; [done|].
    cbn [foldl]. cbv zeta.
    destruct (NBA_NICK_TO_CODE !! n) as [[|c code]|].
    - destruct (seen_step_NoDup st n Hnd Hseen) as [H1 H2]. by apply IH.
    - destruct (seen_step_NoDup st (py "nba_" ++ c :: code) Hnd Hseen) as [H1 H2].
      cbv zeta in H1, H2.
      destruct (seen_step_NoDup _ n H1 H2) as [H3 H4]. by apply IH.
    - destruct (seen_step_NoDup st n Hnd Hseen) as [H1 H2]. by apply IH. }
  apply H; [apply NoDup_nil_2|]. intros y. cbn. set_solver.
Qed.

Lemma append_if_NoDup {A} `{EqDecision A} (out : list A) (x : A) (b : bool) :
  NoDup out → NoDup (append_if (b && negb (bool_decide (x ∈ out))) out x).
Proof.
  intros H. unfold append_if. destruct b; cbn [andb]; [|done].
  case_bool_decide as Hx; cbn [negb]; [done|].
  apply NoDup_app. split; [done|]. split; [|apply NoDup_singleton].
  by intros y Hy ->%list_elem_of_singleton.
Qed.

(** No team name is a full name of both leagues. *)
Lemma full_names_disjoint b x :
  NFL_TEAM_SLUGS !! b = Some x → NHL_TEAM_SLUGS !! b = None.
Proof.
  assert (H : map_Forall (λ k _, NHL_TEAM_SLUGS !! k = None) NFL_TEAM_SLUGS).
  { apply (bool_decide_unpack _). vm_compute. exact I. }
  apply H.
Qed.

Lemma table_candidates_NoDup base : NoDup (table_candidates base).
Proof.
  unfold table_candidates.
  match goal with |- NoDup (foldl _ ?o ?l) => generalize l; assert (Ho : NoDup o) end.
  { cbn [foldl].
    destruct (NFL_TEAM_SLUGS !! base) as [[|c x]|] eqn:H1.
    - destruct (NHL_TEAM_SLUGS !! base) as [[|??]|]; cbn;
        [apply NoDup_nil_2|apply NoDup_singleton|apply NoDup_nil_2].
    - rewrite (full_names_disjoint _ _ H1). apply NoDup_singleton.
    - destruct (NHL_TEAM_SLUGS !! base) as [[|??]|]; cbn;
        [apply NoDup_nil_2|apply NoDup_singleton|apply NoDup_nil_2]. }
  match goal with |- ∀ l, NoDup (foldl _ ?o l) => revert Ho; generalize o end.
  intros out Hout ms. revert out Hout.
  induction ms as [|m ms IH]; intros out Hout; [done|].
  cbn [foldl]. apply IH. destruct m as [[|c m]|]; [done| |done].
  by apply (append_if_NoDup out (c :: m) true).
Qed.

(** A list of candidates names no slug twice, so that within a stage of
    the resolver no stream is probed twice. *)
Theorem build_candidates_NoDup (nickname_only : bool) (txt : list N) :
  NoDup (build_candidates nickname_only txt).
Proof.
  unfold build_candidates. destruct nickname_only.
  - apply _expand_nba_candidates_NoDup.
  - unfold general_candidates. apply append_if_NoDup, table_candidates_NoDup.
Qed.

(** *** The page-supplied key *)

Lemma _slug_not_nba_prefixed s : Py.startswith (py "nba_") (_slug s) = false.
Proof.
  pose proof (_slug_alnum s) as H. change (py "nba_") with [110; 98; 97; 95].
  destruct (_slug s) as [|c1 [|c2 [|c3 [|c4 l]]]]; cbn [Py.startswith];
    rewrite ?andb_false_r; try done.
  apply Forall_cons in H as [_ H]. apply Forall_cons in H as [_ H].
  apply Forall_cons in H as [_ H]. apply Forall_cons in H as [H _].
  destruct (N.eqb_spec 95 c4) as [<-|]; [done|]. by rewrite !andb_false_r.
Qed.

(** A slug has no underscore, so the test for the prefix [nba_] never
    holds: in nickname mode the key always goes through the expansion, and
    otherwise its slug is the only candidate. *)
Theorem dt_candidates_expands (data_team : list N) :
  dt_candidates true data_team = _expand_nba_candidates [_slug data_team]
  ∧ dt_candidates false data_team = [_slug data_team].
Proof.
  unfold dt_candidates. by rewrite _slug_not_nba_prefixed.
Qed.

(** ** What the resolver asks of the network *)

Section Requests.
Variable head_response : list N → response.
Variable allowed_slugs : option (gset (list N)).
Variable nickname_only : bool.

Abbreviation passes := (λ c, eligible allowed_slugs c = true).

Lemma first_verified_probes cands log :
  ∃ r probes,
    first_verified head_response allowed_slugs cands log
    = (Returns r, log ++ (probe <$> probes))
    ∧ Forall passes probes
    ∧ (∀ s, r = Some s → last probes = Some s).
Proof.
  revert log. induction cands as [|c cands IH]; intros log.
  { exists None, []. cbn. unfold ret. by rewrite app_nil_r. }
  destruct (eligible allowed_slugs c) eqn:Hc.
  - rewrite first_verified_try by done. destruct (live head_response c).
    + exists (Some c), [c]. split; [done|]. split; [by constructor|].
      by intros s [= <-].
    + destruct (IH (log ++ [probe c])) as (r & probes & -> & Hp & Hlast).
      exists r, (c :: probes). split; [by rewrite <-app_assoc|].
      split; [by constructor|]. intros s Hs. specialize (Hlast s Hs).
      destruct probes; [done|]. by rewrite last_cons_cons.
  - rewrite first_verified_skip by done. apply IH.
Qed.

Lemma last_app_Some {A} (l1 l2 : list A) x :
  last l2 = Some x → last (l1 ++ l2) = Some x.
Proof.
  intros H. destruct l2 as [|y l2] using rev_ind; [done|].
  rewrite last_snoc in H. injection H as ->. by rewrite app_assoc, last_snoc.
Qed.

(** The resolver never raises.  All it asks of the network is a sequence
    of HEAD requests for streams of slugs that pass the allow-list, and
    when it returns a slug, the last request is the probe of that slug. *)
Theorem resolve_team_slug_probes
    (data_team : option (list N)) (away home : list N) (log : list request) :
  ∃ r probes,
    resolve_team_slug head_response allowed_slugs nickname_only
      data_team away home log
    = (Returns r, log ++ (probe <$> probes))
    ∧ Forall passes probes
    ∧ (∀ s, r = Some s → last probes = Some s).
Proof.
  unfold resolve_team_slug.
  destruct (first_verified_probes (build_candidates nickname_only home) log)
    as (r1 & p1 & H1 & Hp1 & Hl1).
  rewrite (bind_returns _ _ _ _ _ H1).
  destruct (truthy r1); [by exists r1, p1|].
  destruct (first_verified_probes (build_candidates nickname_only away)
              (log ++ (probe <$> p1))) as (r2 & p2 & H2 & Hp2 & Hl2).
  rewrite (bind_returns _ _ _ _ _ H2).
  assert (Hfinal : ∀ (r : option (list N)) p,
    Forall passes p → (∀ s, r = Some s → last p = Some s) →
    ∃ r' probes,
      (Returns r, (log ++ (probe <$> p1)) ++ (probe <$> p))
      = (Returns r', log ++ (probe <$> probes))
      ∧ Forall passes probes ∧ (∀ s, r' = Some s → last probes = Some s)).
  { intros r p Hp Hl. exists r, (p1 ++ p).
    split; [by rewrite fmap_app, app_assoc|]. split; [by apply Forall_app|].
    intros s Hs. by apply last_app_Some, Hl. }
  destruct (truthy r2); [by apply Hfinal|].
  destruct data_team as [[|c d]|].
  - unfold ret. exists None, (p1 ++ p2).
    split; [by rewrite fmap_app, app_assoc|]. split; [by apply Forall_app|done].
  - destruct (first_verified_probes (dt_candidates nickname_only (c :: d))
                ((log ++ (probe <$> p1)) ++ (probe <$> p2)))
      as (r3 & p3 & H3 & Hp3 & Hl3).
    rewrite (bind_returns _ _ _ _ _ H3).
    assert (Hout : (if truthy r3 then ret r3 else ret None)
                     (((log ++ (probe <$> p1)) ++ (probe <$> p2)) ++ (probe <$> p3))
                   = (Returns (if truthy r3 then r3 else None),
                      log ++ (probe <$> (p1 ++ p2 ++ p3)))).
    { unfold ret. rewrite !fmap_app, <-!app_assoc. by destruct (truthy r3). }
    rewrite Hout. eexists _, _. split; [done|].
    split; [by rewrite !Forall_app|].
    intros s Hs. destruct (truthy r3); [|done].
    rewrite app_assoc. by apply last_app_Some, Hl3.
  - unfold ret. exists None, (p1 ++ p2).
    split; [by rewrite fmap_app, app_assoc|]. split; [by apply Forall_app|done].
Qed.

(** The resolver returns, and only adds to the log. *)
Lemma resolve_team_slug_log
    (data_team : option (list N)) (away home : list N) (log : list request) :
  ∃ r l,
    resolve_team_slug head_response allowed_slugs nickname_only
      data_team away home log
    = (Returns r, log ++ l).
Proof.
  unfold resolve_team_slug.
  destruct (first_verified_probes (build_candidates nickname_only home) log)
    as (r1 & p1 & H1 & _).
  rewrite (bind_returns _ _ _ _ _ H1).
  destruct (truthy r1); [by eexists _, _|].
  destruct (first_verified_probes (build_candidates nickname_only away)
              (log ++ (probe <$> p1))) as (r2 & p2 & H2 & _).
  rewrite (bind_returns _ _ _ _ _ H2). rewrite <-app_assoc.
  destruct (truthy r2); [by eexists _, _|].
  destruct data_team as [[|c d]|]; try (by eexists _, _).
  destruct (first_verified_probes (dt_candidates nickname_only (c :: d))
              (log ++ (probe <$> p1) ++ (probe <$> p2))) as (r3 & p3 & H3 & _).
  rewrite (bind_returns _ _ _ _ _ H3). rewrite <-!app_assoc.
  destruct (truthy r3); by eexists _, _.
Qed.

End Requests.

(** ** Reading the time *)

(** The third group of a time match is [AM] or [PM] in some case. *)
Lemma TIME_RE_meridiem c c' g :
  (c', g) ∈ Re.run true TIME_RE c ∅ →
  ∃ t1 t2 t3, g !! 1%nat = Some t1 ∧ g !! 2%nat = Some t2 ∧ g !! 3%nat = Some t3
    ∧ (length t1 ≤ 2)%nat ∧ (length t2 ≤ 2)%nat
    ∧ (Py.upper t3 = py "AM" ∨ Py.upper t3 = py "PM").
Proof.
  rewrite TIME_RE_unfold. intros H.
  apply run_Seq in H as (c1 & g1 & H1 & H).
  apply run_Group in H1 as (g0 & H1 & ->).
  apply run_Rep in H1 as (-> & k1 & Hk1 & _ & Hhi1 & _ & ->).
  rewrite pos_advance in H.
  apply run_Seq in H as (c2 & g2 & H2 & H).
  apply run_Cls in H2 as (x & s' & _ & _ & -> & ->).
  apply run_Seq in H as (c3 & g3 & H3 & H).
  apply run_Group in H3 as (g0 & H3 & ->).
  apply run_Rep in H3 as (-> & k2 & Hk2 & _ & Hhi2 & _ & ->).
  rewrite pos_advance in H.
  apply run_Seq in H as (c4 & g4 & H4 & H).
  apply run_Rep in H4 as (-> & k3 & Hk3 & _ & _ & _ & ->).
  apply run_Group in H as (g5 & H & ->).
  match type of H with _ ∈ Re.run _ _ ?c _ => set (c0 := c) in * end.
  assert (Hg : g5 = <[2%nat:=take k2 s']> (<[1%nat:=take k1 (Re.rest c)]> ∅)
               ∧ ∃ a b, take (Re.pos c' - Re.pos c0) (Re.rest c0) = [a; b]
                   ∧ (Py.upper [a; b] = py "AM" ∨ Py.upper [a; b] = py "PM")).
  { clearbody c0. destruct c0 as [b0 i0 s0].
    apply run_Alt in H as [H|H];
      apply run_Seq in H as (ca & ga & Ha & H);
      apply run_Cls in Ha as (a & sa & Hs & Ha & -> & ->);
      apply run_Cls in H as (b & sb & Hs' & Hb & -> & ->);
      cbn [Re.rest Re.pos] in *; subst s0 sa; (split; [done|]);
      exists a, b;
      replace (S (S i0) - i0)%nat with 2%nat by lia; (split; [done|]);
      letter_cases Ha; letter_cases Hb;
      ((by left) || (by right)). }
  destruct Hg as (-> & a & b & -> & Hap).
  eexists _, _, _. split.
  { rewrite lookup_insert_ne by done. rewrite lookup_insert_ne by done.
    apply lookup_insert_eq. }
  split; [rewrite lookup_insert_ne by done; apply lookup_insert_eq|].
  split; [apply lookup_insert_eq|].
  specialize (Hhi1 _ eq_refl). specialize (Hhi2 _ eq_refl).
  rewrite !length_take. split; [lia|]. split; [lia|done].
Qed.

Lemma int_of_digits_bound s :
  (length s ≤ 2)%nat → Forall (λ x, Py.is_digit x = true) s →
  (0 ≤ Py.int_of_digits s ≤ 99)%Z.
Proof.
  intros Hlen Hd. destruct s as [|a [|b [|??]]]; [done| | |simpl in Hlen; lia].
  - apply Forall_cons in Hd as [Ha _]. unfold Py.is_digit in Ha.
    unfold Py.int_of_digits. cbn [foldl]. bool_lia.
  - apply Forall_cons in Hd as [Ha Hd]. apply Forall_cons in Hd as [Hb _].
    unfold Py.is_digit in Ha, Hb. unfold Py.int_of_digits. cbn [foldl]. bool_lia.
Qed.

Section ReadingTime.
Local Open Scope Z_scope.

(** The hour of a twelve-hour clock reading on the twenty-four-hour
    clock, as the parser computes it: noon and midnight are the hours 12 of
    the two halves, and the hour is not checked against the clock. *)
Theorem parse_time_and_tz_hour
    (text : list N) (default_tz : zone) (m : Re.found) :
  is_ascii text →
  Re.search true TIME_RE text = Some m →
  ∃ h mi tzinfo,
    int (group_text m 1) = Returns h ∧ int (group_text m 2) = Returns mi
    ∧ 0 ≤ h ≤ 99 ∧ 0 ≤ mi ≤ 99
    ∧ (Py.upper (group_text m 3) = py "AM"
       ∧ parse_time_and_tz text default_tz
         = Returns (Some (if h =? 12 then 0 else h), Some mi, tzinfo)
       ∨ Py.upper (group_text m 3) = py "PM"
         ∧ parse_time_and_tz text default_tz
           = Returns (Some (if h =? 12 then 12 else h + 12), Some mi, tzinfo)).
Proof.
  intros _ Hm. unfold parse_time_and_tz. rewrite Hm.
  destruct (search_Some _ _ _ _ Hm) as (c' & Hrun & _).
  pose proof (TIME_RE_groups _ _ _ Hrun)
    as (t1 & t2 & Hg1 & Hg2 & Hn1 & Hd1 & Hn2 & Hd2).
  apply TIME_RE_meridiem in Hrun
    as (t1' & t2' & t3 & Hg1' & Hg2' & Hg3 & Hl1 & Hl2 & Hap).
  rewrite Hg1' in Hg1. rewrite Hg2' in Hg2. simplify_eq.
  unfold group_text, Re.group. rewrite Hg1', Hg2', Hg3. cbn [default from_option id].
  rewrite (int_digits t1), (int_digits t2) by done. cbn [obind].
  eexists _, _, _. split; [done|]. split; [done|].
  split.
  { apply int_of_digits_bound; [done|].
    eapply Forall_impl; [exact Hd1|]. apply cls_ic_digit. }
  split.
  { apply int_of_digits_bound; [done|].
    eapply Forall_impl; [exact Hd2|]. apply cls_ic_digit. }
  destruct Hap as [Hap|Hap]; rewrite Hap; [left|right]; (split; [done|]).
  - rewrite (bool_decide_eq_false_2 (py "AM" = py "PM")) by (intros Hne; vm_compute in Hne; discriminate).
    rewrite (bool_decide_eq_true_2 (py "AM" = py "AM")) by done.
    cbn [andb]. by destruct (Py.int_of_digits t1 =? 12).
  - rewrite (bool_decide_eq_true_2 (py "PM" = py "PM")) by done.
    rewrite (bool_decide_eq_false_2 (py "PM" = py "AM")) by (intros Hne; vm_compute in Hne; discriminate).
    cbn [andb negb]. destruct (Z.eqb_spec (Py.int_of_digits t1) 12) as [E|E]; cbn [negb].
    { by rewrite E. }
    done.
Qed.

End ReadingTime.

Lemma parse_time_and_tz_hour_example :
  is_ascii (py "Kickoff 12:30 am CT")
  ∧ ∃ m, Re.search true TIME_RE (py "Kickoff 12:30 am CT") = Some m
    ∧ ∃ h mi tzinfo,
        int (group_text m 1) = Returns h ∧ int (group_text m 2) = Returns mi
        ∧ (0 ≤ h ≤ 99)%Z ∧ (0 ≤ mi ≤ 99)%Z
        ∧ (Py.upper (group_text m 3) = py "AM"
           ∧ parse_time_and_tz (py "Kickoff 12:30 am CT") New_York
             = Returns (Some (if (h =? 12)%Z then 0 else h)%Z, Some mi, tzinfo)
           ∨ Py.upper (group_text m 3) = py "PM"
             ∧ parse_time_and_tz (py "Kickoff 12:30 am CT") New_York
               = Returns (Some (if (h =? 12)%Z then 12 else h + 12)%Z, Some mi, tzinfo)).
Proof.
  assert (Ha : is_ascii (py "Kickoff 12:30 am CT")) by (by repeat constructor).
  split; [exact Ha|].
  destruct (Re.search true TIME_RE (py "Kickoff 12:30 am CT")) as [m|] eqn:Hm;
    [|by vm_compute in Hm].
  exists m. split; [done|].
  exact (parse_time_and_tz_hour (py "Kickoff 12:30 am CT") New_York m Ha Hm).
Defined.

(** ** Writing a time and reading it back *)

Section TimeRoundTrip.
Local Open Scope Z_scope.

(** The text of the formatter for an hour and a minute. *)
Lemma clock_text_read_back :
  forallb (λ h,
    forallb (λ mi,
      forallb (λ z,
        bool_decide
          (parse_time_and_tz
             (Py.decimal (hour12 h) ++ py ":" ++ two_digits mi ++ py " " ++ am_pm h) z
           = Returns (Some h, Some mi, z)))
        [New_York; Chicago; Denver; Los_Angeles])
      (seqZ 0 60))
    (seqZ 0 24) = true.
Proof. vm_compute. reflexivity. Qed.

(** The time the formatter writes, on either platform, is read back by
    the time parser as the same hour and minute, and names no zone. *)
Theorem strftime_time_read_back
    (on_windows : bool) (dt : datetime) (default_tz : zone) :
  0 ≤ dt_hour dt ≤ 23 → 0 ≤ dt_minute dt ≤ 59 →
  parse_time_and_tz
    (_strftime_no_pad on_windows (py "%-I:%M %p") (py "%#I:%M %p") dt) default_tz
  = Returns (Some (dt_hour dt), Some (dt_minute dt), default_tz).
Proof.
  intros Hh Hm. unfold _strftime_no_pad.
  destruct (strftime_time dt) as [Hl Hw].
  assert (Heq : strftime (if on_windows then py "%#I:%M %p" else py "%-I:%M %p") dt
                = Py.decimal (hour12 (dt_hour dt)) ++ py ":"
                  ++ two_digits (dt_minute dt) ++ py " " ++ am_pm (dt_hour dt))
    by (by destruct on_windows).
  rewrite Heq.
  pose proof clock_text_read_back as H.
  rewrite forallb_forall in H.
  specialize (H (dt_hour dt)). rewrite <-list_elem_of_In, elem_of_seqZ in H.
  specialize (H ltac:(lia)). rewrite forallb_forall in H.
  specialize (H (dt_minute dt)). rewrite <-list_elem_of_In, elem_of_seqZ in H.
  specialize (H ltac:(lia)). rewrite forallb_forall in H.
  specialize (H default_tz). rewrite <-list_elem_of_In in H.
  apply bool_decide_eq_true in H; [done|].
  destruct default_tz; [left|right; left|do 2 right; left|do 3 right; left].
Qed.

Lemma strftime_time_read_back_example :
  parse_time_and_tz
    (_strftime_no_pad false (py "%-I:%M %p") (py "%#I:%M %p")
       (DateTime (Cal.Date 2025 1 5) 17 5 (py "PST"))) New_York
  = Returns (Some 17, Some 5, New_York).
Proof.
  apply (strftime_time_read_back false
           (DateTime (Cal.Date 2025 1 5) 17 5 (py "PST")) New_York);
    cbn; lia.
Defined.

End TimeRoundTrip.

(** ** Reading the date *)

Section ReadingDate.
Local Open Scope Z_scope.

Lemma MONTH_NUMBERS_entries :
  map_Forall (λ k v, (length k ≤ 4)%nat ∧ 1 ≤ v ≤ 12) MONTH_NUMBERS.
Proof. apply (bool_decide_unpack _). vm_compute. exact I. Qed.

(** The month number is always a month.  Only the abbreviations of the
    table are recognised: a month written with more than four letters,
    as the full names that [MONTH_RE] accepts are, is read as January, so
    that [December 25, 2025] is taken for the 25th of January. *)
Theorem _month_str_to_num_range (mon : list N) :
  1 ≤ _month_str_to_num mon ≤ 12
  ∧ ((4 < length (Py.strip_chars (py ".") (Py.lower mon)))%nat →
     _month_str_to_num mon = 1)
  ∧ _month_str_to_num (py "December") = 1
  ∧ parse_date_title (py "December 25, 2025") (Cal.Date 2025 1 2)
    = Returns (Some (Cal.Date 2025 1 25)).
Proof.
  unfold _month_str_to_num.
  split; [|split; [|split; vm_compute; reflexivity]].
  - destruct (MONTH_NUMBERS !! _) as [v|] eqn:H; [|cbn; lia].
    apply MONTH_NUMBERS_entries in H. cbn. lia.
  - intros Hlen. destruct (MONTH_NUMBERS !! _) as [v|] eqn:H; [|done].
    apply MONTH_NUMBERS_entries in H. lia.
Qed.

Lemma DATE_RE_unfold :
  DATE_RE =
  Re.Seq Re.WordB
    (Re.Seq (Re.Group 1 MONTH_RE)
       (Re.Seq (Re.Plus Py.isspace)
          (Re.Seq (Re.Group 2 (Re.Rep Py.is_digit 1 (Some 2%nat)))
             (Re.Opt (Re.Seq (Re.Chr 44)
                        (Re.Seq (Re.Star Py.isspace)
                           (Re.Group 3 (Re.Rep Py.is_digit 4 (Some 4%nat))))))))).
Proof. reflexivity. Qed.

Lemma MONTH_RE_no_groups : group_ids MONTH_RE = [].
Proof. reflexivity. Qed.

(** The groups of a date match: a day of one or two digits, and a year
    of four digits when there is one. *)
Lemma DATE_RE_groups c c' g :
  (c', g) ∈ Re.run true DATE_RE c ∅ →
  ∃ t1 t2, g !! 1%nat = Some t1 ∧ g !! 2%nat = Some t2
    ∧ t2 ≠ [] ∧ Forall (λ x, Re.cls true Py.is_digit x = true) t2
    ∧ (g !! 3%nat = None
       ∨ ∃ t3, g !! 3%nat = Some t3 ∧ t3 ≠ []
               ∧ Forall (λ x, Re.cls true Py.is_digit x = true) t3).
Proof.
  rewrite DATE_RE_unfold. intros H.
  apply run_Seq in H as (c1 & g1 & H1 & H).
  apply run_WordB in H1 as (-> & -> & _).
  apply run_Seq in H as (c2 & g2 & H2 & H).
  apply run_Group in H2 as (g0 & H2 & ->).
  assert (Hg0 : ∀ n, g0 !! n = None).
  { intros n. rewrite (run_groups_other _ _ _ _ _ _ n H2); [done|].
    rewrite MONTH_RE_no_groups. apply not_elem_of_nil. }
  clear H2.
  apply run_Seq in H as (c3 & g3 & H3 & H).
  apply run_Rep in H3 as (-> & k3 & _ & _ & _ & _ & ->).
  apply run_Seq in H as (c4 & g4 & H4 & H).
  apply run_Group in H4 as (g5 & H4 & ->).
  apply run_Rep in H4 as (-> & k2 & Hk2 & Hlo2 & _ & Hd2 & ->).
  rewrite pos_advance in H.
  match type of H with _ ∈ Re.run _ _ ?c _ => set (c0 := c) in * end.
  match type of H with _ ∈ Re.run _ _ _ ?g => set (gd := g) in * end.
  assert (H1 : gd !! 1%nat = Some (take (Re.pos c2 - Re.pos c) (Re.rest c))).
  { unfold gd. rewrite lookup_insert_ne by done. apply lookup_insert_eq. }
  assert (H2 : gd !! 2%nat = Some (take k2 (Re.rest (advance c2 k3)))).
  { unfold gd. apply lookup_insert_eq. }
  assert (H3 : gd !! 3%nat = None).
  { unfold gd. rewrite !lookup_insert_ne by done. apply Hg0. }
  assert (Hne : take k2 (Re.rest (advance c2 k3)) ≠ []).
  { intros Hnil. apply (f_equal length) in Hnil.
    rewrite length_take in Hnil. cbn [length] in Hnil. lia. }
  clearbody gd c0.
  apply run_Opt in H as [H|[= -> ->]].
  - apply run_Seq in H as (c5 & g6 & H5 & H).
    apply run_Cls in H5 as (x & s' & _ & _ & -> & ->).
    apply run_Seq in H as (c6 & g7 & H6 & H).
    apply run_Rep in H6 as (-> & k6 & _ & _ & _ & _ & ->).
    apply run_Group in H as (g8 & H & ->).
    apply run_Rep in H as (-> & k4 & Hk4 & Hlo4 & _ & Hd4 & ->).
    rewrite pos_advance.
    eexists _, _. rewrite !lookup_insert_ne by done.
    split; [done|]. split; [done|]. split; [done|]. split; [done|].
    right. eexists. split; [apply lookup_insert_eq|]. split; [|done].
    intros Hnil. apply (f_equal length) in Hnil.
    rewrite length_take in Hnil. cbn [length] in Hnil. lia.
  - eexists _, _. split; [done|]. split; [done|]. split; [done|].
    split; [done|]. by left.
Qed.

Lemma new_raises y m d e : Cal.new y m d = Raises e → e = ValueError.
Proof. unfold Cal.new. destruct (_ && _); [done|]. by intros [= <-]. Qed.

(** The date parser raises only when the text names a month and a day
    without a year and they do not make a date of the reference year: the
    constructor in [_guess_year] is outside the [try].  With a year in the
    text a date that does not exist gives [None]. *)
Theorem parse_date_title_raises
    (text : list N) (today : Cal.date) (e : exn) :
  is_ascii text →
  parse_date_title text today = Raises e →
  e = ValueError
  ∧ ∃ m day,
      Re.search true DATE_RE (Py.join (py " ") (Py.split text)) = Some m
      ∧ Re.group m 3 = None
      ∧ int (group_text m 2) = Returns day
      ∧ Cal.new (Cal.year today) (_month_str_to_num (group_text m 1)) day
        = Raises ValueError.
Proof.
  intros _. unfold parse_date_title.
  destruct (Re.search true DATE_RE _) as [m|] eqn:Hm; [|done].
  destruct (search_Some _ _ _ _ Hm) as (c' & Hrun & _).
  apply DATE_RE_groups in Hrun as (t1 & t2 & Hg1 & Hg2 & Hn2 & Hd2 & Hg3).
  unfold group_text, Re.group. rewrite Hg1, Hg2. cbn [default from_option id].
  rewrite (int_digits t2) by done.
  destruct Hg3 as [Hg3|(t3 & Hg3 & Hn3 & Hd3)]; rewrite Hg3.
  - unfold _guess_year.
    destruct (Cal.new (Cal.year today) (_month_str_to_num t1) (Py.int_of_digits t2))
      as [cand|e'] eqn:Hnew; cbn [obind].
    + destruct (Cal.days_between cand today <? -180);
        [|destruct (180 <? Cal.days_between cand today)]; cbn [obind];
        match goal with
        | |- match ?x with _ => _ end = _ → _ => by destruct x
        end.
    + intros [= <-]. pose proof (new_raises _ _ _ _ Hnew) as ->.
      split; [done|]. exists m, (Py.int_of_digits t2).
      rewrite Hg1, Hg2, Hg3. cbn [default from_option id].
      by rewrite (int_digits t2).
  - destruct t3 as [|x t3]; [done|]. rewrite (int_digits (x :: t3)) by done.
    cbn [obind].
    match goal with
    | |- match ?x with _ => _ end = _ → _ => by destruct x
    end.
Qed.

Lemma parse_date_title_raises_example :
  is_ascii (py "Sun Feb 30")
  ∧ parse_date_title (py "Sun Feb 30") (Cal.Date 2025 1 2) = Raises ValueError
  ∧ parse_date_title (py "Sun Feb 30, 2025") (Cal.Date 2025 1 2) = Returns None
  ∧ ∃ m day,
      Re.search true DATE_RE (Py.join (py " ") (Py.split (py "Sun Feb 30"))) = Some m
      ∧ Re.group m 3 = None
      ∧ int (group_text m 2) = Returns day
      ∧ Cal.new 2025 (_month_str_to_num (group_text m 1)) day = Raises ValueError.
Proof.
  assert (Ha : is_ascii (py "Sun Feb 30")) by (by repeat constructor).
  assert (Hr : parse_date_title (py "Sun Feb 30") (Cal.Date 2025 1 2)
               = Raises ValueError) by (vm_compute; reflexivity).
  split; [exact Ha|]. split; [exact Hr|]. split; [vm_compute; reflexivity|].
  exact (proj2 (parse_date_title_raises _ _ _ Ha Hr)).
Defined.

End ReadingDate.

(** ** The events of a schedule page *)

Section PpvEvents.
Variable head_response : list N → response.
Variable tz : tzdata.
Variable on_windows : bool.
Variable schedule_page : list N → outcome (option (list tr)).
Variable today_local : Cal.date.
Variable base_url group_name tvg_id default_logo : list N.
Variable allowed_slugs : option (gset (list N)).
Variable nickname_only : bool.

Lemma resolve_row_slug_log backup team_key away home log :
  ∃ r l,
    resolve_row_slug head_response allowed_slugs nickname_only
      backup team_key away home log
    = (Returns r, log ++ l).
Proof.
  unfold resolve_row_slug.
  assert (Hrest : ∀ log1 l1, log1 = log ++ l1 →
    ∃ r l, resolve_team_slug head_response allowed_slugs nickname_only
             team_key away home log1 = (Returns r, log ++ l)).
  { intros log1 l1 ->.
    destruct (resolve_team_slug_log head_response allowed_slugs nickname_only
                team_key away home (log ++ l1)) as (r & l & ->).
    exists r, (l1 ++ l). by rewrite app_assoc. }
  destruct backup as [[|c b]|].
  - unfold bind, ret. cbn [truthy negb]. apply (Hrest log []). by rewrite app_nil_r.
  - unfold bind at 1. unfold bind at 1. rewrite verify_stream_url_run.
    destruct (bool_decide (head_response _ = _)).
    + case_bool_decide; unfold ret; cbn [truthy negb].
      * by eexists _, _.
      * by apply (Hrest _ [HEAD (PPV_STREAM_URL_PATTERN (c :: b))]).
    + unfold ret. cbn [truthy negb].
      by apply (Hrest _ [HEAD (PPV_STREAM_URL_PATTERN (c :: b))]).
  - unfold bind, ret. cbn [truthy negb]. apply (Hrest log []). by rewrite app_nil_r.
Qed.

Lemma verified_event_later log l ev :
  verified_event head_response base_url group_name tvg_id log ev →
  verified_event head_response base_url group_name tvg_id (log ++ l) ev.
Proof.
  intros (slug & ? & ? & ? & Hin & ?). exists slug.
  repeat (split; [done|]). split; [|done]. apply elem_of_app. by left.
Qed.

(** A row adds to the log, and appends at most one event, which it has
    verified. *)
Lemma ppv_row_step_verified site_tz st row log st' log' :
  ppv_row_step head_response tz on_windows today_local base_url group_name
    tvg_id default_logo allowed_slugs nickname_only site_tz st row log
  = (Returns st', log') →
  (∃ l, log' = log ++ l)
  ∧ (st'.2 = st.2
     ∨ ∃ ev, st'.2 = st.2 ++ [ev]
         ∧ verified_event head_response base_url group_name tvg_id log' ev).
Proof.
  unfold ppv_row_step. destruct st as [current_date results].
  assert (Hsame : ∀ (x : option Cal.date * list stream_event),
    x.2 = results →
    (Returns x, log) = (Returns st', log') →
    (∃ l, log' = log ++ l)
    ∧ (st'.2 = (current_date, results).2
       ∨ ∃ ev, st'.2 = (current_date, results).2 ++ [ev]
           ∧ verified_event head_response base_url group_name tvg_id log' ev)).
  { intros x Hx [= <- <-]. split; [exists []; by rewrite app_nil_r|by left]. }
  destruct (is_header_class (tr_class row)).
  { unfold bind, lift, ret.
    destruct (parse_date_title _ _) as [[d|]|e]; [by apply Hsame..|done]. }
  destruct (tr_teams row) as [[away home]|]; [|by apply Hsame].
  unfold bind at 1.
  destruct (resolve_row_slug_log (tr_backup_slug row) (tr_team_key row)
              away home log) as (r & l & ->).
  assert (Hkeep : (Returns (current_date, results), log ++ l) = (Returns st', log') →
    (∃ l, log' = log ++ l)
    ∧ (st'.2 = (current_date, results).2
       ∨ ∃ ev, st'.2 = (current_date, results).2 ++ [ev]
           ∧ verified_event head_response base_url group_name tvg_id log' ev)).
  { intros [= <- <-]. split; [by eexists|by left]. }
  destruct r as [[|c s]|]; [exact Hkeep| |exact Hkeep].
  unfold bind at 1, lift.
  destruct (row_match_name _ _ _ _ _ _ _ _) as [match_name|e]; [|done].
  unfold bind. rewrite verify_stream_url_run.
  case_bool_decide as Hlive; unfold ret.
  - intros [= <- <-]. split; [exists (l ++ [HEAD (PPV_STREAM_URL_PATTERN (c :: s))]);
                               by rewrite app_assoc|].
    right. eexists. split; [done|]. exists (c :: s). cbn.
    repeat (split; [done|]). split; [|done].
    apply elem_of_app. right. by left.
  - intros [= <- <-]. split; [|by left].
    exists (l ++ [HEAD (PPV_STREAM_URL_PATTERN (c :: s))]). by rewrite app_assoc.
Qed.

Lemma ppv_rows_verified site_tz rows st log st' log' :
  for_each (ppv_row_step head_response tz on_windows today_local base_url
              group_name tvg_id default_logo allowed_slugs nickname_only site_tz)
           rows st log = (Returns st', log') →
  Forall (verified_event head_response base_url group_name tvg_id log) st.2 →
  Forall (verified_event head_response base_url group_name tvg_id log') st'.2.
Proof.
  revert st log. induction rows as [|row rows IH]; intros st log H Hst.
  { cbn in H. by injection H as <- <-. }
  cbn [for_each] in H. unfold bind in H.
  destruct (ppv_row_step _ _ _ _ _ _ _ _ _ _ _ st row log) as [[st1|e] log1] eqn:Hstep;
    [|done].
  apply ppv_row_step_verified in Hstep as [[l ->] Hev].
  apply (IH _ _ H).
  destruct Hev as [->|(ev & -> & Hev)].
  - eapply Forall_impl; [exact Hst|]. intros ev. apply verified_event_later.
  - apply Forall_app. split; [|by constructor].
    eapply Forall_impl; [exact Hst|]. intros ev'. apply verified_event_later.
Qed.

(** A schedule page that cannot be fetched, or that has no schedule
    table, gives no event and no exception.  Every event that the scraper
    returns was verified in the same run: the endpoint answered 200 to the
    HEAD request for its address, which is in the log; the slug of the
    address is not empty, and the event carries the group, the reference
    and the identifier of the league and the custom headers. *)
Theorem scrape_ppv_league_events_verified (log : list request) :
  (∀ e, schedule_page base_url = Raises e →
        scrape_ppv_league head_response tz on_windows schedule_page today_local
          base_url group_name tvg_id default_logo allowed_slugs nickname_only log
        = (Returns [], log ++ [GET base_url]))
  ∧ (schedule_page base_url = Returns None →
        scrape_ppv_league head_response tz on_windows schedule_page today_local
          base_url group_name tvg_id default_logo allowed_slugs nickname_only log
        = (Returns [], log ++ [GET base_url]))
  ∧ (∀ results log',
        scrape_ppv_league head_response tz on_windows schedule_page today_local
          base_url group_name tvg_id default_logo allowed_slugs nickname_only log
        = (Returns results, log') →
        Forall (verified_event head_response base_url group_name tvg_id log')
               results).
Proof.
  unfold scrape_ppv_league, bind, try_except, session_get, ret.
  split; [|split].
  - intros e He. by rewrite He.
  - intros He. by rewrite He.
  - intros results log'.
    destruct (schedule_page base_url) as [[rows|]|e];
      [|intros [= <- <-]; constructor..].
    destruct (for_each _ rows (None, []) (log ++ [GET base_url]))
      as [[st|e] log1] eqn:Hrows; [|done].
    intros [= <- <-]. by apply (ppv_rows_verified _ _ _ _ _ _ Hrows).
Qed.

End PpvEvents.

(** ** A normalized name is one line *)

Lemma lower1_no_linebreak c :
  Py.is_linebreak c = false → Py.is_linebreak (Py.lower1 c) = false.
Proof.
  intros H. destruct (lower1_cases c) as [->|[Hc ->]]; [done|]. clear H.
  apply not_true_is_false. intros H. unfold Py.is_linebreak in H. bool_lia.
Qed.

Lemma upper1_no_linebreak c :
  Py.is_linebreak c = false → Py.is_linebreak (Py.upper1 c) = false.
Proof.
  intros H. destruct (upper1_cases c) as [->|[Hc ->]]; [done|]. clear H.
  apply not_true_is_false. intros H. unfold Py.is_linebreak in H. bool_lia.
Qed.

Lemma title_from_no_linebreak p s :
  Forall (λ c, Py.is_linebreak c = false) s →
  Forall (λ c, Py.is_linebreak c = false) (Py.title_from p s).
Proof.
  intros H. revert p. induction H as [|c s Hc Hs IH]; intros p; [constructor|].
  cbn [Py.title_from]. apply Forall_app. split; [|apply IH].
  unfold Py.lower_full, Py.title_full, Py.upper_full.
  destruct p; [|destruct (c =? Py.J_CARON)].
  - constructor; [by apply lower1_no_linebreak|constructor].
  - constructor; [reflexivity|]. constructor; [reflexivity|constructor].
  - constructor; [by apply upper1_no_linebreak|constructor].
Qed.

(** Whatever the input, the normalized name holds no line boundary: the
    lines of the input are joined by spaces, and neither the title case
    nor the removal of the date brings one in. *)
Theorem normalize_game_name_one_line (original_name : list N) :
  Forall (λ c, Py.is_linebreak c = false) (normalize_game_name original_name).
Proof.
  unfold normalize_game_name.
  set (cleaned := Py.strip (Py.join (py " ") (Py.splitlines original_name))).
  assert (Hcl : Forall (λ c, Py.is_linebreak c = false) cleaned).
  { apply strip_if_Forall, join_Forall; [by repeat constructor|].
    apply splitlines_from_clean. }
  clearbody cleaned. case_bool_decide as Hat.
  - destruct (split1_spec 64 cleaned Hat) as (a0 & b0 & -> & _ & ->).
    apply Forall_app in Hcl as [Ha Hb]. apply Forall_cons in Hb as [_ Hb].
    rewrite !Forall_app. split; [|split].
    + by apply title_from_no_linebreak, strip_if_Forall.
    + by repeat constructor.
    + apply title_from_no_linebreak, strip_if_Forall, sub_trailing_date_Forall.
      * by apply linebreak_free_no_lf, strip_if_Forall.
      * by apply strip_if_Forall.
  - apply title_from_no_linebreak, join_Forall; [by repeat constructor|].
    by apply split_Forall.
Qed.

(** ** The display name of a row *)

(** The time parser returns for every text. *)
Lemma parse_time_and_tz_returns text default_tz :
  ∃ hh mm tzinfo, parse_time_and_tz text default_tz = Returns (hh, mm, tzinfo).
Proof.
  unfold parse_time_and_tz.
  destruct (Re.search true TIME_RE text) as [m|] eqn:Hm; [|by eexists _, _, _].
  destruct (search_Some _ _ _ _ Hm) as (c' & Hrun & _).
  apply TIME_RE_groups in Hrun as (t1 & t2 & Hg1 & Hg2 & Hn1 & Hd1 & Hn2 & Hd2).
  unfold group_text at 1 2, Re.group. rewrite Hg1, Hg2. cbn [default from_option id].
  rewrite (int_digits t1), (int_digits t2) by done. cbn [obind].
  by eexists _, _, _.
Qed.

Section DisplayName.
Local Open Scope Z_scope.
Variable tz : tzdata.
Variable on_windows : bool.
Variable today_local : Cal.date.

(** The instant of a row that has a date, an hour and a minute. *)
Lemma row_instant_Some d h m tzinfo :
  row_instant tz (Some d) (Some h) (Some m) tzinfo
  = match astimezone tz d h m tzinfo LOCAL_TZ with
    | Returns dt => Some dt
    | Raises _ => None
    end.
Proof. reflexivity. Qed.

(** C8 (as amended).  The display name of a row, for every row text of
    Basic Latin.  The time parser always returns; [hh], [mm] and [tzinfo]
    are what it returns.  When the date parser raises on the row text, no
    name is produced: the exception leaves the row, and with it the scrape.
    Otherwise the date of the row is the one in its text, else the current
    date title.  When the date, the hour or the minute is missing, or the
    hour and the minute are no clock time (hour 0 to 23, minute 0 to 59),
    the display name is the bare normalized name.  When they are a clock
    time read in the display zone Los Angeles, the name is followed by a
    bullet and that date and time as they were read, with the abbreviation
    in force at that wall-clock time: nothing is converted.  When they are
    a clock time in another zone, the instant is converted through UTC to
    the display zone and the name is followed by a bullet and the
    converted date, time and abbreviation; when the conversion leaves the
    range of the calendar the name is bare. *)
Theorem row_match_name_display
    (site_tz : zone) (current_date : option Cal.date)
    (row_text away_team home_team : list N) :
  is_ascii row_text →
  let name := normalize_game_name (away_team ++ py " @ " ++ home_team) in
  let shown := row_match_name tz on_windows today_local site_tz current_date
                 row_text away_team home_team in
  ∃ hh mm tzinfo,
    parse_time_and_tz row_text site_tz = Returns (hh, mm, tzinfo)
    ∧ (∀ e, parse_date_title row_text today_local = Raises e →
            shown = Raises e)
    ∧ (∀ inline_date,
         parse_date_title row_text today_local = Returns inline_date →
         let game_date :=
           match inline_date with Some d => Some d | None => current_date end in
         (game_date = None ∨ hh = None ∨ mm = None → shown = Returns name)
         ∧ (∀ d h m, game_date = Some d → hh = Some h → mm = Some m →
              let wall := wall_seconds d h m in
              let utc := wall - tz_utcoffset tz tzinfo wall in
              let loc := utc + (tz_fromutc tz Los_Angeles utc).1 in
              (¬ (0 ≤ h ≤ 23 ∧ 0 ≤ m ≤ 59) → shown = Returns name)
              ∧ (0 ≤ h ≤ 23 → 0 ≤ m ≤ 59 → tzinfo = Los_Angeles →
                   shown = Returns
                     (name ++ [32; 8226; 32]%N
                        ++ rendered_instant
                             (DateTime d h m (tz_tzname tz Los_Angeles wall))))
              ∧ (0 ≤ h ≤ 23 → 0 ≤ m ≤ 59 → tzinfo ≠ Los_Angeles →
                   in_range utc = true → in_range loc = true →
                   shown = Returns
                     (name ++ [32; 8226; 32]%N
                        ++ rendered_instant
                             (DateTime (Cal.ord2ymd (loc / 86400))
                                (loc mod 86400 / 3600) (loc mod 3600 / 60)
                                (tz_fromutc tz Los_Angeles utc).2)))
              ∧ (0 ≤ h ≤ 23 → 0 ≤ m ≤ 59 → tzinfo ≠ Los_Angeles →
                   in_range utc = false ∨ in_range loc = false →
                   shown = Returns name))).
Proof.
  intros _ name shown. subst shown.
  destruct (parse_time_and_tz_returns row_text site_tz)
    as (hh & mm & tzinfo & Htime).
  exists hh, mm, tzinfo. split; [done|].
  unfold row_match_name. rewrite Htime. cbn [obind]. fold name. clearbody name.
  split.
  { by intros e ->. }
  intros inline_date Hdate. rewrite Hdate. cbn [obind].
  set (game_date := match inline_date with
                    | Some d => Some d | None => current_date end).
  clearbody game_date.
  split.
  { intros [->|[->| ->]]; [done| |].
    - by destruct game_date.
    - by destruct game_date, hh. }
  intros d h m -> -> ->.
  rewrite row_instant_Some. unfold astimezone, LOCAL_TZ.
  set (wall := wall_seconds d h m).
  set (utc := wall - tz_utcoffset tz tzinfo wall).
  split; [|split; [|split]].
  - intros Hclock.
    assert ((0 <=? h) && (h <=? 23) && (0 <=? m) && (m <=? 59) = false) as ->;
      [|done].
    apply not_true_is_false. rewrite !andb_true_iff, !Z.leb_le. lia.
  - intros Hh Hm ->.
    assert ((0 <=? h) && (h <=? 23) && (0 <=? m) && (m <=? 59) = true) as ->.
    { rewrite !andb_true_iff, !Z.leb_le. lia. }
    cbn [negb]. rewrite bool_decide_eq_true_2 by done.
    by rewrite format_game_datetime_Some.
  - intros Hh Hm Hz Hutc Hloc.
    assert ((0 <=? h) && (h <=? 23) && (0 <=? m) && (m <=? 59) = true) as ->.
    { rewrite !andb_true_iff, !Z.leb_le. lia. }
    cbn [negb]. rewrite bool_decide_eq_false_2 by done.
    rewrite Hutc. cbn [negb].
    destruct (tz_fromutc tz Los_Angeles utc) as [off abbr].
    cbn [fst snd] in *. rewrite Hloc. cbn [negb].
    by rewrite format_game_datetime_Some.
  - intros Hh Hm Hz Hout.
    assert ((0 <=? h) && (h <=? 23) && (0 <=? m) && (m <=? 59) = true) as ->.
    { rewrite !andb_true_iff, !Z.leb_le. lia. }
    cbn [negb]. rewrite bool_decide_eq_false_2 by done.
    destruct (in_range utc) eqn:Hutc; [|done]. cbn [negb].
    destruct (tz_fromutc tz Los_Angeles utc) as [off abbr].
    cbn [fst snd] in *. destruct Hout as [Hout|Hout]; [done|].
    by rewrite Hout.
Qed.

End DisplayName.

(** The scenario of the specification, Dallas at Philadelphia, "Jan 5 8:20
    PM ET" read on 2025-01-02 under the rules of the United States, is
    shown at 5:20 PM PST; and a row read in the display zone at a wall-clock
    time that the change to daylight time skips, "Mar 9 2:30 AM PT", is
    shown as it was read, 2:30 AM PST. *)
Lemma row_match_name_display_example :
  is_ascii (py "Jan 5 8:20 PM ET") ∧ is_ascii (py "Mar 9 2:30 AM PT")
  ∧ row_match_name UsRules.tz false (Cal.Date 2025 1 2) New_York None
    (py "Jan 5 8:20 PM ET") (py "Dallas Cowboys") (py "Philadelphia Eagles")
  = Returns (py "Dallas Cowboys @ Philadelphia Eagles" ++ [32; 8226; 32]
             ++ py "Jan 5 at 5:20 PM PST")
  ∧ row_match_name UsRules.tz false (Cal.Date 2025 1 2) New_York None
      (py "Mar 9 2:30 AM PT") (py "Dallas Cowboys") (py "Philadelphia Eagles")
    = Returns (py "Dallas Cowboys @ Philadelphia Eagles" ++ [32; 8226; 32]
               ++ py "Mar 9 at 2:30 AM PST").
Proof.
  assert (Ha1 : is_ascii (py "Jan 5 8:20 PM ET")) by (by repeat constructor).
  assert (Ha2 : is_ascii (py "Mar 9 2:30 AM PT")) by (by repeat constructor).
  split; [exact Ha1|]. split; [exact Ha2|]. split.
  - destruct (row_match_name_display UsRules.tz false (Cal.Date 2025 1 2)
                New_York None (py "Jan 5 8:20 PM ET")
                (py "Dallas Cowboys") (py "Philadelphia Eagles") Ha1)
      as (hh & mm & tzinfo & Htime & _ & Hshown).
    vm_compute in Htime. injection Htime as <- <- <-.
    destruct (Hshown (Some (Cal.Date 2025 1 5)) ltac:(vm_compute; reflexivity))
      as (_ & Hclock).
    destruct (Hclock (Cal.Date 2025 1 5) 20%Z 20%Z eq_refl eq_refl eq_refl)
      as (_ & _ & Hconv & _).
    etrans; [apply Hconv;
               [lia|lia|discriminate|vm_compute; reflexivity..]|].
    vm_compute. reflexivity.
  - destruct (row_match_name_display UsRules.tz false (Cal.Date 2025 1 2)
                New_York None (py "Mar 9 2:30 AM PT")
                (py "Dallas Cowboys") (py "Philadelphia Eagles") Ha2)
      as (hh & mm & tzinfo & Htime & _ & Hshown).
    vm_compute in Htime. injection Htime as <- <- <-.
    destruct (Hshown (Some (Cal.Date 2025 3 9)) ltac:(vm_compute; reflexivity))
      as (_ & Hclock).
    destruct (Hclock (Cal.Date 2025 3 9) 2%Z 30%Z eq_refl eq_refl eq_refl)
      as (_ & Hsame & _).
    etrans; [apply Hsame; [lia|lia|reflexivity]|].
    vm_compute. reflexivity.
Defined.

(** A row whose text holds a date and a time that is no clock time: the
    text "13:00 PM" is read as hour 25, the construction of the instant
    fails and the display name is the bare normalized name. *)
Lemma row_match_name_bare_with_date_and_time :
  parse_date_title (py "Jan 5 13:00 PM ET") (Cal.Date 2025 1 2)
  = Returns (Some (Cal.Date 2025 1 5))
  ∧ parse_time_and_tz (py "Jan 5 13:00 PM ET") New_York
    = Returns (Some 25%Z, Some 0%Z, New_York)
  ∧ row_match_name UsRules.tz false (Cal.Date 2025 1 2) New_York None
      (py "Jan 5 13:00 PM ET") (py "Dallas Cowboys") (py "Philadelphia Eagles")
    = Returns (py "Dallas Cowboys @ Philadelphia Eagles").
Proof. repeat split; vm_compute; reflexivity. Qed.

(** ** Time-zone inference *)

(** *** Building a match *)

Lemma cls_intro ic p x : p x = true → Re.cls ic p x = true.
Proof. unfold Re.cls. by intros ->. Qed.


Lemma run_Cls_intro ic p c g x s :
  Re.rest c = x :: s → Re.cls ic p x = true →
  (Re.Cursor (Some x) (S (Re.pos c)) s, g) ∈ Re.run ic (Re.Cls p) c g.
Proof.
  intros Hc Hx. cbn [Re.run]. rewrite Hc, Hx. by apply list_elem_of_singleton.
Qed.



Lemma run_Alt_l ic r1 r2 c g x :
  x ∈ Re.run ic r1 c g → x ∈ Re.run ic (Re.Alt r1 r2) c g.
Proof. intros H. cbn [Re.run]. apply elem_of_app. by left. Qed.

Lemma run_Alt_r ic r1 r2 c g x :
  x ∈ Re.run ic r2 c g → x ∈ Re.run ic (Re.Alt r1 r2) c g.
Proof. intros H. cbn [Re.run]. apply elem_of_app. by right. Qed.



Lemma nonempty_elem {A} (l : list A) x : x ∈ l → l ≠ [].
Proof. intros H ->. by apply not_elem_of_nil in H. Qed.

Lemma elem_nonempty {A} (l : list A) : l ≠ [] → ∃ x, x ∈ l.
Proof. destruct l as [|x l]; [done|]. exists x. by left. Qed.

(** *** Search and the leftmost place *)


(** *** Where a time is written *)








Abbreviation MERIDIEM_RE :=
  (Re.Seq (Re.Star Py.isspace)
     (Re.Group 3 (Re.Alt (Re.Seq (Re.Chr 65) (Re.Chr 77))
                         (Re.Seq (Re.Chr 80) (Re.Chr 77))))).

Abbreviation MINUTES_RE :=
  (Re.Seq (Re.Chr 58)
     (Re.Seq (Re.Group 2 (Re.Rep Py.is_digit 2 (Some 2%nat))) MERIDIEM_RE)).






(** *** Where a zone abbreviation stands *)















(** *** The zone of a time *)





(** ** The order of the resolver *)

Lemma NBA_codes_nonempty n : NBA_NICK_TO_CODE !! n ≠ Some [].
Proof.
  assert (H : map_Forall (λ _ v, v ≠ []) NBA_NICK_TO_CODE).
  { apply (bool_decide_unpack _). vm_compute. exact I. }
  intros Hn. by apply (H n []).
Qed.

Lemma startswith_app p s : Py.startswith p (p ++ s) = true.
Proof. induction p as [|c p IH]; [done|]. simpl. by rewrite N.eqb_refl, IH. Qed.

(** The candidates for the page-supplied key are its slug, preceded in
    nickname mode by the NBA stream of that nickname when the slug is one
    of the NBA nicknames. *)
Lemma dt_candidates_spec nickname_only d :
  dt_candidates nickname_only d
  = match (if nickname_only then NBA_NICK_TO_CODE !! _slug d else None) with
    | Some code => [py "nba_" ++ code; _slug d]
    | None => [_slug d]
    end.
Proof.
  unfold dt_candidates. rewrite _slug_not_nba_prefixed. cbn [negb].
  destruct nickname_only; [|done].
  unfold _expand_nba_candidates. cbn [foldl]. cbv zeta.
  destruct (NBA_NICK_TO_CODE !! _slug d) as [[|c code]|] eqn:Hcode.
  - by apply NBA_codes_nonempty in Hcode.
  - cbn [fst snd].
    rewrite (bool_decide_eq_false_2 (_ ∈ (∅ : gset (list N)))) by set_solver.
    cbn [negb fst snd].
    rewrite bool_decide_eq_false_2; [done|].
    intros Hin. apply elem_of_union in Hin as [Hin|Hin]; [|set_solver].
    apply elem_of_singleton in Hin.
    pose proof (_slug_not_nba_prefixed d) as Hp.
    rewrite Hin in Hp. by rewrite startswith_app in Hp.
  - cbn [fst snd].
    rewrite (bool_decide_eq_false_2 (_ ∈ (∅ : gset (list N)))) by set_solver.
    done.
Qed.

Section ResolverOrder.
Variable head_response : list N → response.
Variable allowed_slugs : option (gset (list N)).
Variable nickname_only : bool.

Abbreviation dead := (λ c, live head_response c = false).
Abbreviation passes := (λ c, eligible allowed_slugs c = true).

(** C3.  The resolver tries the candidates of the home team, then those of
    the away team, then the page-supplied key, and stops at the first one
    that verifies.  H and A are the candidates of the home and of the away
    team that pass the allow-list (all of them when there is none).  The
    key stage tries the slug of the key, preceded in nickname mode by the
    NBA stream of that nickname when there is one; K is what of these
    passes the allow-list, and it is empty when the page supplies no key.
    A live home candidate whose predecessors are dead is returned after
    probing only those; when every home candidate is dead, a live away
    candidate whose predecessors are dead is returned and the log ends
    with its probe, so the key is not probed; when home and away are all
    dead, a live non-empty slug of the key stage whose predecessors are
    dead is returned, while a live empty slug of the key stage ends the
    run with absence; and when the three stages fail the result is
    absence, after every passing candidate of the three stages was probed
    in that order. *)
Theorem resolve_team_slug_precedence
    (data_team : option (list N)) (away home : list N) (log : list request) :
  let H := filter passes (build_candidates nickname_only home) in
  let A := filter passes (build_candidates nickname_only away) in
  let key_slugs :=
    match data_team with
    | Some ((_ :: _) as d) =>
        match (if nickname_only then NBA_NICK_TO_CODE !! _slug d else None) with
        | Some code => [py "nba_" ++ code; _slug d]
        | None => [_slug d]
        end
    | _ => []
    end in
  let K := filter passes key_slugs in
  let run := resolve_team_slug head_response allowed_slugs nickname_only
               data_team away home log in
  (∀ pre s post,
      H = pre ++ s :: post → Forall dead pre → live head_response s = true →
      run = (Returns (Some s), log ++ (probe <$> pre ++ [s])))
  ∧ (∀ pre s post,
      Forall dead H →
      A = pre ++ s :: post → Forall dead pre → live head_response s = true →
      run = (Returns (Some s), log ++ (probe <$> H ++ pre ++ [s])))
  ∧ (∀ pre s post,
      Forall dead H → Forall dead A →
      K = pre ++ s :: post → Forall dead pre → live head_response s = true →
      s ≠ [] →
      run = (Returns (Some s), log ++ (probe <$> H ++ A ++ pre ++ [s])))
  ∧ (∀ pre post,
      Forall dead H → Forall dead A →
      K = pre ++ [] :: post → Forall dead pre → live head_response [] = true →
      run = (Returns None, log ++ (probe <$> H ++ A ++ pre ++ [[]])))
  ∧ (Forall dead H → Forall dead A → Forall dead K →
      run = (Returns None, log ++ (probe <$> H ++ A ++ K))).
Proof.
  intros H A key_slugs K run.
  assert (HK : K = match data_team with
                   | Some ((_ :: _) as d) =>
                       filter passes (dt_candidates nickname_only d)
                   | _ => []
                   end).
  { subst K key_slugs. destruct data_team as [[|d0 d]|]; [done| |done].
    by rewrite dt_candidates_spec. }
  clearbody K. clear key_slugs. subst K run H A. unfold resolve_team_slug.
  split; [|split; [|split; [|split]]].
  - intros pre s post HH Hpre Hs.
    erewrite bind_returns by (by eapply first_verified_hit).
    rewrite (passing_candidate_truthy allowed_slugs nickname_only home s); [done|].
    rewrite HH. set_solver.
  - intros pre s post HH HA Hpre Hs.
    erewrite bind_returns by (by eapply first_verified_miss). cbn [truthy].
    erewrite bind_returns by (by eapply first_verified_hit).
    rewrite (passing_candidate_truthy allowed_slugs nickname_only away s).
    + unfold ret. by rewrite ?fmap_app, <-?app_assoc.
    + rewrite HA. set_solver.
  - intros pre s post HH HA HK Hpre Hs Hne.
    erewrite bind_returns by (by eapply first_verified_miss). cbn [truthy].
    erewrite bind_returns by (by eapply first_verified_miss). cbn [truthy].
    destruct data_team as [[|d0 d]|]; try by destruct pre.
    erewrite bind_returns by (by eapply first_verified_hit).
    destruct s; [done|]. cbn [truthy]. unfold ret.
    by rewrite ?fmap_app, <-?app_assoc.
  - intros pre post HH HA HK Hpre Hs.
    erewrite bind_returns by (by eapply first_verified_miss). cbn [truthy].
    erewrite bind_returns by (by eapply first_verified_miss). cbn [truthy].
    destruct data_team as [[|d0 d]|]; try by destruct pre.
    erewrite bind_returns by (by eapply first_verified_hit).
    cbn [truthy]. unfold ret.
    by rewrite ?fmap_app, <-?app_assoc.
  - intros HH HA HK.
    erewrite bind_returns by (by eapply first_verified_miss). cbn [truthy].
    erewrite bind_returns by (by eapply first_verified_miss). cbn [truthy].
    destruct data_team as [[|d0 d]|]; unfold ret;
      rewrite ?fmap_app, ?app_nil_r, <-?app_assoc; try done.
    erewrite bind_returns by (by eapply first_verified_miss). cbn [truthy].
    unfold ret. by rewrite <-?app_assoc.
Qed.

End ResolverOrder.

(** Dallas at Philadelphia with the page key "Eagles" and no allow-list.
    When the streams [dallascowboys] and [eagles] are live, the away
    candidate is returned and the key, although live, is not probed.  When
    only [eagles] is live, the key is reached after the home and the away
    candidate and is returned.  In nickname mode with the key "Lakers",
    when only the NBA stream of the Lakers is live, it is found at the
    key stage, after the four candidates of home and away. *)
Lemma resolve_team_slug_precedence_example :
  resolve_team_slug (endpoint_with [py "dallascowboys"; py "eagles"])
    None false
    (Some (py "Eagles")) (py "Dallas Cowboys") (py "Philadelphia Eagles") []
  = (Returns (Some (py "dallascowboys")),
     [probe (py "philadelphiaeagles"); probe (py "dallascowboys")])
  ∧ resolve_team_slug (endpoint_with [py "eagles"])
      None false
      (Some (py "Eagles")) (py "Dallas Cowboys") (py "Philadelphia Eagles") []
    = (Returns (Some (py "eagles")),
       [probe (py "philadelphiaeagles"); probe (py "dallascowboys");
        probe (py "eagles")])
  ∧ resolve_team_slug (endpoint_with [py "nba_losangeleslakers"])
      None true
      (Some (py "Lakers")) (py "Miami Heat") (py "Boston Celtics") []
    = (Returns (Some (py "nba_losangeleslakers")),
       [probe (py "nba_bostonceltics"); probe (py "celtics");
        probe (py "nba_miamiheat"); probe (py "heat");
        probe (py "nba_losangeleslakers")]).
Proof.
  split; [|split].
  - pose proof (resolve_team_slug_precedence
                  (endpoint_with [py "dallascowboys"; py "eagles"])
                  None false
                  (Some (py "Eagles")) (py "Dallas Cowboys")
                  (py "Philadelphia Eagles") []) as (_ & Haway & _).
    etrans; [apply (Haway [] (py "dallascowboys") [])|].
    + vm_compute. repeat constructor.
    + vm_compute. reflexivity.
    + constructor.
    + vm_compute. reflexivity.
    + vm_compute. reflexivity.
  - pose proof (resolve_team_slug_precedence
                  (endpoint_with [py "eagles"])
                  None false
                  (Some (py "Eagles")) (py "Dallas Cowboys")
                  (py "Philadelphia Eagles") []) as (_ & _ & Hkey & _).
    etrans; [apply (Hkey [] (py "eagles") [])|].
    + vm_compute. repeat constructor.
    + vm_compute. repeat constructor.
    + vm_compute. reflexivity.
    + constructor.
    + vm_compute. reflexivity.
    + discriminate.
    + vm_compute. reflexivity.
  - pose proof (resolve_team_slug_precedence
                  (endpoint_with [py "nba_losangeleslakers"])
                  None true
                  (Some (py "Lakers")) (py "Miami Heat")
                  (py "Boston Celtics") []) as (_ & _ & Hkey & _).
    etrans; [apply (Hkey [] (py "nba_losangeleslakers") [py "lakers"])|].
    + vm_compute. repeat constructor.
    + vm_compute. repeat constructor.
    + vm_compute. reflexivity.
    + constructor.
    + vm_compute. reflexivity.
    + discriminate.
    + vm_compute. reflexivity.
Defined.

(** ** Empty slugs *)

Section EmptySlug.
Variable head_response : list N → response.
Variable allowed_slugs : option (gset (list N)).

(** No candidate generator proposes an empty slug, and the resolver never
    returns one.  The key stage alone can try one: the slug of a key
    without letters or digits is empty; without an allow-list it is probed
    like any other, and a positive answer to that probe is discarded. *)
Theorem candidates_are_never_empty (nickname_only : bool) (txt : list N) :
  Forall (λ s, s ≠ []) (_nickname_only_candidates txt)
  ∧ Forall (λ s, s ≠ []) (_expand_nba_candidates (_nickname_only_candidates txt))
  ∧ Forall (λ s, s ≠ []) (general_candidates txt)
  ∧ Forall (λ s, s ≠ []) (build_candidates nickname_only txt)
  ∧ (∀ data_team away home log s log',
       resolve_team_slug head_response allowed_slugs nickname_only
         data_team away home log = (Returns (Some s), log') →
       s ≠ [])
  ∧ resolve_team_slug always_200 None nickname_only
      (Some (py "!!!")) (py "!!!") (py "!!!") []
    = (Returns None, [probe []]).
Proof.
  split; [apply _nickname_only_candidates_nonempty|].
  split; [apply _expand_nba_candidates_nonempty, _nickname_only_candidates_nonempty|].
  split; [apply general_candidates_nonempty|].
  split; [apply build_candidates_nonempty|].
  split; [|destruct nickname_only; vm_compute; reflexivity].
  intros data_team away home log s log'. unfold resolve_team_slug.
  destruct (first_verified_returns head_response allowed_slugs
              (build_candidates nickname_only home) log) as (r1 & l1 & H1).
  rewrite (bind_returns _ _ _ _ _ H1).
  destruct (truthy r1) eqn:T1.
  { unfold ret. intros [= -> _] ->. done. }
  destruct (first_verified_returns head_response allowed_slugs
              (build_candidates nickname_only away) l1) as (r2 & l2 & H2).
  rewrite (bind_returns _ _ _ _ _ H2).
  destruct (truthy r2) eqn:T2.
  { unfold ret. intros [= -> _] ->. done. }
  destruct data_team as [[|d0 d]|]; try by (unfold ret; intros [=]).
  destruct (first_verified_returns head_response allowed_slugs
              (dt_candidates nickname_only (d0 :: d)) l2) as (r3 & l3 & H3).
  rewrite (bind_returns _ _ _ _ _ H3).
  destruct (truthy r3) eqn:T3; unfold ret; [|by intros [=]].
  intros [= -> _] ->. done.
Qed.

End EmptySlug.

(** ** The stream finder *)

(** When the places where a pattern matches are those where a test holds,
    [re.search] finds something exactly when the test holds somewhere. *)
Lemma search_is_Some ic r s (P : nat → bool) :
  (∀ k, (k ≤ length s)%nat →
        Re.run ic r (cursor_at None 0 s k) ∅ ≠ [] ↔ P k = true) →
  is_Some (Re.search ic r s) ↔ ∃ k, (k ≤ length s)%nat ∧ P k = true.
Proof.
  intros Hrun. split.
  - intros [m Hm].
    apply search_from_Some in Hm as (k & c' & tl & Hk & _ & Hr & _).
    exists k. split; [done|]. apply Hrun; [done|]. by rewrite Hr.
  - intros (k & Hk & HP). destruct (Re.search ic r s) as [m|] eqn:Hm; [done|].
    pose proof (search_from_None _ _ _ _ _ Hm k Hk) as Hr.
    apply Hrun in HP; [|done]. done.
Qed.

Lemma cls_ic_symbol a x :
  a < 65 → Re.cls true (N.eqb a) x = true ↔ x = a.
Proof.
  intros Ha. split.
  - intros H. apply cls_ic_cases in H as [H|[H|H]]; apply N.eqb_eq in H.
    + done.
    + destruct (lower1_cases x) as [Hl|[Hx Hl]]; rewrite Hl in H; lia.
    + destruct (upper1_cases x) as [Hu|[Hx Hu]]; rewrite Hu in H; lia.
  - intros ->. apply cls_intro, N.eqb_refl.
Qed.

Lemma cls_ic_small a x :
  97 ≤ a ≤ 122 → Re.cls true (N.eqb a) x = true ↔ Py.lower1 x = a.
Proof.
  intros Ha. unfold Re.cls, Py.lower1, Py.upper1, Py.is_upper_az, Py.is_lower_az.
  cbn [andb]. split.
  - intros H.
    destruct ((65 <=? x) && (x <=? 90)) eqn:Hu;
      destruct ((97 <=? x) && (x <=? 122)) eqn:Hl; bool_lia.
  - intros H.
    destruct ((65 <=? x) && (x <=? 90)) eqn:Hu;
      destruct ((97 <=? x) && (x <=? 122)) eqn:Hl;
      rewrite ?orb_true_iff, !N.eqb_eq; bool_lia.
Qed.

Lemma STREAM_PATTERN_unfold :
  STREAM_PATTERN =
  Re.Seq (Re.Seq (Re.Chr 46) (Re.Seq (Re.Chr 109) (Re.Seq (Re.Chr 51)
            (Re.Seq (Re.Chr 117) (Re.Chr 56)))))
         (Re.Group 1 (Re.Alt Re.Eos (Re.Chr 63))).
Proof. reflexivity. Qed.

(** The stream pattern matches at a cursor exactly when the text [.m3u8]
    is written there and is followed by the end or a question mark.  The
    letters of the pattern are m and u, whose case variants are all of
    Basic Latin, so this holds of every text. *)
Lemma STREAM_PATTERN_here c g :
  Re.run true STREAM_PATTERN c g ≠ [] ↔ stream_suffix_here (Re.rest c) = true.
Proof.
  rewrite STREAM_PATTERN_unfold. split.
  - intros H. apply elem_nonempty in H as ([c' g'] & H).
    apply run_Seq in H as (c5 & g5 & H & Hend).
    apply run_Seq in H as (c1 & g1 & H1 & H).
    apply run_Cls in H1 as (x1 & s1 & Hs1 & Hx1 & -> & ->).
    apply run_Seq in H as (c2 & g2 & H2 & H).
    apply run_Cls in H2 as (x2 & s2 & Hs2 & Hx2 & -> & ->).
    apply run_Seq in H as (c3 & g3 & H3 & H).
    apply run_Cls in H3 as (x3 & s3 & Hs3 & Hx3 & -> & ->).
    apply run_Seq in H as (c4 & g4 & H4 & H).
    apply run_Cls in H4 as (x4 & s4 & Hs4 & Hx4 & -> & ->).
    apply run_Cls in H as (x5 & s5 & Hs5 & Hx5 & -> & ->).
    cbn [Re.rest Re.pos] in *. subst s1 s2 s3 s4.
    apply cls_ic_symbol in Hx1; [|lia]. apply cls_ic_symbol in Hx3; [|lia].
    apply cls_ic_symbol in Hx5; [|lia].
    apply cls_ic_small in Hx2; [|lia]. apply cls_ic_small in Hx4; [|lia].
    rewrite Hs1. cbn [stream_suffix_here].
    rewrite Hx1, Hx2, Hx3, Hx4, Hx5. cbn [N.eqb Pos.eqb andb].
    apply run_Group in Hend as (g0 & Hend & _).
    apply run_Alt in Hend as [Hend|Hend].
    + cbn [Re.run Re.rest] in Hend.
      destruct s5 as [|x [|??]]; [done| |by apply not_elem_of_nil in Hend].
      destruct (x =? 10); [done|by apply not_elem_of_nil in Hend].
    + apply run_Cls in Hend as (x & s6 & Hs & Hx & _). cbn [Re.rest] in Hs.
      subst s5. apply cls_ic_symbol in Hx as ->; [|lia].
      destruct s6; [|done]. done.
  - intros H. destruct (Re.rest c) as [|x1 [|x2 [|x3 [|x4 [|x5 s5]]]]] eqn:Hs;
      try done.
    cbn [stream_suffix_here] in H.
    apply andb_true_iff in H as [H Hend]. apply andb_true_iff in H as [H H5].
    apply andb_true_iff in H as [H H4]. apply andb_true_iff in H as [H H3].
    apply andb_true_iff in H as [H1 H2].
    apply N.eqb_eq in H1, H2, H3, H4, H5.
    assert (Hlit : ∃ b i, (Re.Cursor b i s5, g)
              ∈ Re.run true
                  (Re.Seq (Re.Chr 46) (Re.Seq (Re.Chr 109) (Re.Seq (Re.Chr 51)
                     (Re.Seq (Re.Chr 117) (Re.Chr 56))))) c g).
    { eexists _, _. eapply run_Seq_intro.
      { apply (run_Cls_intro _ _ _ _ x1 _ Hs). apply cls_ic_symbol; [lia|done]. }
      eapply run_Seq_intro.
      { eapply run_Cls_intro; [reflexivity|]. apply cls_ic_small; [lia|done]. }
      eapply run_Seq_intro.
      { eapply run_Cls_intro; [reflexivity|]. apply cls_ic_symbol; [lia|done]. }
      eapply run_Seq_intro.
      { eapply run_Cls_intro; [reflexivity|]. apply cls_ic_small; [lia|done]. }
      eapply run_Cls_intro; [reflexivity|]. apply cls_ic_symbol; [lia|done]. }
    destruct Hlit as (b5 & i5 & Hlit).
    assert (Hseq : ∀ r2 : Re.regex,
              Re.run true r2 (Re.Cursor b5 i5 s5) g ≠ [] →
              Re.run true
                (Re.Seq (Re.Seq (Re.Chr 46) (Re.Seq (Re.Chr 109) (Re.Seq (Re.Chr 51)
                           (Re.Seq (Re.Chr 117) (Re.Chr 56))))) r2) c g ≠ []).
    { intros r2 Hr2. apply elem_nonempty in Hr2 as (x & Hx).
      apply (nonempty_elem _ x). by eapply run_Seq_intro. }
    assert (Hgroup : ∀ r : Re.regex,
              Re.run true r (Re.Cursor b5 i5 s5) g ≠ [] →
              Re.run true (Re.Group 1 r) (Re.Cursor b5 i5 s5) g ≠ []).
    { intros r Hr. apply elem_nonempty in Hr as ([c' g'] & Hx).
      eapply (nonempty_elem _ (_, _)). by apply run_Group_intro. }
    assert (Hq : ∀ s6, s5 = 63 :: s6 →
              Re.run true (Re.Alt Re.Eos (Re.Chr 63)) (Re.Cursor b5 i5 s5) g ≠ []).
    { intros s6 Hs6. eapply (nonempty_elem _ (_, _)). apply run_Alt_r.
      eapply run_Cls_intro; [exact Hs6|]. by apply cls_intro. }
    assert (He : s5 = [] ∨ s5 = [10] →
              Re.run true (Re.Alt Re.Eos (Re.Chr 63)) (Re.Cursor b5 i5 s5) g ≠ []).
    { intros Hs5. apply (nonempty_elem _ (Re.Cursor b5 i5 s5, g)). apply run_Alt_l.
      cbn [Re.run Re.rest].
      destruct Hs5 as [Hs5|Hs5]; rewrite Hs5; by apply list_elem_of_singleton. }
    apply Hseq, Hgroup.
    destruct s5 as [|x [|y s7]].
    + apply He. by left.
    + apply orb_true_iff in Hend as [Hx|Hx]; apply N.eqb_eq in Hx as ->.
      * apply He. by right.
      * by apply (Hq []).
    + apply N.eqb_eq in Hend as ->. by apply (Hq (y :: s7)).
Qed.

Lemma looks_like_stream_search u :
  is_Some (Re.search true STREAM_PATTERN u) ↔ looks_like_stream u = true.
Proof.
  rewrite (search_is_Some true STREAM_PATTERN u
             (λ k, stream_suffix_here (drop k u)))
    by (intros k _; apply STREAM_PATTERN_here).
  unfold looks_like_stream. rewrite existsb_exists. split.
  - intros (k & Hk & H). exists k. split; [|done].
    apply list_elem_of_In, elem_of_seq. lia.
  - intros (k & Hk & H). exists k. split; [|done].
    apply list_elem_of_In, elem_of_seq in Hk. lia.
Qed.

Lemma filter_all {A} (P : A → Prop) `{∀ x, Decision (P x)} (l : list A) :
  (∀ x, P x) → filter P l = l.
Proof.
  intros HP. induction l as [|x l IH]; [done|].
  by rewrite filter_cons_True, IH.
Qed.

(** The listener collects the requests that look like a stream, each
    once, in the order in which they were first seen. *)
Lemma on_req_first_seen reqs acc :
  foldl on_req acc reqs
  = acc ++ filter (λ y, y ∉ acc)
             (first_seen (filter (λ u, looks_like_stream u = true) reqs)).
Proof.
  revert acc. induction reqs as [|x reqs IH]; intros acc.
  { cbn. by rewrite app_nil_r. }
  cbn [foldl]. rewrite IH. unfold on_req, append_if.
  rewrite filter_cons.
  destruct (decide (looks_like_stream x = true)) as [Hx|Hx].
  - rewrite bool_decide_eq_true_2 by (by apply looks_like_stream_search).
    cbn [andb first_seen]. rewrite filter_cons.
    case_bool_decide as Hin; cbn [negb].
    + rewrite decide_False by tauto. f_equal.
      rewrite list_filter_filter. apply list_filter_iff.
      intros y. split; [|tauto]. intros Hy. split; [done|].
      by intros ->.
    + rewrite decide_True by done. rewrite <-app_assoc. cbn [app]. do 2 f_equal.
      rewrite list_filter_filter. apply list_filter_iff.
      intros y. rewrite elem_of_app, list_elem_of_singleton. tauto.
  - rewrite bool_decide_eq_false_2; [done|].
    intros H. by apply looks_like_stream_search in H.
Qed.

Section StreamFinder.
Variable head_response : list N → response.
Variable page_requests : list N → outcome (list (list N)).

Abbreviation answers_200 := (λ s, head_response s = Status 200).

(** The candidates are probed in order up to the first one that answers
    200, which is returned. *)
Lemma first_live_spec l log :
  ∃ tried,
    first_live head_response l log
    = (Returns (head (filter answers_200 l)), log ++ (HEAD <$> tried))
    ∧ match head (filter answers_200 l) with
      | Some s => ∃ skipped rest, l = skipped ++ s :: rest
                    ∧ Forall (λ t, ¬ answers_200 t) skipped
                    ∧ answers_200 s ∧ tried = skipped ++ [s]
      | None => tried = l
      end.
Proof.
  revert log. induction l as [|s l IH]; intros log.
  { exists []. cbn. unfold ret. by rewrite app_nil_r. }
  cbn [first_live]. unfold bind. rewrite verify_stream_url_run.
  rewrite filter_cons. case_bool_decide as Hs.
  - rewrite decide_True by done. exists [s]. split; [done|].
    cbn [head]. by exists [], l.
  - rewrite decide_False by done.
    destruct (IH (log ++ [HEAD s])) as (tried & -> & Htried).
    exists (s :: tried). split; [by rewrite <-app_assoc|].
    destruct (head (filter answers_200 l)) as [s'|].
    + destruct Htried as (skipped & rest & -> & Hsk & Hs' & ->).
      exists (s :: skipped), rest. split; [done|].
      split; [by constructor|done].
    + by rewrite Htried.
Qed.

(** The stream finder lets a fault of the navigation through.  When the
    page loads it never raises.  Its candidates are the requests of the
    page that look like a stream (an address that holds [.m3u8], in
    either case, at its end or before a question mark), each once, in the
    order in which they were first seen.  It probes them from the last one
    backwards and returns the first that answers 200: the result is the
    last candidate that answers 200, the candidates after it were probed
    in reverse order and do not answer 200, and no other request was
    sent.  When no candidate answers 200 all were probed and the result
    is absence. *)
Theorem find_stream_in_page_last_live (url : list N) (log : list request) :
  (∀ e, page_requests url = Raises e →
        find_stream_in_page head_response page_requests url log
        = (Raises e, log ++ [GOTO url]))
  ∧ (∀ reqs, page_requests url = Returns reqs →
       let cands :=
         first_seen (filter (λ u, looks_like_stream u = true) reqs) in
       ∃ tried,
         find_stream_in_page head_response page_requests url log
         = (Returns (last (filter answers_200 cands)),
            log ++ GOTO url :: (HEAD <$> tried))
         ∧ match last (filter answers_200 cands) with
           | Some s => ∃ before after, cands = before ++ s :: after
                         ∧ Forall (λ t, ¬ answers_200 t) after
                         ∧ answers_200 s ∧ tried = reverse after ++ [s]
           | None => tried = reverse cands
           end).
Proof.
  split.
  - intros e He. unfold find_stream_in_page, page_goto, bind. by rewrite He.
  - intros reqs Hr cands. unfold find_stream_in_page, page_goto, bind.
    rewrite Hr. cbv beta iota.
    assert (foldl on_req [] reqs = cands) as ->.
    { rewrite on_req_first_seen. cbn [app]. subst cands.
      apply filter_all. intros y. apply not_elem_of_nil. }
    destruct (first_live_spec (reverse cands) (log ++ [GOTO url]))
      as (tried & -> & Htried).
    exists tried. rewrite <-app_assoc. cbn [app].
    rewrite filter_reverse, head_reverse in Htried |- *. split; [done|].
    destruct (last (filter answers_200 cands)) as [s|]; [|done].
    destruct Htried as (skipped & rest & Hrev & Hsk & Hs & ->).
    exists (reverse rest), (reverse skipped).
    split.
    { apply (f_equal reverse) in Hrev. rewrite reverse_involutive in Hrev.
      rewrite Hrev, reverse_app, reverse_cons, <-app_assoc. done. }
    split; [by apply Forall_reverse|].
    split; [done|]. by rewrite reverse_involutive.
Qed.

End StreamFinder.

(** A page that asks for a.m3u8, b.m3u8, a.m3u8 again and a script, with
    both streams live: the candidates are a.m3u8 then b.m3u8, and the
    finder returns b.m3u8 after a single probe. *)
Lemma find_stream_in_page_last_live_example :
  find_stream_in_page always_200
    (λ _, Returns [py "http://x/a.m3u8"; py "http://x/b.M3U8?t=1";
                   py "http://x/a.m3u8"; py "http://x/app.js"])
    (py "http://x/") []
  = (Returns (Some (py "http://x/b.M3U8?t=1")),
     [GOTO (py "http://x/"); HEAD (py "http://x/b.M3U8?t=1")]).
Proof.
  destruct (proj2 (find_stream_in_page_last_live always_200
              (λ _, Returns [py "http://x/a.m3u8"; py "http://x/b.M3U8?t=1";
                             py "http://x/a.m3u8"; py "http://x/app.js"])
              (py "http://x/") [])
              [py "http://x/a.m3u8"; py "http://x/b.M3U8?t=1";
               py "http://x/a.m3u8"; py "http://x/app.js"] eq_refl)
    as (tried & Hrun & Htried).
  rewrite Hrun. clear Hrun.
  assert (Hlast : last (filter (λ s, always_200 s = Status 200)
            (first_seen (filter (λ u, looks_like_stream u = true)
               [py "http://x/a.m3u8"; py "http://x/b.M3U8?t=1";
                py "http://x/a.m3u8"; py "http://x/app.js"])))
          = Some (py "http://x/b.M3U8?t=1")) by (vm_compute; reflexivity).
  rewrite Hlast in Htried |- *.
  destruct Htried as (before & after & Hc & _ & _ & ->).
  assert (after = []) as ->.
  { assert (Hcands : first_seen (filter (λ u, looks_like_stream u = true)
               [py "http://x/a.m3u8"; py "http://x/b.M3U8?t=1";
                py "http://x/a.m3u8"; py "http://x/app.js"])
             = [py "http://x/a.m3u8"; py "http://x/b.M3U8?t=1"])
      by (vm_compute; reflexivity).
    rewrite Hcands in Hc.
    destruct before as [|b0 [|b1 [|b2 before]]]; simplify_eq/=; done. }
  reflexivity.
Defined.

(** ** Writing a date and reading it back *)

Section DateRoundTrip.
Local Open Scope Z_scope.

(** The date parser settles the year of what it has read. *)
Lemma parse_date_title_fields text today :
  parse_date_title text today
  = match date_fields text with
    | None => Returns None
    | Some (mon, day, year_str) =>
        year ←? match year_str with
                | Some ((_ :: _) as y) => int y
                | _ => _guess_year mon day today
                end;
        match Cal.new year mon day with
        | Returns d => Returns (Some d)
        | Raises _ => Returns None
        end
    end.
Proof.
  unfold parse_date_title, date_fields.
  destruct (Re.search true DATE_RE _) as [m|]; [|done].
  by destruct (int (group_text m 2)).
Qed.

(** The text of the formatter for a month and a day names that month and
    that day, and no year. *)
Lemma date_text_fields :
  forallb (λ m,
    forallb (λ d,
      bool_decide
        (date_fields (MONTH_ABBR m ++ py " " ++ Py.decimal d) = Some (m, d, None)))
      (seqZ 1 31))
    (seqZ 1 12) = true.
Proof. vm_compute. reflexivity. Qed.

(** A day of a month other than the 29th of February is a day of that
    month in every year of the calendar. *)
Lemma new_other_year y y' m d cand :
  Cal.new y m d = Returns cand → ¬ (m = 2 ∧ d = 29) → 1 ≤ y' ≤ 9999 →
  Cal.new y' m d = Returns (Cal.Date y' m d).
Proof.
  intros Hc Hfeb Hy'. apply new_returns in Hc as (_ & _ & Hm & Hd).
  unfold Cal.new, Cal.MINYEAR, Cal.MAXYEAR.
  assert ((1 <=? y') && (y' <=? 9999) && (1 <=? m) && (m <=? 12) && (1 <=? d)
          && (d <=? Cal.days_in_month y' m) = true) as ->; [|done].
  rewrite !andb_true_iff, !Z.leb_le.
  repeat split; try lia.
  apply month_cases in Hm. repeat (destruct Hm as [Hm|Hm]); subst m;
    cbn in Hd |- *; try lia.
  destruct (Cal.is_leap y), (Cal.is_leap y'); lia.
Qed.

(** The date the formatter writes, on either platform, is read back by
    the date parser as the same month and the same day: the parser goes
    on to guess the year for that month and day.  When they are a day of
    the reference year other than the 29th of February, and the reference
    year is not the first or the last of the calendar, the parser returns
    that month and day in the reference year, the year before or the
    year after. *)
Theorem strftime_date_read_back
    (on_windows : bool) (dt : datetime) (today : Cal.date) :
  let m := Cal.month (dt_date dt) in
  let d := Cal.day (dt_date dt) in
  let text := _strftime_no_pad on_windows (py "%b %-d") (py "%b %#d") dt in
  1 ≤ m ≤ 12 → 1 ≤ d ≤ 31 →
  parse_date_title text today
  = (year ←? _guess_year m d today;
     match Cal.new year m d with
     | Returns x => Returns (Some x)
     | Raises _ => Returns None
     end)
  ∧ (∀ cand, Cal.new (Cal.year today) m d = Returns cand →
       ¬ (m = 2 ∧ d = 29) → 1 < Cal.year today < 9999 →
       ∃ y, Cal.year today - 1 ≤ y ≤ Cal.year today + 1
            ∧ parse_date_title text today = Returns (Some (Cal.Date y m d))).
Proof.
  intros m d text Hm Hd.
  assert (Htext : text = MONTH_ABBR m ++ py " " ++ Py.decimal d).
  { subst text. unfold _strftime_no_pad.
    destruct (strftime_date dt) as [Hl Hw]. by destruct on_windows. }
  assert (Hfields : date_fields text = Some (m, d, None)).
  { rewrite Htext. pose proof date_text_fields as H.
    rewrite forallb_forall in H.
    specialize (H m). rewrite <-list_elem_of_In, elem_of_seqZ in H.
    specialize (H ltac:(lia)). rewrite forallb_forall in H.
    specialize (H d). rewrite <-list_elem_of_In, elem_of_seqZ in H.
    specialize (H ltac:(lia)). by apply bool_decide_eq_true in H. }
  assert (Hparse : parse_date_title text today
            = (year ←? _guess_year m d today;
               match Cal.new year m d with
               | Returns x => Returns (Some x)
               | Raises _ => Returns None
               end)).
  { by rewrite parse_date_title_fields, Hfields. }
  split; [exact Hparse|].
  intros cand Hcand Hfeb Hyear. rewrite Hparse.
  unfold _guess_year. rewrite Hcand. cbn [obind].
  set (delta := Cal.days_between cand today).
  assert (Hnew : ∀ y, Cal.year today - 1 ≤ y ≤ Cal.year today + 1 →
            Cal.new y m d = Returns (Cal.Date y m d)).
  { intros y Hy. eapply new_other_year; [exact Hcand|done|lia]. }
  destruct (delta <? -180); [|destruct (180 <? delta)]; cbn [obind].
  - exists (Cal.year today + 1). split; [lia|]. by rewrite Hnew by lia.
  - exists (Cal.year today - 1). split; [lia|]. by rewrite Hnew by lia.
  - exists (Cal.year today). split; [lia|]. by rewrite Hnew by lia.
Qed.

(** The display of 2025-01-05 17:05 PST: its date, "Jan 5", read on
    2025-01-02, is the 5th of January 2025. *)
Lemma strftime_date_read_back_example :
  parse_date_title
    (_strftime_no_pad false (py "%b %-d") (py "%b %#d")
       (DateTime (Cal.Date 2025 1 5) 17 5 (py "PST"))) (Cal.Date 2025 1 2)
  = Returns (Some (Cal.Date 2025 1 5)).
Proof.
  destruct (strftime_date_read_back false
              (DateTime (Cal.Date 2025 1 5) 17 5 (py "PST")) (Cal.Date 2025 1 2))
    as [Hparse _]; [cbn; lia..|].
  rewrite Hparse. vm_compute. reflexivity.
Defined.

End DateRoundTrip.
